(** * Theru Fleet admin panel: revenue, lifecycle, export and access rules

    A shallow embedding of the pure logic of the dashboard front end
    (React pages under [frontend/src]) and the properties the
    specification states about it.

    Conventions of the embedding.
    - A JavaScript number is an IEEE 754 binary64 value: a [spec_float]
      of the standard library, with the operations [SFmul], [SFadd],
      [SFsub] and [SFcompare] at precision 53 and maximal exponent 1024.
      Products and sums are rounded to the nearest double as in the
      running program.  The values a program can hold are the valid
      ones ([is_double]).
    - A numeric field of a JSON response is an [optnum]: it may be
      absent ([undefined]), [null] or a number.
    - A JavaScript object used as a dictionary is a [gmap] of its own
      properties; where a page reads a key of an object literal that it
      may not have written, the members the object inherits from
      [Object.prototype] are modelled too ([inherited]). *)

From Stdlib Require Import ZArith QArith Qcanon String Ascii List Lia Bool.
From Stdlib Require Import Sorting.Sorted Sorting.Permutation.
From Stdlib Require Import Floats.SpecFloat.
From stdpp Require Import base option list strings pretty gmap fin_maps numbers.

Local Open Scope Z_scope.
Local Open Scope string_scope.
Local Open Scope list_scope.

(** ** JavaScript numbers and the operators the pages use *)

(** The binary64 format. *)
Definition prec : Z := 53.
Definition emax : Z := 1024.

Definition number : Type := spec_float.

Definition NaN : number := S754_nan.

(** The values of the format: a finite number has its canonical
    mantissa and exponent.  Every number of a running program is one. *)
Definition is_double (x : number) : Prop := valid_binary prec emax x = true.

(** The number an integer denotes, rounded to the format. *)
Definition of_Z (z : Z) : number := binary_normalize prec emax z 0 false.

#[global] Instance number_eq_dec : EqDecision number.
Proof. solve_decision. Defined.

Inductive optnum : Type :=
  | Undefined
  | Null
  | Number (n : number).

(** The literals [0] and [1]. *)
Definition zero : number := S754_zero false.
Definition one : number := S754_finite false 4503599627370496 (-52).

(** [-0], which a product or a JSON response can hold. *)
Definition negative_zero : number := S754_zero true.

(** [ToNumber] on the values a numeric field can hold. *)
Definition ToNumber (v : optnum) : number :=
  match v with
  | Undefined => NaN
  | Null => zero
  | Number n => n
  end.

(** [a * b] *)
Definition mul (a b : number) : number := SFmul prec emax a b.

(** [a + b] on numbers *)
Definition add (a b : number) : number := SFadd prec emax a b.

(** [ToBoolean]: [undefined], [null], [NaN], [0] and [-0] are falsy. *)
Definition truthy_number (n : number) : bool :=
  match n with
  | S754_nan | S754_zero _ => false
  | _ => true
  end.

Definition truthy (v : optnum) : bool :=
  match v with
  | Undefined | Null => false
  | Number n => truthy_number n
  end.

(** [v || 0], already converted to a number (the result is only ever
    used as an operand of [*] or [+=] with a number on the left). *)
Definition or_zero (v : optnum) : number :=
  if truthy v then ToNumber v else zero.

(** [a <= b] on numbers: false as soon as one side is [NaN]. *)
Definition number_le (a b : number) : Prop := SFleb a b = true.

(** [a === b] on numbers: [0] and [-0] are equal, [NaN] equals nothing. *)
Definition strict_equal (a b : number) : Prop := SFeqb a b = true.

(** The literal [0.10]: the double nearest to one tenth,
    7205759403792794 / 2^56. *)
Definition lit_0_10 : number := S754_finite false 7205759403792794 (-56).

(** [x.toFixed(f)] (Number.prototype.toFixed).  Below 10^21 in
    magnitude the number is rounded to the nearest multiple of 10^-f,
    the larger one in a tie, and printed with [f] decimals, a negative
    number with its sign; [NaN] and the infinities print their names.
    From 10^21 on [toFixed] hands over to the general number printer,
    which is not modelled: the result is [None] there. *)
Definition pad_zeros (width : nat) (digits : string) : string :=
  (String.concat EmptyString (repeat "0" (width - String.length digits)) ++ digits)%string.

Definition with_decimals (f : nat) (n : Z) : string :=
  let digits := pad_zeros (f + 1) (pretty n) in
  match f with
  | O => digits
  | _ =>
      (String.substring 0 (String.length digits - f) digits ++ "."
       ++ String.substring (String.length digits - f) f digits)%string
  end.

Definition toFixed (f : nat) (x : number) : option string :=
  match x with
  | S754_nan => Some "NaN"
  | S754_infinity s => Some (if s then "-Infinity" else "Infinity")
  | S754_zero _ => Some (with_decimals f 0)
  | S754_finite s m e =>
      let below :=
        (if 0 <=? e then Z.pos m * 2 ^ e <? 10 ^ 21
         else Z.pos m <? 10 ^ 21 * 2 ^ (- e))%Z in
      if below then
        let n :=
          (if 0 <=? e then Z.pos m * 2 ^ e * 10 ^ Z.of_nat f
           else (2 * Z.pos m * 10 ^ Z.of_nat f + 2 ^ (- e)) / 2 ^ (- e + 1))%Z in
        Some ((if s then "-" else EmptyString) ++ with_decimals f n)%string
      else None
  end.

(** ** Devices for reasoning about rounding

    [shr] shifts a mantissa right and records what it drops in two
    bits.  [located P k mrs]: the record [mrs] is the integer [P]
    shifted right by [k] bits, its round bit and its sticky bit.
    [finish] is the second, normalising pass of [binary_round_aux] on a
    rounded mantissa of at most 54 bits. [scaled] orders the doubles as
    integers: a finite double is a multiple of 2^-1074. *)

Definition b2z (b : bool) : Z := if b then 1 else 0.

Definition located (P k : Z) (mrs : shr_record) : Prop :=
  0 <= shr_m mrs /\
  2 ^ k * (2 * shr_m mrs + b2z (shr_r mrs)) <= 2 * P /\
  2 * P < 2 ^ k * (2 * shr_m mrs + b2z (shr_r mrs) + 1) /\
  (shr_s mrs = false <-> 2 * P = 2 ^ k * (2 * shr_m mrs + b2z (shr_r mrs))).

Definition overflow_to (sx : bool) (M E : Z) : number :=
  if (E <=? emax - prec)%Z then S754_finite sx (Z.to_pos M) E else S754_infinity sx.

Definition finish (sx : bool) (M E : Z) : number :=
  if (M =? 0)%Z then S754_zero sx
  else if (M <? 2 ^ 53)%Z then overflow_to sx M E
  else overflow_to sx (2 ^ 52) (E + 1).

Definition huge : Z := 2 ^ 2100.

Definition scaled (x : number) : Z :=
  match x with
  | S754_zero _ => 0
  | S754_nan => 0
  | S754_infinity s => cond_Zopp s huge
  | S754_finite s m e => cond_Zopp s (Z.pos m * 2 ^ (e + 1074))
  end.

(** ** DashboardPage.js *)

Module DashboardPage.

Record stats : Type := mkStats {
  total_devices : optnum;
  online_devices : optnum;
  offline_devices : optnum;
  total_campaigns : optnum;
  total_impressions : optnum;
  today_impressions : optnum
}.

(** The initial [useState] value. *)
Definition initial_stats : stats :=
  mkStats (Number zero) (Number zero) (Number zero)
          (Number zero) (Number zero) (Number zero).

Definition RATE_PER_IMPRESSION : number := lit_0_10.

Definition totalRevenue (s : stats) : number :=
  mul (ToNumber (total_impressions s)) RATE_PER_IMPRESSION.

Definition todayRevenue (s : stats) : number :=
  mul (ToNumber (today_impressions s)) RATE_PER_IMPRESSION.

End DashboardPage.

(** ** AnalyticsPage.js *)

Module AnalyticsPage.

(** [overview] starts as [{}] and is replaced by the response of
    [/analytics/overview]; only the two impression counters are read. *)
Record overview : Type := mkOverview {
  total_impressions : optnum;
  today_impressions : optnum
}.

Definition initial_overview : overview := mkOverview Undefined Undefined.

Definition RATE_PER_IMPRESSION : number := lit_0_10.

Definition totalRevenue (o : overview) : number :=
  mul (or_zero (total_impressions o)) RATE_PER_IMPRESSION.

Definition todayRevenue (o : overview) : number :=
  mul (or_zero (today_impressions o)) RATE_PER_IMPRESSION.

(** The per-campaign revenue of the chart and of the campaign report,
    before [toFixed(2)] formats it. *)
Definition campaignRevenue (total_impressions : optnum) : number :=
  mul (or_zero total_impressions) RATE_PER_IMPRESSION.

End AnalyticsPage.

(** ** Rows of [/analytics/campaigns] *)

(** A per-campaign stat row.  [client_id] is kept as the property key it
    becomes when it indexes an object. *)
Record campaign_stat : Type := mkCampaignStat {
  campaign_id : string;
  client_id : string;
  total_impressions : optnum;
  unique_devices : optnum
}.

(** ** Object literals used as dictionaries *)

(** The members every object literal inherits from [Object.prototype]:
    reading one of these keys from an object that has no own property
    of that name gives the inherited member, a function or, for
    [__proto__], the prototype object itself. *)
Definition Object_prototype_members : list string :=
  [ "constructor"; "hasOwnProperty"; "isPrototypeOf"; "propertyIsEnumerable";
    "toLocaleString"; "toString"; "valueOf"; "__proto__";
    "__defineGetter__"; "__defineSetter__"; "__lookupGetter__"; "__lookupSetter__" ].

Definition inherited (key : string) : bool :=
  existsb (String.eqb key) Object_prototype_members.

(** ** ClientsPage.js *)

Module ClientsPage.

(** The value stored per client: [{ impressions, campaigns }]. *)
Record client_stat : Type := mkClientStat {
  impressions : number;
  campaigns : number
}.

(** [statsMap] while [loadData] fills it: its own properties, and the
    [impressions] and [campaigns] properties the loop has put on the
    members of [Object.prototype] it reached through an inherited key
    (the entry of [__proto__] holds those of [Object.prototype]
    itself). *)
Record stats_map : Type := mkStatsMap {
  own : gmap string client_stat;
  on_members : gmap string client_stat
}.

(** [{}] *)
Definition empty_map : stats_map := mkStatsMap ∅ ∅.

Definition RATE_PER_IMPRESSION : number := lit_0_10.

(** [o.impressions] and [o.campaigns] for the member [o] reached through
    [key] ([__proto__] for a fresh [{}]): the property put on it, else
    the one it inherits from [Object.prototype], else [undefined]. *)
Definition member_impressions (members : gmap string client_stat) (key : string)
  : optnum :=
  match members !! key with
  | Some e => Number (impressions e)
  | None =>
      match members !! "__proto__" with
      | Some e => Number (impressions e)
      | None => Undefined
      end
  end.

Definition member_campaigns (members : gmap string client_stat) (key : string)
  : optnum :=
  match members !! key with
  | Some e => Number (campaigns e)
  | None =>
      match members !! "__proto__" with
      | Some e => Number (campaigns e)
      | None => Undefined
      end
  end.

(** One iteration of the [forEach] of [loadData].  [statsMap[clientId]]
    is the own entry if there is one; else, for an inherited key, the
    member, which is truthy, so that no entry is created and the two
    [+=] work on properties of the member; else [undefined], and the
    entry is created. *)
Definition forEach_body (statsMap : stats_map) (s : campaign_stat) : stats_map :=
  let clientId := client_id s in
  match own statsMap !! clientId with
  | Some e =>
      mkStatsMap
        (<[clientId := mkClientStat (add (impressions e) (or_zero (total_impressions s)))
                                    (add (campaigns e) one)]> (own statsMap))
        (on_members statsMap)
  | None =>
      if inherited clientId then
        mkStatsMap
          (own statsMap)
          (<[clientId :=
               mkClientStat
                 (add (ToNumber (member_impressions (on_members statsMap) clientId))
                      (or_zero (total_impressions s)))
                 (add (ToNumber (member_campaigns (on_members statsMap) clientId)) one)]>
             (on_members statsMap))
      else
        mkStatsMap
          (<[clientId := mkClientStat (add zero (or_zero (total_impressions s)))
                                      (add zero one)]> (own statsMap))
          (on_members statsMap)
  end.

(** [statsRes.data || []] folded into [statsMap], starting from [{}]. *)
Definition loadData_statsMap (data : option (list campaign_stat)) : stats_map :=
  fold_left forEach_body (default [] data) empty_map.

(** [stats.impressions] for [stats = campaignStats[clientId] || {}]. *)
Definition stats_impressions (campaignStats : stats_map) (clientId : string)
  : optnum :=
  match own campaignStats !! clientId with
  | Some stats => Number (impressions stats)
  | None =>
      if inherited clientId then member_impressions (on_members campaignStats) clientId
      else member_impressions (on_members campaignStats) "__proto__"
  end.

Definition getClientRevenue (campaignStats : stats_map) (clientId : string) : number :=
  mul (or_zero (stats_impressions campaignStats clientId)) RATE_PER_IMPRESSION.


(** The revenue printed on a client card: [revenue.toFixed(0)]. *)
Definition card_revenue (campaignStats : stats_map) (clientId : string)
  : option string :=
  toFixed 0 (getClientRevenue campaignStats clientId).

End ClientsPage.

(** The specification's reading of the client aggregate: the counts of
    the rows owned by the client, a missing count contributing nothing,
    added up in the order of the rows. *)
Definition count_of (v : optnum) : number := or_zero v.


Definition sum_of_counts (rows : list campaign_stat) : number :=
  fold_left (fun acc s => add acc (count_of (total_impressions s))) rows zero.





(** ** Character and string helpers *)

Definition dquote : ascii := "034"%char.
Definition comma : ascii := ","%char.
Definition LF : ascii := "010"%char.
Definition CR : ascii := "013"%char.

(** [s.toLowerCase()] on the ASCII letters.  The pages only compare the
    result with an all-ASCII word or print it for an all-ASCII status,
    and no other character lower-cases to a single ASCII letter of
    those words. *)
Definition lower_ascii (c : ascii) : ascii :=
  let n := nat_of_ascii c in
  if ((65 <=? n)%nat && (n <=? 90)%nat)%bool then ascii_of_nat (n + 32) else c.

Fixpoint toLowerCase (s : string) : string :=
  match s with
  | EmptyString => EmptyString
  | String c s' => String (lower_ascii c) (toLowerCase s')
  end.

(** [s.startsWith(p)] *)
Definition startsWith (p s : string) : bool := String.prefix p s.

(** [s.includes(c)] for a one-character needle. *)
Fixpoint includes_char (c : ascii) (s : string) : bool :=
  match s with
  | EmptyString => false
  | String d s' => if Ascii.eqb d c then true else includes_char c s'
  end.

(** [l.join(sep)] on strings. *)
Fixpoint join (sep : string) (l : list string) : string :=
  match l with
  | [] => EmptyString
  | x :: l' =>
      match l' with
      | [] => x
      | _ :: _ => x ++ sep ++ join sep l'
      end
  end.

(** [s.split(c)] for a one-character separator. *)
Fixpoint split (c : ascii) (s : string) : list string :=
  match s with
  | EmptyString => [EmptyString]
  | String d s' =>
      if Ascii.eqb d c then EmptyString :: split c s'
      else match split c s' with
           | h :: t => String d h :: t
           | [] => [String d EmptyString]
           end
  end.

(** ** CampaignsPage.js *)

Module CampaignsPage.

(** A browser [File]: name, MIME type and size in bytes. *)
Record file : Type := mkFile {
  file_name : string;
  file_type : string;
  file_size : Z
}.

Record campaign : Type := mkCampaign {
  id : string;
  name : string;
  status : option string
}.

(** [adFormData]: [{ file, duration }]. *)
Record ad_form : Type := mkAdForm {
  ad_file : option file;
  duration : Z
}.

(** The cells of component state of the ad upload dialog, the ones the
    handlers below write themselves.  The lists of the page (campaigns,
    clients, devices, per-campaign stats) are written by [loadData]
    only; a handler that calls it leaves the effect [reload_data]. *)
Record page_state : Type := mkPage {
  adFormData : ad_form;
  selectedCampaign : option campaign;
  isUploading : bool;
  uploadProgress : Z
}.

Definition initial_page : page_state :=
  mkPage (mkAdForm None 30) None false 0.

(** What a handler does to the outside world, in order. *)
Inductive effect : Type :=
  | toast_error (msg : string)
  | toast_success (msg : string)
  | api_updateStatus (campaignId : string) (new_status : string)
  | api_uploadAd (campaignId : string) (f : file) (duration : Z)
  | reload_campaignAds (campaignId : string)
  | reload_data
  | setInterval_progress     (* the progress timer is started, period 500 ms *)
  | clearInterval_progress.  (* the progress timer is stopped *)

Definition is_network (e : effect) : bool :=
  match e with
  | toast_error _ | toast_success _ => false
  | setInterval_progress | clearInterval_progress => false
  | _ => true
  end.

(** Handlers run in a state-and-log monad over [page_state]. *)
Definition handler (A : Type) : Type :=
  page_state -> A * page_state * list effect.

Definition ret {A} (a : A) : handler A := fun st => (a, st, []).

Definition bind {A B} (m : handler A) (k : A -> handler B) : handler B :=
  fun st =>
    let '(a, st1, log1) := m st in
    let '(b, st2, log2) := k a st1 in
    (b, st2, log1 ++ log2).

Definition emit (e : effect) : handler unit := fun st => (tt, st, [e]).
Definition get : handler page_state := fun st => (st, st, []).
Definition modify (f : page_state -> page_state) : handler unit :=
  fun st => (tt, f st, []).

Local Notation "x <- m ;; k" := (bind m (fun x => k))
  (at level 100, m at next level, right associativity).
Local Notation "m ;;; k" := (bind m (fun _ => k))
  (at level 100, right associativity).

Definition setAdFormData (a : ad_form) : handler unit :=
  modify (fun st => mkPage a (selectedCampaign st) (isUploading st) (uploadProgress st)).
Definition setIsUploading (b : bool) : handler unit :=
  modify (fun st => mkPage (adFormData st) (selectedCampaign st) b (uploadProgress st)).
Definition setUploadProgress (p : Z) : handler unit :=
  modify (fun st => mkPage (adFormData st) (selectedCampaign st) (isUploading st) p).

Definition state_of {A} (r : A * page_state * list effect) : page_state := snd (fst r).
Definition log_of {A} (r : A * page_state * list effect) : list effect := snd r.

Definition MAX_FILE_SIZE : Z := 100 * 1024 * 1024.

(** [handleFileSelect]; the argument is [e.target.files?.[0]]. *)
Definition handleFileSelect (files_0 : option file) : handler unit :=
  match files_0 with
  | Some f =>
      if negb (startsWith "video/" (file_type f)) then
        emit (toast_error "Please select a video file")
      else if (MAX_FILE_SIZE <? file_size f)%Z then
        emit (toast_error "File size must be less than 100MB")
      else
        st <- get ;;
        setAdFormData (mkAdForm (Some f) (duration (adFormData st)))
  | None => ret tt
  end.

(** The updater the progress timer applies at every tick:
    [setUploadProgress(prev => Math.min(prev + 10, 90))]. *)
Definition progress_tick (prev : Z) : Z := Z.min (prev + 10) 90.

Definition tick : handler unit :=
  modify (fun st => mkPage (adFormData st) (selectedCampaign st) (isUploading st)
                           (progress_tick (uploadProgress st))).

(** [n] ticks of the timer, one after the other. *)
Fixpoint ticks (n : nat) : handler unit :=
  match n with
  | O => ret tt
  | S n' => tick ;;; ticks n'
  end.

(** [handleUploadAd]; [upload_ok] says whether the awaited request
    resolved ([true]) or threw ([false]), and [elapsed] how many times
    the progress timer fired while it was awaited.  The timer is stopped
    in the [try] block after the [await], so only when the request
    resolved. *)
Definition handleUploadAd (upload_ok : bool) (elapsed : nat) : handler unit :=
  st <- get ;;
  match ad_file (adFormData st), selectedCampaign st with
  | Some f, Some c =>
      setIsUploading true ;;;
      setUploadProgress 10 ;;;
      emit setInterval_progress ;;;
      emit (api_uploadAd (id c) f (duration (adFormData st))) ;;;
      ticks elapsed ;;;
      (if upload_ok then
         emit clearInterval_progress ;;;
         setUploadProgress 100 ;;;
         emit (toast_success "Video uploaded successfully!") ;;;
         setAdFormData (mkAdForm None 30) ;;;
         emit (reload_campaignAds (id c)) ;;;
         emit reload_data
       else
         emit (toast_error "Failed to upload video")) ;;;
      setIsUploading false ;;;
      setUploadProgress 0
  | _, _ => emit (toast_error "Please select a video file")
  end.

(** The Upload button of the dialog is rendered only under
    [adFormData.file &&], and is [disabled] while [isUploading]. *)
Definition upload_button_shown (st : page_state) : bool :=
  match ad_file (adFormData st) with
  | Some _ => true
  | None => false
  end.

Definition upload_button_enabled (st : page_state) : bool := negb (isUploading st).

(** The progress timers a handler leaves running: started and not
    stopped. *)
Definition timers_left (log : list effect) : Z :=
  fold_left (fun n e => match e with
                        | setInterval_progress => n + 1
                        | clearInterval_progress => n - 1
                        | _ => n
                        end) log 0.

(** [handleStatusChange]; [update_ok] is the outcome of the awaited
    [campaignAPI.updateStatus]. *)
Definition handleStatusChange (campaignId newStatus : string) (update_ok : bool)
  : handler unit :=
  emit (api_updateStatus campaignId newStatus) ;;;
  if update_ok then
    emit (toast_success ("Campaign " ++ toLowerCase newStatus ++ "!")) ;;;
    emit reload_data
  else
    emit (toast_error "Failed to update status").

(** The status the action button of a campaign card asks for:
    [campaign.status?.toLowerCase() === 'active'] selects Pause,
    anything else Activate. *)
Definition action_button (c : campaign) : string :=
  match status c with
  | Some s => if String.eqb (toLowerCase s) "active" then "PAUSED" else "ACTIVE"
  | None => "ACTIVE"
  end.

(** Clicking the action button of a card. *)
Definition onClick_action (c : campaign) (update_ok : bool) : handler unit :=
  handleStatusChange (id c) (action_button c) update_ok.

(** The status updates a click asks the backend for. *)
Definition requested (c : campaign) (update_ok : bool) (st : page_state)
  : list string :=
  omap (fun e => match e with
                 | api_updateStatus _ s => Some s
                 | _ => None
                 end)
       (log_of (onClick_action c update_ok st)).

End CampaignsPage.

(** The campaign lifecycle of the specification: activate leaves
    SCHEDULED or PAUSED for ACTIVE, pause leaves ACTIVE for PAUSED. *)
Inductive lifecycle : option string -> string -> Prop :=
  | activate_scheduled : lifecycle (Some "SCHEDULED") "ACTIVE"
  | activate_paused : lifecycle (Some "PAUSED") "ACTIVE"
  | pause_active : lifecycle (Some "ACTIVE") "PAUSED".

(** ** JSON values *)

#[local] Unset Elimination Schemes.
Inductive json : Type :=
  | JNull
  | JBool (b : bool)
  | JNumber (q : Qc)
  | JString (s : string)
  | JArray (l : list json)
  | JObject (members : list (string * json)).
#[local] Set Elimination Schemes.

(** [ToBoolean] on a JSON value. *)
Definition json_truthy (j : json) : bool :=
  match j with
  | JNull => false
  | JBool b => b
  | JNumber q => if Qc_eq_dec q 0%Qc then false else true
  | JString s => negb (String.eqb s EmptyString)
  | JArray _ | JObject _ => true
  end.

(** The own property [k] of an object literal; a repeated key keeps its
    last value, as [JSON.parse] does. *)
Fixpoint member (k : string) (members : list (string * json)) : option json :=
  match members with
  | [] => None
  | (k', v) :: rest =>
      match member k rest with
      | Some w => Some w
      | None => if String.eqb k' k then Some v else None
      end
  end.

(** ** context/AuthContext.js *)

Module AuthContext.

Record user : Type := mkUser { user_id : string; email : string }.

Record session : Type := mkSession {
  access_token : option string;
  session_user : option user
}.

(** The four [useState] cells of [AuthProvider]; [userRole] holds
    [null] ([JNull]) or whatever value was derived from the token. *)
Record auth_state : Type := mkAuth {
  current_session : option session;
  current_user : option user;
  loading : bool;
  userRole : json
}.

Definition initial_auth : auth_state := mkAuth None None true JNull.

Definition customer : json := JString "customer".

(** [session?.access_token] when it is truthy. *)
Definition truthy_token (s : option session) : option string :=
  match s with
  | Some s' =>
      match access_token s' with
      | Some tok => if String.eqb tok EmptyString then None else Some tok
      | None => None
      end
  | None => None
  end.

(** [payload.user_role]: [None] when the access throws (payload is
    [null]), [Some None] when it yields [undefined]. *)
Definition user_role_of (payload : json) : option (option json) :=
  match payload with
  | JNull => None
  | JObject members => Some (member "user_role" members)
  | _ => Some None
  end.

(** [v || 'customer'] *)
Definition or_customer (v : option json) : json :=
  match v with
  | Some j => if json_truthy j then j else customer
  | None => customer
  end.

Section Platform.

(** The two browser built-ins the provider calls; [None] stands for
    a thrown exception. *)
Variable atob : string -> option string.
Variable JSON_parse : string -> option json.

(** [JSON.parse(atob(token.split('.')[1]))]; a missing segment is
    [undefined], which [atob] receives as the string "undefined". *)
Definition decode_payload (token : string) : option json :=
  match atob (default "undefined" (split "."%char token !! 1%nat)) with
  | Some text => JSON_parse text
  | None => None
  end.

(** The [try { ... } catch (e) { ... }] block: the argument of the
    [setUserRole] call that ends up being executed. *)
Definition derive_role (token : string) : json :=
  match decode_payload token with
  | Some payload =>
      match user_role_of payload with
      | Some v => or_customer v
      | None => customer
      end
  | None => customer
  end.

(** The callback of [supabase.auth.getSession().then]. *)
Definition on_getSession (s : option session) (st : auth_state) : auth_state :=
  let role :=
    match truthy_token s with
    | Some token => derive_role token
    | None => userRole st
    end in
  mkAuth s (s ≫= session_user) false role.

(** The callback of [supabase.auth.onAuthStateChange]. *)
Definition on_authStateChange (s : option session) (st : auth_state) : auth_state :=
  let role :=
    match truthy_token s with
    | Some token => derive_role token
    | None => JNull
    end in
  mkAuth s (s ≫= session_user) (loading st) role.

(** What the identity provider delivers to the component: the
    resolution of the [getSession] promise, or an auth state change. *)
Inductive event : Type :=
  | session_resolved (s : option session)
  | auth_state_changed (s : option session).

Definition step (st : auth_state) (ev : event) : auth_state :=
  match ev with
  | session_resolved s => on_getSession s st
  | auth_state_changed s => on_authStateChange s st
  end.

(** The state after the events of a list, oldest first. *)
Definition run (events : list event) (st : auth_state) : auth_state :=
  fold_left step events st.

End Platform.

End AuthContext.

(** ** components/ProtectedRoute.js and App.js *)

Module App.

Import AuthContext.

Inductive component : Type :=
  | LoginPage | DashboardPage | DevicesPage | DriversPage
  | CampaignsPage | ClientsPage | AnalyticsPage.

Inductive element : Type :=
  | loading_screen
  | Navigate (to : string)
  | page (c : component)
  | unauthorized_page.

(** [requiredRoles.includes(userRole)]: the roles are strings, so only
    a string role can be found. *)
Definition includes (requiredRoles : list string) (role : json) : bool :=
  match role with
  | JString r => existsb (String.eqb r) requiredRoles
  | _ => false
  end.

Definition ProtectedRoute (children : element) (requiredRoles : list string)
    (auth : auth_state) : element :=
  if loading auth then loading_screen
  else if negb (bool_decide (is_Some (current_user auth))) then Navigate "/login"
  else if ((0 <? length requiredRoles)%nat && negb (includes requiredRoles (userRole auth)))%bool
       then Navigate "/unauthorized"
  else children.

(** The [<Routes>] table, in source order. *)
Definition routes : list (string * (auth_state -> element)) :=
  [ ("/login", fun _ => page LoginPage);
    ("/", fun _ => Navigate "/dashboard");
    ("/dashboard", ProtectedRoute (page DashboardPage) []);
    ("/devices", ProtectedRoute (page DevicesPage) ["admin"]);
    ("/drivers", ProtectedRoute (page DriversPage) ["admin"]);
    ("/campaigns", ProtectedRoute (page CampaignsPage) []);
    ("/clients", ProtectedRoute (page ClientsPage) ["admin"]);
    ("/analytics", ProtectedRoute (page AnalyticsPage) []);
    ("/unauthorized", fun _ => unauthorized_page) ].

(** The element a path renders, if the table has the path; the router's
    tolerance for letter case and a trailing slash only changes which
    paths select an entry, not what the entry renders. *)
Fixpoint lookup_route (path : string)
    (table : list (string * (auth_state -> element)))
  : option (auth_state -> element) :=
  match table with
  | [] => None
  | (p, e) :: rest => if String.eqb p path then Some e else lookup_route path rest
  end.

Definition render (path : string) (auth : auth_state) : option element :=
  match lookup_route path routes with
  | Some e => Some (e auth)
  | None => None
  end.

End App.

(** ** lib/api.js *)

Module Api.

(** The values a cell of an exported record can hold.  Numbers that
    reach the export are ids and counts, hence integers. *)
Inductive value : Type :=
  | VUndefined
  | VNull
  | VBool (b : bool)
  | VInt (z : Z)
  | VString (s : string).

Record field_selector : Type := mkField { key : string; label : string }.

(** [item[k]]: a missing property reads as [undefined]. *)
Definition prop (item : gmap string value) (k : string) : value :=
  default VUndefined (item !! k).

(** [value.replace] with the global quote pattern: every quote
    character becomes two. *)
Fixpoint double_quotes (s : string) : string :=
  match s with
  | EmptyString => EmptyString
  | String c s' =>
      if Ascii.eqb c dquote
      then String dquote (String dquote (double_quotes s'))
      else String c (double_quotes s')
  end.

(** The body of the inner [fields.map] callback. *)
Definition cell (v : value) : value :=
  match v with
  | VString s =>
      if (includes_char comma s || includes_char dquote s)%bool
      then VString (String dquote (double_quotes s ++ String dquote EmptyString))
      else VString s
  | VUndefined | VNull => VString EmptyString
  | _ => v
  end.

(** How [Array.prototype.join] turns an element into text. *)
Definition element_text (v : value) : string :=
  match v with
  | VUndefined | VNull => EmptyString
  | VBool true => "true"
  | VBool false => "false"
  | VInt z => pretty z
  | VString s => s
  end.

Definition newline : string := String LF EmptyString.

(** [convertToCSV(data, fields)]; [None] is a [null] or [undefined]
    [data]. *)
Definition convertToCSV (data : option (list (gmap string value)))
    (fields : list field_selector) : string :=
  match data with
  | None | Some [] => EmptyString
  | Some items =>
      let headers := join "," (map label fields) in
      let rows :=
        map (fun item =>
               join "," (map (fun f => element_text (cell (prop item (key f)))) fields))
            items in
      join newline (headers :: rows)
  end.

(** An HTTP request as [axios] is asked to send it. *)
Record request : Type := mkRequest { method : string; url : string }.

(** [adminAPI.markOfflineDevices] *)
Definition markOfflineDevices : request := mkRequest "POST" "/admin/mark-offline".

End Api.

(** ** Reference CSV reader

    The reader the round-trip property is stated against: the RFC 4180
    grammar, read character by character.  Fields are separated by
    commas and records by LF or CRLF; a field that opens with a quote
    runs to its closing quote, a doubled quote inside standing for one
    quote character; a quote inside an unquoted field, text after a
    closing quote, a bare CR and an unterminated quoted field are
    errors.  The last record may or may not end in a line break (rule 2
    of the RFC): at the end of the text a record is closed only if
    something of it has been read, so that the empty text holds no
    record and a final line break does not open an empty one.  An empty
    line before the end is a record of one empty field. *)

Module Rfc4180.

Inductive pstate : Type :=
  | FieldStart   (* nothing of the field read yet *)
  | Unquoted     (* inside an unquoted field *)
  | Quoted       (* inside a quoted field *)
  | QuoteSeen    (* a quote read inside a quoted field *)
  | CRSeen.      (* CR read after a complete field *)

Definition snoc (s : string) (c : ascii) : string := s ++ String c EmptyString.

Fixpoint parse_go (st : pstate) (fld : string) (row : list string)
    (rows : list (list string)) (input : string) : option (list (list string)) :=
  match input with
  | EmptyString =>
      match st with
      | FieldStart =>
          match row with
          | [] => Some rows
          | _ :: _ => Some (rows ++ [row ++ [fld]])
          end
      | Unquoted | QuoteSeen => Some (rows ++ [row ++ [fld]])
      | Quoted | CRSeen => None
      end
  | String c rest =>
      match st with
      | FieldStart =>
          if Ascii.eqb c dquote then parse_go Quoted fld row rows rest
          else if Ascii.eqb c comma
            then parse_go FieldStart EmptyString (row ++ [fld]) rows rest
          else if Ascii.eqb c LF
            then parse_go FieldStart EmptyString [] (rows ++ [row ++ [fld]]) rest
          else if Ascii.eqb c CR then parse_go CRSeen fld row rows rest
          else parse_go Unquoted (snoc fld c) row rows rest
      | Unquoted =>
          if Ascii.eqb c dquote then None
          else if Ascii.eqb c comma
            then parse_go FieldStart EmptyString (row ++ [fld]) rows rest
          else if Ascii.eqb c LF
            then parse_go FieldStart EmptyString [] (rows ++ [row ++ [fld]]) rest
          else if Ascii.eqb c CR then parse_go CRSeen fld row rows rest
          else parse_go Unquoted (snoc fld c) row rows rest
      | Quoted =>
          if Ascii.eqb c dquote then parse_go QuoteSeen fld row rows rest
          else parse_go Quoted (snoc fld c) row rows rest
      | QuoteSeen =>
          if Ascii.eqb c dquote then parse_go Quoted (snoc fld c) row rows rest
          else if Ascii.eqb c comma
            then parse_go FieldStart EmptyString (row ++ [fld]) rows rest
          else if Ascii.eqb c LF
            then parse_go FieldStart EmptyString [] (rows ++ [row ++ [fld]]) rest
          else if Ascii.eqb c CR then parse_go CRSeen fld row rows rest
          else None
      | CRSeen =>
          if Ascii.eqb c LF
          then parse_go FieldStart EmptyString [] (rows ++ [row ++ [fld]]) rest
          else None
      end
  end.

Definition parse (text : string) : option (list (list string)) :=
  parse_go FieldStart EmptyString [] [] text.

End Rfc4180.

(** The original field values of an export, the way the round trip is
    to give them back: each selected value as text. *)
Definition selected_text (fields : list Api.field_selector)
    (item : gmap string Api.value) : list string :=
  map (fun f => Api.element_text (Api.prop item (Api.key f))) fields.

(** The quoting rule in the specification's words: a string holding a
    comma or a quote is wrapped in quotes with its quotes doubled,
    [null] and [undefined] give the empty text, anything else is
    written as it is. *)
Definition doubled (s : string) : string :=
  String.concat EmptyString
    (map (fun c => if Ascii.eqb c dquote
                   then String dquote (String dquote EmptyString)
                   else String c EmptyString)
         (list_ascii_of_string s)).

Definition needs_quoting (s : string) : bool :=
  existsb (fun c => (Ascii.eqb c comma || Ascii.eqb c dquote)%bool)
          (list_ascii_of_string s).

Definition quoted_text (v : Api.value) : string :=
  match v with
  | Api.VString s =>
      if needs_quoting s
      then String dquote EmptyString ++ doubled s ++ String dquote EmptyString
      else s
  | Api.VUndefined | Api.VNull => EmptyString
  | Api.VBool true => "true"
  | Api.VBool false => "false"
  | Api.VInt z => pretty z
  end.

(** A text the export gives back unchanged: one with no line break, or
    one that is quoted because it holds a comma or a quote. *)
Definition has_line_break (s : string) : bool :=
  (includes_char LF s || includes_char CR s)%bool.

Definition survives (s : string) : bool :=
  (negb (has_line_break s) || includes_char comma s || includes_char dquote s)%bool.

(** A header label that leaves the header a single, well-formed line. *)
Definition plain_label (s : string) : bool :=
  negb (has_line_break s || includes_char dquote s)%bool.

(** ** Device status sweep *)

Module DeviceSweep.

Inductive device_status : Type := online | offline.

(** Times are whole seconds; [last_seen = None] is a [null]
    timestamp. *)
Record device : Type := mkDevice {
  device_code : string;
  last_seen : option Z
}.

(** Modelled from the spec: the classification run by the sweep behind
    [POST /admin/mark-offline] is backend code; the front end only
    sends the request ([Api.markOfflineDevices]) and reads the stored
    [status].  Section 4.1: for a staleness threshold [T], a device is
    online if [now - last_seen <= T] and offline otherwise, and a
    [null] [last_seen] is offline. *)
Definition status (T now : Z) (d : device) : device_status :=
  match last_seen d with
  | None => offline
  | Some seen => if (now - seen <=? T)%Z then online else offline
  end.

End DeviceSweep.

(** ** The pages' revenue as a function of the impression count *)

Definition dashboard_revenue (s : DashboardPage.stats) (n : number) : number :=
  DashboardPage.totalRevenue
    (DashboardPage.mkStats
       (DashboardPage.total_devices s) (DashboardPage.online_devices s)
       (DashboardPage.offline_devices s) (DashboardPage.total_campaigns s)
       (Number n) (DashboardPage.today_impressions s)).

Definition analytics_revenue (o : AnalyticsPage.overview) (n : number) : number :=
  AnalyticsPage.totalRevenue
    (AnalyticsPage.mkOverview (Number n) (AnalyticsPage.today_impressions o)).

Definition clients_revenue (m : ClientsPage.stats_map)
    (clientId : string) (n : number) : number :=
  ClientsPage.getClientRevenue
    (ClientsPage.mkStatsMap
       (<[clientId := ClientsPage.mkClientStat n one]> (ClientsPage.own m))
       (ClientsPage.on_members m))
    clientId.

(** ** The export as the specification describes it *)

(** A header line of the labels followed by one line per record. *)
Definition csv_lines (fields : list Api.field_selector)
    (items : list (gmap string Api.value)) : list string :=
  join "," (map Api.label fields)
  :: map (fun item =>
            join "," (map (fun f => quoted_text (Api.prop item (Api.key f))) fields))
         items.

Definition csv_document (fields : list Api.field_selector)
    (items : list (gmap string Api.value)) : string :=
  join Api.newline (csv_lines fields items).

(** Every selected value of every record is a string. *)
Definition strings_only (fields : list Api.field_selector)
    (items : list (gmap string Api.value)) : Prop :=
  Forall (fun item =>
            Forall (fun f => exists s, item !! Api.key f = Some (Api.VString s)) fields)
         items.

(** A value whose text the export gives back: any value that is not a
    string, and a string that [survives]. *)
Definition value_survives (v : Api.value) : bool :=
  match v with
  | Api.VString s => survives s
  | _ => true
  end.

(** A text free of the four characters the reader treats specially. *)
Definition plain_text (s : string) : bool :=
  negb (includes_char comma s || includes_char dquote s
        || includes_char LF s || includes_char CR s)%bool.

(** The reader is between the end of a field's text and the separator
    that follows it. *)
Definition at_boundary (st : Rfc4180.pstate) (fld : string) : Prop :=
  (st = Rfc4180.FieldStart /\ fld = EmptyString) \/
  st = Rfc4180.Unquoted \/ st = Rfc4180.QuoteSeen.

(** The token payload carries the claim [user_role] with value [v]. *)
Definition carries_user_role (payload : json) (v : json) : Prop :=
  exists members, payload = JObject members /\ member "user_role" members = Some v.

(** The role is [null] whenever the session held has no token: true of
    the initial state, kept by every state change, and established by
    the mount-time resolution on the initial state. *)
Definition tokenless_null (st : AuthContext.auth_state) : Prop :=
  AuthContext.truthy_token (AuthContext.current_session st) = None ->
  AuthContext.userRole st = JNull.

(** * Further parts of the front end *)

(** ** components/DashboardLayout.js *)

Module DashboardLayout.

Record nav_item : Type := mkNavItem { path : string; label : string }.

Definition adminNavItems : list nav_item :=
  [ mkNavItem "/dashboard" "Overview";
    mkNavItem "/devices" "Devices";
    mkNavItem "/drivers" "Drivers";
    mkNavItem "/campaigns" "Campaigns";
    mkNavItem "/clients" "Clients";
    mkNavItem "/analytics" "Analytics" ].

Definition customerNavItems : list nav_item :=
  [ mkNavItem "/dashboard" "Overview";
    mkNavItem "/campaigns" "Campaigns";
    mkNavItem "/analytics" "Analytics" ].

(** [userRole === 'admin' ? adminNavItems : customerNavItems] *)
Definition navItems (userRole : json) : list nav_item :=
  match userRole with
  | JString r => if String.eqb r "admin" then adminNavItems else customerNavItems
  | _ => customerNavItems
  end.

(** [location.pathname === item.path] *)
Definition isActive (pathname : string) (item : nav_item) : bool :=
  String.eqb pathname (path item).

End DashboardLayout.

(** ** More of context/AuthContext.js: the provider over time *)

(** The role the session held by the state calls for: the role derived
    from its token, [null] without a token. *)
Definition held_role (atob : string -> option string)
    (JSON_parse : string -> option json) (st : AuthContext.auth_state) : json :=
  match AuthContext.truthy_token (AuthContext.current_session st) with
  | Some token => AuthContext.derive_role atob JSON_parse token
  | None => JNull
  end.

Definition is_state_change (ev : AuthContext.event) : bool :=
  match ev with
  | AuthContext.auth_state_changed _ => true
  | AuthContext.session_resolved _ => false
  end.

(** ** pages/DevicesPage.js *)

Module DevicesPage.

(** A device row of [/devices]; [None] is a [null] or missing field. *)
Record device : Type := mkDevice {
  id : string;
  device_code : string;
  status : option string;
  city : option string;
  driver_id : option string
}.

(** [device.status === 'online'] *)
Definition is_online (d : device) : bool :=
  match status d with
  | Some s => String.eqb s "online"
  | None => false
  end.

(** [device.city !== cityFilter] *)
Definition city_differs (d : device) (cityFilter : string) : bool :=
  match city d with
  | Some c => negb (String.eqb c cityFilter)
  | None => true
  end.

(** The callback of [devices.filter] that builds [filteredDevices]. *)
Definition shown (filter cityFilter : string) (d : device) : bool :=
  if (String.eqb filter "online" && negb (is_online d))%bool then false
  else if (String.eqb filter "offline" && is_online d)%bool then false
  else if (negb (String.eqb cityFilter EmptyString) && city_differs d cityFilter)%bool
       then false
  else true.

Definition filteredDevices (filter cityFilter : string) (devices : list device)
  : list device :=
  List.filter (shown filter cityFilter) devices.

Definition onlineCount (devices : list device) : Z :=
  Z.of_nat (length (List.filter is_online devices)).

Definition offlineCount (devices : list device) : Z :=
  Z.of_nat (length devices) - onlineCount devices.

(** [[...new Set(values)]]: the values in order of first occurrence. *)
Definition spread_Set (values : list string) : list string :=
  fold_left (fun seen v => if existsb (String.eqb v) seen then seen else seen ++ [v])
            values [].

(** [devices.map(d => d.city).filter(Boolean)]: the cities that are
    neither missing nor empty. *)
Definition truthy_cities (devices : list device) : list string :=
  omap (fun d => match city d with
                 | Some c => if String.eqb c EmptyString then None else Some c
                 | None => None
                 end) devices.

Definition cities (devices : list device) : list string :=
  spread_Set (truthy_cities devices).

End DevicesPage.

(** ** More of pages/CampaignsPage.js *)

Module CampaignCards.

(** [statsMap] of [loadData]: [statsMap[s.campaign_id] = s] for every
    row of [statsRes.data || []]. *)
Definition loadData_statsMap (data : option (list campaign_stat))
  : gmap string campaign_stat :=
  fold_left (fun statsMap s => <[campaign_id s := s]> statsMap) (default [] data) ∅.

(** [(stats.total_impressions || 0)] for
    [stats = campaignStats[campaign.id] || {}]. *)
Definition card_impressions (campaignStats : gmap string campaign_stat)
    (c : CampaignsPage.campaign) : number :=
  or_zero (match campaignStats !! CampaignsPage.id c with
           | Some stats => total_impressions stats
           | None => Undefined
           end).

(** [stats.unique_devices || 0] *)
Definition card_devices (campaignStats : gmap string campaign_stat)
    (c : CampaignsPage.campaign) : number :=
  or_zero (match campaignStats !! CampaignsPage.id c with
           | Some stats => unique_devices stats
           | None => Undefined
           end).

(** [getStatusIcon]: the icon component and its class. *)
Definition getStatusIcon (status : option string) : string * string :=
  match status with
  | Some s =>
      let l := toLowerCase s in
      if String.eqb l "active" then ("CheckCircle", "w-4 h-4 text-green-400")
      else if String.eqb l "scheduled" then ("Clock", "w-4 h-4 text-blue-400")
      else if String.eqb l "paused" then ("Pause", "w-4 h-4 text-yellow-400")
      else if String.eqb l "completed" then ("XCircle", "w-4 h-4 text-slate-400")
      else ("Clock", "w-4 h-4 text-slate-400")
  | None => ("Clock", "w-4 h-4 text-slate-400")
  end.

Definition getStatusColor (status : option string) : string :=
  match status with
  | Some s =>
      let l := toLowerCase s in
      if String.eqb l "active" then "bg-green-900/30 text-green-400 border-green-800"
      else if String.eqb l "scheduled" then "bg-blue-900/30 text-blue-400 border-blue-800"
      else if String.eqb l "paused" then "bg-yellow-900/30 text-yellow-400 border-yellow-800"
      else if String.eqb l "completed" then "bg-slate-900/30 text-slate-400 border-slate-700"
      else "bg-slate-900/30 text-slate-400 border-slate-700"
  | None => "bg-slate-900/30 text-slate-400 border-slate-700"
  end.

(** The updater the progress timer of [handleUploadAd] applies every
    half second: [prev => Math.min(prev + 10, 90)]. *)
Definition progress_tick (prev : Z) : Z := CampaignsPage.progress_tick prev.

(** The progress shown after [ticks] timer ticks, the upload still
    pending: [setUploadProgress(10)] and then the ticks. *)
Definition progress_after (ticks : nat) : Z := Nat.iter ticks progress_tick 10.

End CampaignCards.

(** ** [Array.prototype.sort] with a comparator

    The sort is stable, so for a consistent comparator its result is the
    one of any stable sort; insertion from the right is used here.  An
    element moves behind another only when the comparator is positive. *)

(** [a - b] *)
Definition sub (a b : number) : number := SFsub prec emax a b.

(** [n > 0], the test [sort] makes on what the comparator returns. *)
Definition is_positive (n : number) : bool := SFltb zero n.

Fixpoint insert_stable {A : Type} (compareFn : A -> A -> number) (x : A) (l : list A)
  : list A :=
  match l with
  | [] => [x]
  | y :: l' =>
      if is_positive (compareFn x y) then y :: insert_stable compareFn x l'
      else x :: l
  end.

Definition sort {A : Type} (compareFn : A -> A -> number) (l : list A) : list A :=
  foldr (insert_stable compareFn) [] l.

(** [(a, b) => (b.total_impressions || 0) - (a.total_impressions || 0)] *)
Definition by_impressions_desc (a b : campaign_stat) : number :=
  sub (or_zero (total_impressions b)) (or_zero (total_impressions a)).

(** DashboardPage.js: [campaignStats.sort(...).slice(0, 5)]. *)
Definition topCampaigns (campaignStats : list campaign_stat) : list campaign_stat :=
  take 5 (sort by_impressions_desc campaignStats).

(** ** More of AnalyticsPage.js *)

Module AnalyticsCharts.

(** The campaigns charted: [campaignStats.sort(...).slice(0, 8)], before
    the [map] to chart entries. *)
Definition charted (campaignStats : list campaign_stat) : list campaign_stat :=
  take 8 (sort by_impressions_desc campaignStats).

(** [sort] works in place on the state array, so the revenue table
    rendered afterwards walks the sorted rows; its revenue cell is
    [(campaign.total_impressions || 0) * RATE_PER_IMPRESSION]. *)
Definition table_rows (campaignStats : list campaign_stat)
  : list (campaign_stat * number) :=
  map (fun c => (c, AnalyticsPage.campaignRevenue (total_impressions c)))
      (sort by_impressions_desc campaignStats).

(** The footer total:
    [campaignStats.reduce((sum, c) => sum + (c.total_impressions || 0), 0)]. *)
Definition footer_impressions (campaignStats : list campaign_stat) : number :=
  fold_left (fun sum c => add sum (or_zero (total_impressions c)))
            (sort by_impressions_desc campaignStats) zero.

(** A raw impression row; only [played_at] is read for the trend. *)
Record impression : Type := mkImpression {
  impression_id : string;
  played_at : option string
}.

(** [imp.played_at?.split('T')[0] || 'Unknown'] *)
Definition date_of (imp : impression) : string :=
  match played_at imp with
  | Some s =>
      match split "T"%char s with
      | d :: _ => if String.eqb d EmptyString then "Unknown" else d
      | [] => "Unknown"
      end
  | None => "Unknown"
  end.

(** What [acc[date]] holds: a count, or a text once the key names a
    member of [Object.prototype]. *)
Inductive tally : Type :=
  | count (n : nat)
  | text (s : string).

Section Members.

(** [String(member)] for the member of [Object.prototype] a key names:
    the source text the platform prints for a built-in function. *)
Variable member_text : string -> string.

(** One step of the [reduce]: [acc[date] = (acc[date] || 0) + 1].  An
    own entry is a positive count or a non-empty text, both truthy, and
    [+ 1] adds to the count or appends to the text.  Without an own
    entry an inherited key reads the member, which is truthy, and [+ 1]
    turns it into text; the assignment makes it an own entry, except for
    [__proto__], where assigning a string is ignored.  Any other key
    starts at [0 + 1]. *)
Definition count_impression (acc : gmap string tally) (imp : impression)
  : gmap string tally :=
  let date := date_of imp in
  match acc !! date with
  | Some (count n) => <[date := count (n + 1)]> acc
  | Some (text s) => <[date := text (s ++ "1")]> acc
  | None =>
      if inherited date then
        if String.eqb date "__proto__" then acc
        else <[date := text (member_text date ++ "1")]> acc
      else <[date := count 1]> acc
  end.

(** [impressionsByDate]: the [reduce] from [{}]. *)
Definition impressionsByDate (impressions : list impression) : gmap string tally :=
  fold_left count_impression impressions ∅.

End Members.

(** The selectors of the impressions export. *)
Definition impression_fields : list Api.field_selector :=
  [ Api.mkField "id" "Impression ID";
    Api.mkField "device_id" "Device ID";
    Api.mkField "ad_id" "Ad ID";
    Api.mkField "played_at" "Played At" ].

Inductive export_effect : Type :=
  | toast_info (msg : string)
  | toast_error (msg : string)
  | toast_success (msg : string)
  | get_impressions (params : gmap string Api.value)
  | downloadCSV (csvContent filename : string).

(** [analyticsAPI.exportCSV]: the request parameters it sends,
    [{ ...params, limit: 10000 }]. *)
Definition exportCSV_params (params : gmap string Api.value) : gmap string Api.value :=
  <["limit" := Api.VInt 10000]> params.

(** The [params] object [handleExportCSV] builds. *)
Definition export_params (start_date end_date selectedCampaign : string)
  : gmap string Api.value :=
  let params :=
    <["limit" := Api.VInt 10000]>
      (<["end_date" := Api.VString end_date]>
         (<["start_date" := Api.VString start_date]> ∅)) in
  if String.eqb selectedCampaign EmptyString then params
  else <["campaign_id" := Api.VString selectedCampaign]> params.

(** [handleExportCSV]; [response] is [None] when the awaited request
    throws, and otherwise the [response.data] it resolves to, itself
    [None] when that is [null] or [undefined]. *)
Definition handleExportCSV (start_date end_date selectedCampaign : string)
    (response : option (option (list (gmap string Api.value))))
  : list export_effect :=
  [ toast_info "Preparing export...";
    get_impressions (exportCSV_params (export_params start_date end_date selectedCampaign)) ]
  ++ match response with
     | None => [toast_error "Failed to export data"]
     | Some None | Some (Some []) => [toast_error "No data to export"]
     | Some (Some data) =>
         [ downloadCSV (Api.convertToCSV (Some data) impression_fields)
             ("impressions_" ++ start_date ++ "_to_" ++ end_date ++ ".csv");
           toast_success ("Exported " ++ pretty (Z.of_nat (length data)) ++ " records") ]
     end.

End AnalyticsCharts.

(** ** More of ClientsPage.js *)

(** The Total Revenue card:
    [Object.values(campaignStats).reduce((sum, s) => sum + (s.impressions || 0), 0)
     * RATE_PER_IMPRESSION].  [values] is what [Object.values] returns:
    the own entries, each once, in the order of the object's keys. *)
Definition Object_values_of (campaignStats : ClientsPage.stats_map)
    (values : list ClientsPage.client_stat) : Prop :=
  Permutation values (map snd (map_to_list (ClientsPage.own campaignStats))).

Definition clients_total_impressions (values : list ClientsPage.client_stat) : number :=
  fold_left (fun sum s => add sum (or_zero (Number (ClientsPage.impressions s))))
            values zero.

Definition clients_totalRevenue (values : list ClientsPage.client_stat) : number :=
  mul (clients_total_impressions values) ClientsPage.RATE_PER_IMPRESSION.

(** The integer a double holds, for the doubles that hold a
    non-negative integer; 0 for the others. *)
Definition to_Z (x : number) : Z :=
  match x with
  | S754_finite false m e =>
      if (0 <=? e)%Z then (Z.pos m * 2 ^ e)%Z else (Z.pos m / 2 ^ (- e))%Z
  | _ => 0%Z
  end.

Definition entry_total (e : ClientsPage.client_stat) : Z :=
  to_Z (ClientsPage.impressions e).

(** The impression totals of all entries of a map, as integers, added
    up. *)
Definition sum_Z (ns : list Z) : Z := foldr Z.add 0 ns.

Definition sum_held (m : gmap string ClientsPage.client_stat) : Z :=
  sum_Z (map (fun p => entry_total (snd p)) (map_to_list m)).

(** Every entry of the map holds a non-negative integer total. *)
Definition integral_totals (m : gmap string ClientsPage.client_stat) : Prop :=
  forall c e, m !! c = Some e ->
    (0 <= entry_total e)%Z /\ ClientsPage.impressions e = of_Z (entry_total e).

(** Rows whose impression counts are the non-negative integers [ns], a
    missing count being 0. *)
Definition integer_counts (rows : list campaign_stat) (ns : list Z) : Prop :=
  Forall2 (fun s n => 0 <= n /\ count_of (total_impressions s) = of_Z n) rows ns.

(** The counts of all dates of the trend, added up. *)
Definition counted (t : AnalyticsCharts.tally) : nat :=
  match t with
  | AnalyticsCharts.count n => n
  | AnalyticsCharts.text _ => 0
  end.

Definition sum_counts (m : gmap string AnalyticsCharts.tally) : nat :=
  foldr (fun p acc => (counted (snd p) + acc)%nat) 0%nat (map_to_list m).

(** The entries of the trend are counts exactly under the keys that name
    no member of [Object.prototype]. *)
Definition tallies_by_key (m : gmap string AnalyticsCharts.tally) : Prop :=
  forall k t, m !! k = Some t ->
    match t with
    | AnalyticsCharts.count _ => inherited k = false
    | AnalyticsCharts.text _ => inherited k = true
    end.

(** The impressions of a list that fall on a date. *)
Definition on_date (d : string) (impressions : list AnalyticsCharts.impression)
  : list AnalyticsCharts.impression :=
  filter (fun imp => AnalyticsCharts.date_of imp = d) impressions.

(** The counts of the rows are well-formed binary64 values, as every
    JavaScript number is; [NaN], the infinities and both zeros are
    among them. *)
Definition counts_are_doubles (rows : list campaign_stat) : Prop :=
  Forall (fun s => match total_impressions s with
                   | Number n => is_double n
                   | _ => True
                   end) rows.

(** Order of campaigns by impression count, largest first. *)
Definition at_least (a b : campaign_stat) : Prop :=
  number_le (count_of (total_impressions b)) (count_of (total_impressions a)).

(** * Properties *)

(** ** Rounding to binary64 *)

Section Rounding.

Local Open Scope Z_scope.

Lemma fexp_eq x : fexp prec emax x = Z.max (x - 53) (-1074).
Proof. reflexivity. Qed.

Lemma digits2_pos_bounds (p : positive) :
  2 ^ (Z.pos (digits2_pos p) - 1) <= Z.pos p < 2 ^ Z.pos (digits2_pos p).
Proof.
  induction p as [p IH|p IH|]; cbn [digits2_pos].
  - rewrite Pos2Z.inj_succ, (Pos2Z.inj_xI p).
    replace (Z.succ (Z.pos (digits2_pos p)) - 1) with (Z.succ (Z.pos (digits2_pos p) - 1)) by lia.
    rewrite !Z.pow_succ_r by lia.
    destruct IH as [IH1 IH2]. revert IH1 IH2.
    generalize (2 ^ (Z.pos (digits2_pos p) - 1)) (2 ^ Z.pos (digits2_pos p)). lia.
  - rewrite Pos2Z.inj_succ, (Pos2Z.inj_xO p).
    replace (Z.succ (Z.pos (digits2_pos p)) - 1) with (Z.succ (Z.pos (digits2_pos p) - 1)) by lia.
    rewrite !Z.pow_succ_r by lia.
    destruct IH as [IH1 IH2]. revert IH1 IH2.
    generalize (2 ^ (Z.pos (digits2_pos p) - 1)) (2 ^ Z.pos (digits2_pos p)). lia.
  - simpl. lia.
Qed.

Lemma shr_1_located P k mrs :
  0 <= k -> located P k mrs -> located P (k + 1) (shr_1 mrs).
Proof.
  intros Hk (Hm & Hlo & Hhi & Hs). unfold located.
  rewrite Z.pow_add_r, Z.pow_1_r by lia.
  assert (HX : 0 < 2 ^ k) by (apply Z.pow_pos_nonneg; lia).
  revert Hlo Hhi Hs HX. generalize (2 ^ k). intros X Hlo Hhi Hs HX.
  destruct mrs as [m r s]. cbn [shr_m shr_r shr_s] in *.
  destruct m as [|p|p]; [| |lia].
  - cbn [shr_1 shr_m shr_r shr_s b2z].
    destruct r, s; cbn [orb b2z] in *; repeat split; try lia; try discriminate;
      intros; try nia; try (exfalso; nia); try (destruct Hs as [Hs1 Hs2]; try discriminate (Hs2 ltac:(nia))).
  - destruct p as [p|p|]; cbn [shr_1 shr_m shr_r shr_s b2z];
    rewrite ?(Pos2Z.inj_xI p), ?(Pos2Z.inj_xO p) in *;
    destruct r, s; cbn [orb b2z] in *; repeat split; try lia; try discriminate;
      intros; try nia; try (exfalso; nia); try (destruct Hs as [Hs1 Hs2]; try discriminate (Hs2 ltac:(nia))).
Qed.

Lemma iter_pos_located p : forall P k mrs,
  0 <= k -> located P k mrs -> located P (k + Z.pos p) (SpecFloat.iter_pos shr_1 p mrs).
Proof.
  induction p as [p IH|p IH|]; intros P k mrs Hk H; cbn [SpecFloat.iter_pos].
  - replace (k + Z.pos p~1) with (((k + 1) + Z.pos p) + Z.pos p) by lia.
    apply IH; [lia|]. apply IH; [lia|]. now apply shr_1_located.
  - replace (k + Z.pos p~0) with ((k + Z.pos p) + Z.pos p) by lia.
    apply IH; [lia|]. now apply IH.
  - now apply shr_1_located.
Qed.

Lemma located_0 P :
  0 <= P -> located P 0 {| shr_m := P; shr_r := false; shr_s := false |}.
Proof.
  intros HP. unfold located; cbn [shr_m shr_r shr_s b2z]. rewrite Z.pow_0_r.
  repeat split; intros; try reflexivity; lia.
Qed.

Lemma shr_located P e n :
  0 <= P -> 0 <= n ->
  exists mrs, shr (shr_record_of_loc P loc_Exact) e n = (mrs, e + n) /\ located P n mrs.
Proof.
  intros HP Hn. cbn [shr_record_of_loc]. destruct n as [|p|p]; [| |lia].
  - eexists; split; [cbn [shr]; now rewrite Z.add_0_r|]. now apply located_0.
  - eexists; split; [reflexivity|].
    apply (iter_pos_located p P 0); [lia|]. now apply located_0.
Qed.

Lemma located_scale P k j mrs :
  0 <= k -> 0 <= j -> located P k mrs -> located (P * 2 ^ j) (k + j) mrs.
Proof.
  intros Hk Hj (Hm & Hlo & Hhi & Hs). unfold located.
  rewrite Z.pow_add_r by lia.
  assert (HX : 0 < 2 ^ k) by (apply Z.pow_pos_nonneg; lia).
  assert (HY : 0 < 2 ^ j) by (apply Z.pow_pos_nonneg; lia).
  revert Hlo Hhi Hs HX HY. generalize (2 ^ k) (2 ^ j). intros X Y Hlo Hhi Hs HX HY.
  repeat split; try lia; try nia.
  - intros H. apply Hs in H. nia.
  - intros H. apply Hs. nia.
Qed.

Lemma round_nearest_even_bounds mrs :
  shr_m mrs <= round_nearest_even (shr_m mrs) (loc_of_shr_record mrs) <= shr_m mrs + 1.
Proof.
  destruct mrs as [m [|] [|]]; cbn; try lia. destruct (Z.even m); lia.
Qed.

Lemma second_shr sx M E :
  0 <= M <= 2 ^ 53 -> -1074 <= E ->
  (let '(mrs, e) := shr_fexp prec emax M E loc_Exact in
   match shr_m mrs with
   | 0 => S754_zero sx
   | Z.pos m => if e <=? emax - prec then S754_finite sx m e else S754_infinity sx
   | Z.neg _ => S754_nan
   end) = finish sx M E.
Proof.
  intros HM HE. unfold finish, shr_fexp.
  destruct (Z.eqb_spec M 0) as [->|H0].
  - cbn [Zdigits2 shr_record_of_loc]. rewrite fexp_eq.
    destruct (Z.max (0 + E - 53) (-1074) - E) eqn:Hn; try reflexivity. lia.
  - destruct (Z.ltb_spec M (2 ^ 53)) as [Hlt|Hge].
    + destruct M as [|q|q]; try lia. cbn [Zdigits2 shr_record_of_loc]. rewrite fexp_eq.
      pose proof (digits2_pos_bounds q) as [Hd _].
      assert (Z.pos (digits2_pos q) - 1 < 53).
      { apply (Z.pow_lt_mono_r_iff 2); lia. }
      destruct (Z.max (Z.pos (digits2_pos q) + E - 53) (-1074) - E) eqn:Hn; try reflexivity. lia.
    + assert (M = 2 ^ 53) as -> by lia.
      change (Zdigits2 (2 ^ 53)) with 54. rewrite fexp_eq.
      replace (Z.max (54 + E - 53) (-1074) - E) with 1 by lia.
      reflexivity.
Qed.

Lemma binary_round_aux_located sx (P : positive) e :
  e <= fexp prec emax (Z.pos (digits2_pos P) + e) ->
  exists mrs,
    located (Z.pos P) (fexp prec emax (Z.pos (digits2_pos P) + e) - e) mrs /\
    binary_round_aux prec emax sx (Z.pos P) e loc_Exact
    = finish sx (round_nearest_even (shr_m mrs) (loc_of_shr_record mrs))
             (fexp prec emax (Z.pos (digits2_pos P) + e)).
Proof.
  intros HE. unfold binary_round_aux. unfold shr_fexp at 1. cbn [Zdigits2].
  set (E := fexp prec emax (Z.pos (digits2_pos P) + e)) in *.
  destruct (shr_located (Z.pos P) e (E - e)) as (mrs & -> & Hloc); [lia|lia|].
  exists mrs. split; [exact Hloc|].
  replace (e + (E - e)) with E by lia.
  apply second_shr.
  - pose proof (round_nearest_even_bounds mrs) as Hb.
    destruct Hloc as (Hm & Hlo & Hhi & _).
    assert (shr_m mrs < 2 ^ 53); [|lia].
    pose proof (digits2_pos_bounds P) as [_ Hd].
    assert (HE' : Z.pos (digits2_pos P) - 53 <= E - e) by (unfold E; rewrite fexp_eq; lia).
    assert (Hp : 2 ^ Z.pos (digits2_pos P) <= 2 ^ (E - e + 53)) by (apply Z.pow_le_mono_r; lia).
    rewrite Z.pow_add_r in Hp by lia.
    assert (HX : 0 < 2 ^ (E - e)) by (apply Z.pow_pos_nonneg; lia).
    revert Hlo Hp HX Hd. generalize (2 ^ (E - e)) (2 ^ Z.pos (digits2_pos P)).
    intros X D Hlo Hp HX Hd. destruct (shr_r mrs); cbn [b2z] in *; nia.
  - unfold E. rewrite fexp_eq. lia.
Qed.

Lemma located_lt P k mrs :
  0 <= k -> located P k mrs -> P < 2 ^ (k + 53) -> shr_m mrs < 2 ^ 53.
Proof.
  intros Hk (Hm & Hlo & _) HP. rewrite Z.pow_add_r in HP by lia.
  assert (HX : 0 < 2 ^ k) by (apply Z.pow_pos_nonneg; lia).
  revert Hlo HP HX. generalize (2 ^ k). intros X Hlo HP HX.
  destruct (shr_r mrs); cbn [b2z] in *; nia.
Qed.

Lemma located_ge P k mrs :
  0 <= k -> located P k mrs -> 2 ^ (k + 52) <= P -> 2 ^ 52 <= shr_m mrs.
Proof.
  intros Hk (Hm & _ & Hhi & _) HP. rewrite Z.pow_add_r in HP by lia.
  assert (HX : 0 < 2 ^ k) by (apply Z.pow_pos_nonneg; lia).
  revert Hhi HP HX. generalize (2 ^ k). intros X Hhi HP HX.
  destruct (shr_r mrs); cbn [b2z] in *; nia.
Qed.

Lemma round_nearest_even_mono P1 P2 k mrs1 mrs2 :
  0 <= k -> located P1 k mrs1 -> located P2 k mrs2 -> P1 <= P2 ->
  round_nearest_even (shr_m mrs1) (loc_of_shr_record mrs1)
  <= round_nearest_even (shr_m mrs2) (loc_of_shr_record mrs2).
Proof.
  intros Hk (Ha & Hlo1 & Hhi1 & Hs1) (Hb & Hlo2 & Hhi2 & Hs2) HP.
  assert (HX : 0 < 2 ^ k) by (apply Z.pow_pos_nonneg; lia).
  revert Hlo1 Hhi1 Hs1 Hlo2 Hhi2 Hs2 HX. generalize (2 ^ k).
  intros X Hlo1 Hhi1 Hs1 Hlo2 Hhi2 Hs2 HX.
  destruct mrs1 as [a r1 s1], mrs2 as [b r2 s2]. cbn [shr_m shr_r shr_s] in *.
  assert (Hc : 2 * a + b2z r1 <= 2 * b + b2z r2) by nia.
  assert (Hs : 2 * a + b2z r1 = 2 * b + b2z r2 -> s2 = false -> s1 = false).
  { intros Heq H2. apply Hs1. apply Hs2 in H2. rewrite Heq in *. lia. }
  clear Hlo1 Hhi1 Hs1 Hlo2 Hhi2 Hs2.
  destruct r1, s1, r2, s2; cbn [b2z loc_of_shr_record round_nearest_even] in *;
    try lia;
    try (destruct (Z.even a) eqn:Ea; destruct (Z.even b) eqn:Eb; try lia;
         assert (a < b \/ a = b) as [Hab|Hab] by lia; [lia|subst b; congruence]);
    try (destruct (Z.even a) eqn:Ea; lia);
    try (destruct (Z.even b) eqn:Eb; lia);
    try (assert (a < b \/ a = b) as [Hab|Hab] by lia; [lia|subst b]; discriminate (Hs ltac:(lia) eq_refl)).
Qed.

Lemma overflow_to_le Ma Ea Mb Eb :
  0 < Ma -> 0 < Mb -> Ea < Eb \/ (Ea = Eb /\ Ma <= Mb) ->
  SFleb (overflow_to false Ma Ea) (overflow_to false Mb Eb) = true.
Proof.
  intros Ha Hb H. unfold overflow_to, SFleb.
  destruct (Z.leb_spec Ea (emax - prec)), (Z.leb_spec Eb (emax - prec));
    cbn [SFcompare]; try reflexivity; [|lia].
  destruct (Z.compare_spec Ea Eb); try reflexivity; [|lia].
  change (PosDef.Pos.compare_cont Eq ?a ?b) with (Pos.compare a b).
  destruct (Pos.compare_spec (Z.to_pos Ma) (Z.to_pos Mb)); try reflexivity. lia.
Qed.

Lemma finish_le M1 E1 M2 E2 :
  0 <= M1 <= 2 ^ 53 -> 0 <= M2 <= 2 ^ 53 ->
  (E1 = E2 /\ M1 <= M2) \/ (E1 < E2 /\ 2 ^ 52 <= M2) ->
  SFleb (finish false M1 E1) (finish false M2 E2) = true.
Proof.
  change (2 ^ 53) with 9007199254740992. change (2 ^ 52) with 4503599627370496.
  intros H1 H2 H. unfold finish.
  change (2 ^ 53) with 9007199254740992. change (2 ^ 52) with 4503599627370496.
  destruct (Z.eqb_spec M1 0) as [->|N1].
  - destruct (M2 =? 0); [reflexivity|].
    destruct (M2 <? _); unfold overflow_to; destruct (_ <=? _); reflexivity.
  - destruct (Z.eqb_spec M2 0) as [->|N2]; [lia|].
    destruct (Z.ltb_spec M1 9007199254740992), (Z.ltb_spec M2 9007199254740992);
      apply overflow_to_le; lia.
Qed.

Lemma binary_round_aux_mono (P1 P2 : positive) e1 e2 e0 :
  e0 <= e1 -> e0 <= e2 ->
  e1 <= fexp prec emax (Z.pos (digits2_pos P1) + e1) ->
  e2 <= fexp prec emax (Z.pos (digits2_pos P2) + e2) ->
  Z.pos P1 * 2 ^ (e1 - e0) <= Z.pos P2 * 2 ^ (e2 - e0) ->
  SFleb (binary_round_aux prec emax false (Z.pos P1) e1 loc_Exact)
        (binary_round_aux prec emax false (Z.pos P2) e2 loc_Exact) = true.
Proof.
  intros H01 H02 HE1 HE2 HV.
  destruct (binary_round_aux_located false P1 e1 HE1) as (mrs1 & L1 & ->).
  destruct (binary_round_aux_located false P2 e2 HE2) as (mrs2 & L2 & ->).
  set (d1 := Z.pos (digits2_pos P1)) in *. set (d2 := Z.pos (digits2_pos P2)) in *.
  set (E1 := fexp prec emax (d1 + e1)) in *. set (E2 := fexp prec emax (d2 + e2)) in *.
  apply (located_scale _ _ (e1 - e0)) in L1; [|lia|lia].
  apply (located_scale _ _ (e2 - e0)) in L2; [|lia|lia].
  replace (E1 - e1 + (e1 - e0)) with (E1 - e0) in L1 by lia.
  replace (E2 - e2 + (e2 - e0)) with (E2 - e0) in L2 by lia.
  set (V1 := Z.pos P1 * 2 ^ (e1 - e0)) in *. set (V2 := Z.pos P2 * 2 ^ (e2 - e0)) in *.
  assert (B1 : 2 ^ (d1 + e1 - e0 - 1) <= V1 < 2 ^ (d1 + e1 - e0)).
  { pose proof (digits2_pos_bounds P1) as [Hl Hh]. fold d1 in Hl, Hh. unfold V1.
    replace (d1 + e1 - e0 - 1) with ((d1 - 1) + (e1 - e0)) by lia.
    replace (d1 + e1 - e0) with (d1 + (e1 - e0)) by lia.
    rewrite !Z.pow_add_r by lia.
    assert (0 < 2 ^ (e1 - e0)) by (apply Z.pow_pos_nonneg; lia). nia. }
  assert (B2 : 2 ^ (d2 + e2 - e0 - 1) <= V2 < 2 ^ (d2 + e2 - e0)).
  { pose proof (digits2_pos_bounds P2) as [Hl Hh]. fold d2 in Hl, Hh. unfold V2.
    replace (d2 + e2 - e0 - 1) with ((d2 - 1) + (e2 - e0)) by lia.
    replace (d2 + e2 - e0) with (d2 + (e2 - e0)) by lia.
    rewrite !Z.pow_add_r by lia.
    assert (0 < 2 ^ (e2 - e0)) by (apply Z.pow_pos_nonneg; lia). nia. }
  assert (HD : d1 + e1 <= d2 + e2).
  { assert (d1 + e1 - e0 - 1 < d2 + e2 - e0); [|lia].
    apply (Z.pow_lt_mono_r_iff 2); lia. }
  assert (HEE : E1 <= E2) by (unfold E1, E2; rewrite !fexp_eq; lia).
  assert (HF1 : E1 = Z.max (d1 + e1 - 53) (-1074)) by (unfold E1; now rewrite fexp_eq).
  assert (HF2 : E2 = Z.max (d2 + e2 - 53) (-1074)) by (unfold E2; now rewrite fexp_eq).
  assert (U1 : shr_m mrs1 < 2 ^ 53).
  { apply (located_lt V1 (E1 - e0)); [lia|exact L1|].
    eapply Z.lt_le_trans; [apply B1|]. apply Z.pow_le_mono_r; lia. }
  assert (U2 : shr_m mrs2 < 2 ^ 53).
  { apply (located_lt V2 (E2 - e0)); [lia|exact L2|].
    eapply Z.lt_le_trans; [apply B2|]. apply Z.pow_le_mono_r; lia. }
  pose proof (round_nearest_even_bounds mrs1) as R1.
  pose proof (round_nearest_even_bounds mrs2) as R2.
  assert (N1 : 0 <= shr_m mrs1) by apply L1.
  assert (N2 : 0 <= shr_m mrs2) by apply L2.
  apply finish_le; [lia|lia|].
  destruct (Z.eq_dec E1 E2) as [Heq|Hne].
  - left. split; [exact Heq|].
    rewrite <- Heq in L2.
    apply (round_nearest_even_mono V1 V2 (E1 - e0)); auto. lia.
  - right. split; [lia|].
    assert (2 ^ 52 <= shr_m mrs2); [|lia].
    apply (located_ge V2 (E2 - e0)); [lia|exact L2|].
    eapply Z.le_trans; [|apply B2]. apply Z.pow_le_mono_r; lia.
Qed.

Lemma huge_pos : 0 < huge.
Proof. apply Z.pow_pos_nonneg; lia. Qed.

Lemma valid_finite s m e :
  is_double (S754_finite s m e) ->
  -1074 <= e <= 971 /\ Z.pos (digits2_pos m) <= 53 /\
  (-1074 < e -> Z.pos (digits2_pos m) = 53).
Proof.
  unfold is_double, valid_binary, bounded, canonical_mantissa.
  rewrite andb_true_iff, Z.eqb_eq, Z.leb_le, fexp_eq.
  change (emax - prec) with 971. lia.
Qed.

Lemma scaled_finite_bounds s m e :
  is_double (S754_finite s m e) ->
  0 < Z.pos m * 2 ^ (e + 1074) < 2 ^ (e + 1074 + 53) /\
  (-1074 < e -> 2 ^ (e + 1074 + 52) <= Z.pos m * 2 ^ (e + 1074)).
Proof.
  intros (He & Hd & Hn)%valid_finite.
  pose proof (digits2_pos_bounds m) as [Hl Hh].
  assert (HX : 0 < 2 ^ (e + 1074)) by (apply Z.pow_pos_nonneg; lia).
  assert (H53 : 2 ^ Z.pos (digits2_pos m) <= 2 ^ 53) by (apply Z.pow_le_mono_r; lia).
  rewrite (Z.pow_add_r 2 (e + 1074) 53), (Z.pow_add_r 2 (e + 1074) 52) by lia.
  change (2 ^ 53) with 9007199254740992 in *. change (2 ^ 52) with 4503599627370496.
  split; [nia|].
  intros Hne. rewrite (Hn Hne) in Hl. change (2 ^ (53 - 1)) with 4503599627370496 in Hl. nia.
Qed.

Lemma scaled_lt_huge s m e :
  is_double (S754_finite s m e) -> Z.pos m * 2 ^ (e + 1074) < huge.
Proof.
  intros H. pose proof (valid_finite _ _ _ H) as (He & _).
  apply scaled_finite_bounds in H as [[_ H] _].
  eapply Z.lt_le_trans; [exact H|]. apply Z.pow_le_mono_r; lia.
Qed.

Lemma scaled_lt_exp s1 m1 e1 s2 m2 e2 :
  is_double (S754_finite s1 m1 e1) -> is_double (S754_finite s2 m2 e2) ->
  e1 < e2 -> Z.pos m1 * 2 ^ (e1 + 1074) < Z.pos m2 * 2 ^ (e2 + 1074).
Proof.
  intros H1 H2 Hlt.
  pose proof (valid_finite _ _ _ H1) as (He1 & _).
  apply scaled_finite_bounds in H1 as [[_ H1] _].
  apply scaled_finite_bounds in H2 as [_ H2].
  eapply Z.lt_le_trans; [exact H1|]. eapply Z.le_trans; [|apply H2; lia].
  apply Z.pow_le_mono_r; lia.
Qed.

Lemma lex_scaled s1 m1 e1 s2 m2 e2 :
  is_double (S754_finite s1 m1 e1) -> is_double (S754_finite s2 m2 e2) ->
  match e1 ?= e2 with
  | Eq => PosDef.Pos.compare_cont Eq m1 m2
  | Lt => Lt
  | Gt => Gt
  end = (Z.pos m1 * 2 ^ (e1 + 1074) ?= Z.pos m2 * 2 ^ (e2 + 1074)).
Proof.
  intros H1 H2. destruct (Z.compare_spec e1 e2) as [->|Hlt|Hgt].
  - pose proof (valid_finite _ _ _ H2) as (He & _).
    assert (HX : 0 < 2 ^ (e2 + 1074)) by (apply Z.pow_pos_nonneg; lia).
    change (PosDef.Pos.compare_cont Eq m1 m2) with (Pos.compare m1 m2).
    destruct (Pos.compare_spec m1 m2) as [->|Hlt|Hgt]; symmetry.
    + apply Z.compare_refl.
    + apply Z.compare_lt_iff. nia.
    + apply Z.compare_gt_iff. nia.
  - symmetry. apply Z.compare_lt_iff. eapply scaled_lt_exp; eauto.
  - symmetry. apply Z.compare_gt_iff. eapply scaled_lt_exp; eauto.
Qed.

Ltac compare_by_lia :=
  apply f_equal; symmetry;
  first [apply Z.compare_eq_iff; lia|apply Z.compare_lt_iff; lia|apply Z.compare_gt_iff; lia].

Lemma SFcompare_scaled x y :
  is_double x -> is_double y -> x <> S754_nan -> y <> S754_nan ->
  SFcompare x y = Some (scaled x ?= scaled y).
Proof.
  intros Hx Hy Nx Ny. pose proof huge_pos as Hh.
  destruct x as [sx|sx| |sx mx ex], y as [sy|sy| |sy my ey]; try congruence;
    cbn [SFcompare scaled].
  - reflexivity.
  - destruct sy; cbn [cond_Zopp]; compare_by_lia.
  - apply scaled_finite_bounds in Hy as [[Hy _] _].
    destruct sy; cbn [cond_Zopp]; compare_by_lia.
  - destruct sx; cbn [cond_Zopp]; compare_by_lia.
  - destruct sx, sy; cbn [cond_Zopp]; compare_by_lia.
  - pose proof (scaled_lt_huge _ _ _ Hy) as Hlt.
    apply scaled_finite_bounds in Hy as [[Hy _] _].
    destruct sx, sy; cbn [cond_Zopp]; compare_by_lia.
  - apply scaled_finite_bounds in Hx as [[Hx _] _].
    destruct sx; cbn [cond_Zopp]; compare_by_lia.
  - pose proof (scaled_lt_huge _ _ _ Hx) as Hlt.
    apply scaled_finite_bounds in Hx as [[Hx _] _].
    destruct sx, sy; cbn [cond_Zopp]; compare_by_lia.
  - pose proof (lex_scaled _ _ _ _ _ _ Hx Hy) as Hlex.
    pose proof Hx as Bx. pose proof Hy as By.
    apply scaled_finite_bounds in Bx as [[Bx _] _].
    apply scaled_finite_bounds in By as [[By _] _].
    destruct sx, sy; cbn [cond_Zopp]; apply f_equal.
    + rewrite Z.compare_opp, <- (lex_scaled _ _ _ _ _ _ Hy Hx).
      rewrite (Z.compare_antisym ey ex).
      destruct (ey ?= ex); cbn [CompOpp]; try reflexivity.
      change (PosDef.Pos.compare_cont Eq ?a ?b) with (Pos.compare a b).
      now rewrite (Pos.compare_antisym mx my).
    + symmetry. apply Z.compare_lt_iff. lia.
    + symmetry. apply Z.compare_gt_iff. lia.
    + exact Hlex.
Qed.

Lemma product_exponent_ok (m mr : positive) e :
  2 ^ 52 <= Z.pos mr ->
  e <= fexp prec emax (Z.pos (digits2_pos (m * mr)) + e).
Proof.
  intros Hr. rewrite fexp_eq.
  pose proof (digits2_pos_bounds (m * mr)) as [_ Hh].
  assert (52 < Z.pos (digits2_pos (m * mr))); [|lia].
  apply (Z.pow_lt_mono_r_iff 2); [lia|lia|].
  eapply Z.le_lt_trans; [exact Hr|]. eapply Z.le_lt_trans; [|exact Hh].
  rewrite Pos2Z.inj_mul. nia.
Qed.

Lemma zero_le_finish s M E : SFleb (S754_zero s) (finish false M E) = true.
Proof.
  unfold finish, overflow_to.
  destruct (M =? 0); [reflexivity|].
  destruct (M <? 2 ^ 53); destruct (_ <=? _); reflexivity.
Qed.

Lemma finish_le_infinity M E : SFleb (finish false M E) (S754_infinity false) = true.
Proof.
  unfold finish, overflow_to.
  destruct (M =? 0); [reflexivity|].
  destruct (M <? 2 ^ 53); destruct (_ <=? _); reflexivity.
Qed.

Lemma SFmul_mono x1 x2 mr er :
  is_double x1 -> is_double x2 -> 2 ^ 52 <= Z.pos mr ->
  SFleb (S754_zero false) x1 = true -> SFleb x1 x2 = true ->
  SFleb (SFmul prec emax x1 (S754_finite false mr er))
        (SFmul prec emax x2 (S754_finite false mr er)) = true.
Proof.
  intros V1 V2 Hr H0 H12.
  destruct x1 as [[]|[]| |[] m1 e1]; try discriminate H0;
    destruct x2 as [[]|[]| |[] m2 e2]; try discriminate H12;
    cbn [SFmul xorb]; try reflexivity.
  - destruct (binary_round_aux_located false (m2 * mr) (e2 + er)
                (product_exponent_ok m2 mr (e2 + er) Hr)) as (mrs & _ & ->).
    apply zero_le_finish.
  - destruct (binary_round_aux_located false (m2 * mr) (e2 + er)
                (product_exponent_ok m2 mr (e2 + er) Hr)) as (mrs & _ & ->).
    apply zero_le_finish.
  - destruct (binary_round_aux_located false (m1 * mr) (e1 + er)
                (product_exponent_ok m1 mr (e1 + er) Hr)) as (mrs & _ & ->).
    apply finish_le_infinity.
  - pose proof (valid_finite _ _ _ V1) as (He1 & _).
    pose proof (valid_finite _ _ _ V2) as (He2 & _).
    apply (binary_round_aux_mono _ _ _ _ (-1074 + er)); try lia;
      try (apply product_exponent_ok; exact Hr).
    replace (e1 + er - (-1074 + er)) with (e1 + 1074) by lia.
    replace (e2 + er - (-1074 + er)) with (e2 + 1074) by lia.
    unfold SFleb in H12. rewrite SFcompare_scaled in H12 by (auto; discriminate).
    cbn [scaled cond_Zopp] in H12.
    assert (Hle : Z.pos m1 * 2 ^ (e1 + 1074) <= Z.pos m2 * 2 ^ (e2 + 1074)).
    { destruct (Z.compare_spec (Z.pos m1 * 2 ^ (e1 + 1074)) (Z.pos m2 * 2 ^ (e2 + 1074)));
        try lia; discriminate H12. }
    rewrite !Pos2Z.inj_mul. nia.
Qed.

Lemma digits2_pos_unique (p : positive) k :
  2 ^ (k - 1) <= Z.pos p < 2 ^ k -> Z.pos (digits2_pos p) = k.
Proof.
  intros [Hl Hh]. pose proof (digits2_pos_bounds p) as [Hl' Hh'].
  assert (0 < k).
  { destruct (Z.lt_ge_cases 0 k) as [|Hk]; [assumption|].
    assert (2 ^ k <= 2 ^ 0) by (apply Z.pow_le_mono_r; lia).
    change (2 ^ 0) with 1 in *. lia. }
  assert (k - 1 < Z.pos (digits2_pos p)) by (apply (Z.pow_lt_mono_r_iff 2); lia).
  assert (Z.pos (digits2_pos p) - 1 < k) by (apply (Z.pow_lt_mono_r_iff 2); lia).
  lia.
Qed.

Lemma iter_xO_pow (m d : positive) :
  Z.pos (PosDef.Pos.iter xO m d) = Z.pos m * 2 ^ Z.pos d.
Proof.
  change (PosDef.Pos.iter xO m d) with (shift_pos d m).
  rewrite shift_pos_correct. change (Z.pow_pos 2 d) with (2 ^ Z.pos d). lia.
Qed.

Lemma shl_align_spec (m : positive) e e' :
  e' <= e ->
  Z.pos (fst (shl_align m e e')) = Z.pos m * 2 ^ (e - e') /\
  snd (shl_align m e e') = e'.
Proof.
  intros H. unfold shl_align. destruct (e' - e) as [|d|d] eqn:Hd; try lia; cbn [fst snd].
  - replace (e - e') with 0 by lia. change (2 ^ 0) with 1. lia.
  - rewrite iter_xO_pow. replace (e - e') with (Z.pos d) by lia. tauto.
Qed.

Lemma shl_align_keep (m : positive) e e' :
  e <= e' -> shl_align m e e' = (m, e).
Proof.
  intros H. unfold shl_align. destruct (e' - e) as [|d|d] eqn:Hd; try lia; reflexivity.
Qed.

Lemma digits2_pos_shift (m q : positive) j :
  0 <= j -> Z.pos q = Z.pos m * 2 ^ j ->
  Z.pos (digits2_pos q) = Z.pos (digits2_pos m) + j.
Proof.
  intros Hj Hq. apply digits2_pos_unique. rewrite Hq.
  pose proof (digits2_pos_bounds m) as [Hl Hh].
  replace (Z.pos (digits2_pos m) + j - 1) with (Z.pos (digits2_pos m) - 1 + j) by lia.
  rewrite !Z.pow_add_r by lia.
  assert (0 < 2 ^ j) by (apply Z.pow_pos_nonneg; lia). nia.
Qed.

Lemma finish_positive M E :
  1 <= M -> SFltb (S754_zero false) (finish false M E) = true.
Proof.
  intros HM. unfold finish, overflow_to.
  destruct (Z.eqb_spec M 0); [lia|].
  destruct (M <? 2 ^ 53); destruct (_ <=? _); reflexivity.
Qed.

Lemma binary_round_aux_positive (P : positive) e :
  e <= fexp prec emax (Z.pos (digits2_pos P) + e) -> -1074 <= e ->
  SFltb (S754_zero false) (binary_round_aux prec emax false (Z.pos P) e loc_Exact) = true.
Proof.
  intros HE He.
  destruct (binary_round_aux_located false P e HE) as (mrs & L & ->).
  apply finish_positive.
  pose proof (round_nearest_even_bounds mrs) as R.
  assert (1 <= shr_m mrs); [|lia].
  rewrite fexp_eq in L, HE.
  destruct L as (Hm & _ & Hhi & _).
  pose proof (digits2_pos_bounds P) as [Hl _].
  set (d := Z.pos (digits2_pos P)) in *. set (k := Z.max (d + e - 53) (-1074) - e) in *.
  assert (Hk : 2 ^ k <= 2 ^ (d - 1)) by (apply Z.pow_le_mono_r; unfold k, d; lia).
  assert (HX : 0 < 2 ^ k) by (apply Z.pow_pos_nonneg; lia).
  revert Hhi Hl Hk HX. generalize (2 ^ k) (2 ^ (d - 1)). intros X Y Hhi Hl Hk HX.
  destruct (shr_r mrs); cbn [b2z] in *; nia.
Qed.

Lemma binary_round_positive (m : positive) e :
  -1074 <= e ->
  SFltb (S754_zero false) (binary_round prec emax false m e) = true.
Proof.
  intros He. unfold binary_round.
  set (F := fexp prec emax (Z.pos (digits2_pos m) + e)).
  destruct (Z.le_gt_cases e F) as [Hle|Hgt].
  - rewrite shl_align_keep by exact Hle. now apply binary_round_aux_positive.
  - destruct (shl_align_spec m e F) as [Hm Hs]; [lia|].
    destruct (shl_align m e F) as [mz ez]. cbn [fst snd] in Hm, Hs. subst ez.
    assert (HF : -1074 <= F) by (unfold F; rewrite fexp_eq; lia).
    apply binary_round_aux_positive; [|exact HF].
    rewrite (digits2_pos_shift m mz (e - F)) by (lia || exact Hm).
    replace (Z.pos (digits2_pos m) + (e - F) + F) with (Z.pos (digits2_pos m) + e) by lia.
    fold F. lia.
Qed.

Lemma binary_round_negative (m : positive) e :
  SFltb (S754_zero false) (binary_round prec emax true m e) = false.
Proof.
  unfold binary_round. destruct (shl_align _ _ _) as [mz ez].
  unfold binary_round_aux.
  destruct (shr_fexp _ _ _ _ _) as [mrs' e']. destruct (shr_fexp _ _ _ _ _) as [mrs'' e''].
  destruct (shr_m mrs''); try reflexivity. destruct (_ <=? _); reflexivity.
Qed.

Lemma ltb_compare a b c : (a ?= b) = c -> (a <? b) = match c with Lt => true | _ => false end.
Proof. intros <-. unfold Z.ltb. now destruct (a ?= b). Qed.

Lemma SFsub_positive a b :
  is_double a -> is_double b -> a <> S754_nan -> b <> S754_nan ->
  SFltb (S754_zero false) (SFsub prec emax b a) = (scaled a <? scaled b).
Proof.
  intros Ha Hb Na Nb. pose proof huge_pos as Hh.
  destruct a as [sa|sa| |sa ma ea]; try congruence;
    destruct b as [sb|sb| |sb mb eb]; try congruence;
    cbn [SFsub scaled].
  - destruct sa, sb; reflexivity.
  - destruct sa, sb; cbn [cond_Zopp negb]; symmetry;
      first [apply Z.ltb_lt; lia|apply Z.ltb_ge; lia].
  - apply scaled_finite_bounds in Hb as [[Hb _] _].
    destruct sb; cbn [cond_Zopp]; symmetry;
      first [apply Z.ltb_lt; lia|apply Z.ltb_ge; lia].
  - destruct sa; cbn [cond_Zopp negb]; symmetry;
      first [apply Z.ltb_lt; lia|apply Z.ltb_ge; lia].
  - destruct sa, sb; cbn [cond_Zopp]; symmetry;
      first [apply Z.ltb_lt; lia|apply Z.ltb_ge; lia].
  - pose proof (scaled_lt_huge _ _ _ Hb).
    destruct sa, sb; cbn [cond_Zopp negb]; symmetry;
      first [apply Z.ltb_lt; lia|apply Z.ltb_ge; lia].
  - apply scaled_finite_bounds in Ha as [[Ha _] _].
    destruct sa; cbn [cond_Zopp negb]; symmetry;
      first [apply Z.ltb_lt; lia|apply Z.ltb_ge; lia].
  - pose proof (scaled_lt_huge _ _ _ Ha).
    destruct sa, sb; cbn [cond_Zopp negb]; symmetry;
      first [apply Z.ltb_lt; lia|apply Z.ltb_ge; lia].
  - pose proof (valid_finite _ _ _ Ha) as (Hea & _).
    pose proof (valid_finite _ _ _ Hb) as (Heb & _).
    set (ez := IntDef.Z.min eb ea).
    assert (Hz : ez = Z.min eb ea) by reflexivity.
    destruct (shl_align_spec mb eb ez) as [HB _]; [lia|].
    destruct (shl_align_spec ma ea ez) as [HA _]; [lia|].
    rewrite HB, HA.
    assert (EB : Z.pos mb * 2 ^ (eb + 1074) = Z.pos mb * 2 ^ (eb - ez) * 2 ^ (ez + 1074)).
    { rewrite <- Z.mul_assoc, <- Z.pow_add_r by lia. do 2 f_equal. lia. }
    assert (EA : Z.pos ma * 2 ^ (ea + 1074) = Z.pos ma * 2 ^ (ea - ez) * 2 ^ (ez + 1074)).
    { rewrite <- Z.mul_assoc, <- Z.pow_add_r by lia. do 2 f_equal. lia. }
    rewrite EB, EA.
    assert (HX : 0 < 2 ^ (ez + 1074)) by (apply Z.pow_pos_nonneg; lia).
    assert (PB : 0 < Z.pos mb * 2 ^ (eb - ez)).
    { apply Z.mul_pos_pos; [lia|apply Z.pow_pos_nonneg; lia]. }
    assert (PA : 0 < Z.pos ma * 2 ^ (ea - ez)).
    { apply Z.mul_pos_pos; [lia|apply Z.pow_pos_nonneg; lia]. }
    revert HX PB PA. generalize (2 ^ (ez + 1074)) (Z.pos mb * 2 ^ (eb - ez))
      (Z.pos ma * 2 ^ (ea - ez)). intros X B A HX PB PA.
    destruct (cond_Zopp sb B - cond_Zopp sa A) as [|d|d] eqn:HD; cbn [binary_normalize].
    + symmetry. apply Z.ltb_ge. destruct sa, sb; cbn [cond_Zopp] in *; nia.
    + rewrite binary_round_positive by lia.
      symmetry. apply Z.ltb_lt. destruct sa, sb; cbn [cond_Zopp] in *; nia.
    + rewrite binary_round_negative.
      symmetry. apply Z.ltb_ge. destruct sa, sb; cbn [cond_Zopp] in *; nia.
Qed.

Lemma located_unique P k a b :
  0 <= k -> located P k a -> located P k b -> a = b.
Proof.
  intros Hk (Ha & Hlo1 & Hhi1 & Hs1) (Hb & Hlo2 & Hhi2 & Hs2).
  assert (HX : 0 < 2 ^ k) by (apply Z.pow_pos_nonneg; lia).
  revert Hlo1 Hhi1 Hs1 Hlo2 Hhi2 Hs2 HX. generalize (2 ^ k).
  intros X Hlo1 Hhi1 Hs1 Hlo2 Hhi2 Hs2 HX.
  destruct a as [m1 r1 s1], b as [m2 r2 s2]. cbn [shr_m shr_r shr_s] in *.
  assert (Hc : 2 * m1 + b2z r1 = 2 * m2 + b2z r2) by nia.
  assert (m1 = m2 /\ r1 = r2) as [-> ->].
  { destruct r1, r2; cbn [b2z] in Hc; split; try reflexivity; lia. }
  f_equal.
  destruct s1, s2; try reflexivity.
  - apply Hs1. now apply Hs2.
  - symmetry. apply Hs2. now apply Hs1.
Qed.

Lemma binary_round_located sx (m : positive) e e0 :
  e0 <= e -> e0 <= fexp prec emax (Z.pos (digits2_pos m) + e) ->
  exists mrs,
    located (Z.pos m * 2 ^ (e - e0)) (fexp prec emax (Z.pos (digits2_pos m) + e) - e0) mrs /\
    binary_round prec emax sx m e
    = finish sx (round_nearest_even (shr_m mrs) (loc_of_shr_record mrs))
             (fexp prec emax (Z.pos (digits2_pos m) + e)).
Proof.
  intros H0 HF. unfold binary_round.
  set (F := fexp prec emax (Z.pos (digits2_pos m) + e)) in *.
  destruct (Z.le_gt_cases e F) as [Hle|Hgt].
  - rewrite shl_align_keep by exact Hle.
    destruct (binary_round_aux_located sx m e) as (mrs & L & ->); [fold F; lia|].
    fold F in L |- *. exists mrs. split; [|reflexivity].
    apply (located_scale _ _ (e - e0)) in L; [|lia|lia].
    now replace (F - e + (e - e0)) with (F - e0) in L by lia.
  - destruct (shl_align_spec m e F) as [Hm Hs]; [lia|].
    destruct (shl_align m e F) as [mz ez]. cbn [fst snd] in Hm, Hs. subst ez.
    assert (Hd : Z.pos (digits2_pos mz) + F = Z.pos (digits2_pos m) + e).
    { rewrite (digits2_pos_shift m mz (e - F)) by (lia || exact Hm). lia. }
    destruct (binary_round_aux_located sx mz F) as (mrs & L & ->).
    { rewrite Hd. fold F. lia. }
    rewrite Hd in *. fold F in L |- *. exists mrs. split; [|reflexivity].
    apply (located_scale _ _ (F - e0)) in L; [|lia|lia].
    replace (F - F + (F - e0)) with (F - e0) in L by lia.
    rewrite Hm, <- Z.mul_assoc, <- Z.pow_add_r in L by lia.
    now replace (e - F + (F - e0)) with (e - e0) in L by lia.
Qed.

Lemma binary_round_same_value sx (m1 m2 : positive) e1 e2 e0 :
  e0 <= e1 -> e0 <= e2 ->
  Z.pos m1 * 2 ^ (e1 - e0) = Z.pos m2 * 2 ^ (e2 - e0) ->
  binary_round prec emax sx m1 e1 = binary_round prec emax sx m2 e2.
Proof.
  intros H1 H2 HV.
  assert (HD : Z.pos (digits2_pos m1) + e1 = Z.pos (digits2_pos m2) + e2).
  { destruct (Z.pow_pos_nonneg 2 (e1 - e0)) as []; try lia.
    assert (P1 : exists q1, Z.pos q1 = Z.pos m1 * 2 ^ (e1 - e0)).
    { exists (Z.to_pos (Z.pos m1 * 2 ^ (e1 - e0))). rewrite Z2Pos.id; [reflexivity|].
      apply Z.mul_pos_pos; [lia|apply Z.pow_pos_nonneg; lia]. }
    destruct P1 as [q Hq].
    pose proof (digits2_pos_shift m1 q (e1 - e0) ltac:(lia) Hq) as D1.
    rewrite HV in Hq.
    pose proof (digits2_pos_shift m2 q (e2 - e0) ltac:(lia) Hq) as D2.
    lia. }
  set (F := fexp prec emax (Z.pos (digits2_pos m1) + e1)).
  set (e := Z.min e0 F).
  destruct (binary_round_located sx m1 e1 e) as (mrs1 & L1 & ->); [lia|fold F; lia|].
  destruct (binary_round_located sx m2 e2 e) as (mrs2 & L2 & ->);
    [lia|rewrite <- HD; fold F; lia|].
  rewrite <- HD in *. fold F in L1, L2 |- *.
  assert (HV' : Z.pos m1 * 2 ^ (e1 - e) = Z.pos m2 * 2 ^ (e2 - e)).
  { replace (e1 - e) with ((e1 - e0) + (e0 - e)) by lia.
    replace (e2 - e) with ((e2 - e0) + (e0 - e)) by lia.
    rewrite (Z.pow_add_r 2 (e1 - e0) (e0 - e)), (Z.pow_add_r 2 (e2 - e0) (e0 - e)) by lia.
    rewrite !Z.mul_assoc. now rewrite HV. }
  rewrite HV' in L1.
  assert (Hk : 0 <= F - e) by (unfold e; lia).
  now rewrite (located_unique _ _ _ _ Hk L1 L2).
Qed.

Lemma of_Z_pos_form a :
  0 < a < 2 ^ 53 ->
  exists (m : positive) e,
    of_Z a = S754_finite false m e /\ -1074 <= e <= 0 /\ a * 2 ^ (- e) = Z.pos m.
Proof.
  intros [Ha Hlt]. destruct a as [|p|p]; try lia.
  unfold of_Z. cbn [binary_normalize].
  pose proof (digits2_pos_bounds p) as [Hl Hh].
  set (d := Z.pos (digits2_pos p)) in *.
  assert (Hd : d <= 53).
  { assert (d - 1 < 53); [|lia]. apply (Z.pow_lt_mono_r_iff 2); lia. }
  assert (HF : fexp prec emax (d + 0) = d - 53) by (rewrite fexp_eq; lia).
  destruct (binary_round_located false p 0 (d - 53)) as (mrs & L & ->);
    [lia|fold d; rewrite HF; lia|].
  fold d in L |- *. rewrite HF in *.
  replace (d - 53 - (d - 53)) with 0 in L by lia.
  replace (0 - (d - 53)) with (53 - d) in L by lia.
  assert (HM : 0 < Z.pos p * 2 ^ (53 - d) < 2 ^ 53).
  { assert (0 < 2 ^ (53 - d)) by (apply Z.pow_pos_nonneg; lia).
    split; [nia|].
    replace 53 with (d + (53 - d)) at 2 by lia. rewrite Z.pow_add_r by lia. nia. }
  assert (H00 : 0 <= 0) by lia.
  assert (HP : 0 <= Z.pos p * 2 ^ (53 - d)) by lia.
  rewrite (located_unique _ _ _ _ H00 L (located_0 _ HP)).
  cbn [shr_m loc_of_shr_record round_nearest_even].
  unfold finish. destruct (Z.eqb_spec (Z.pos p * 2 ^ (53 - d)) 0); [lia|].
  destruct (Z.ltb_spec (Z.pos p * 2 ^ (53 - d)) (2 ^ 53)); [|lia].
  unfold overflow_to. destruct (Z.leb_spec (d - 53) (emax - prec)).
  2:{ change (emax - prec) with 971 in *. lia. }
  exists (Z.to_pos (Z.pos p * 2 ^ (53 - d))), (d - 53).
  split; [reflexivity|]. split; [lia|].
  rewrite Z2Pos.id by lia. f_equal. f_equal. lia.
Qed.

Lemma add_of_Z a b :
  0 <= a < 2 ^ 53 -> 0 <= b < 2 ^ 53 ->
  SFadd prec emax (of_Z a) (of_Z b) = of_Z (a + b).
Proof.
  intros Ha Hb.
  destruct (Z.eq_dec a 0) as [->|Na].
  { destruct (Z.eq_dec b 0) as [->|Nb]; [reflexivity|].
    destruct (of_Z_pos_form b) as (mb & eb & Eb & _); [lia|].
    rewrite Z.add_0_l, Eb. reflexivity. }
  destruct (of_Z_pos_form a) as (ma & ea & Ea & Hea & Hma); [lia|].
  destruct (Z.eq_dec b 0) as [->|Nb].
  { rewrite Z.add_0_r, Ea. reflexivity. }
  destruct (of_Z_pos_form b) as (mb & eb & Eb & Heb & Hmb); [lia|].
  rewrite Ea, Eb. cbn [SFadd cond_Zopp].
  set (ez := IntDef.Z.min ea eb).
  assert (Hz : ez = Z.min ea eb) by reflexivity.
  destruct (shl_align_spec ma ea ez) as [HA _]; [lia|].
  destruct (shl_align_spec mb eb ez) as [HB _]; [lia|].
  rewrite HA, HB, <- Hma, <- Hmb.
  rewrite <- !Z.mul_assoc, <- !Z.pow_add_r by lia.
  replace (- ea + (ea - ez)) with (- ez) by lia.
  replace (- eb + (eb - ez)) with (- ez) by lia.
  rewrite <- Z.mul_add_distr_r.
  assert (HX : 0 < 2 ^ (- ez)) by (apply Z.pow_pos_nonneg; lia).
  destruct ((a + b) * 2 ^ (- ez)) as [|q|q] eqn:Hq; try nia.
  destruct (a + b) as [|r|r] eqn:Hr; try lia.
  unfold of_Z. cbn [binary_normalize].
  apply (binary_round_same_value false q r ez 0 ez); try lia.
  rewrite Z.sub_diag, Z.mul_1_r, Z.sub_0_l. now symmetry.
Qed.

(** ** Numbers of the pages *)

Lemma SFcompare_refl x : x <> S754_nan -> SFcompare x x = Some Eq.
Proof.
  destruct x as [s|s| |s m e]; intros H; try congruence; cbn [SFcompare].
  - reflexivity.
  - now destruct s.
  - rewrite Z.compare_refl.
    change (PosDef.Pos.compare_cont Eq m m) with (Pos.compare m m).
    rewrite Pos.compare_refl. now destruct s.
Qed.

Lemma finish_not_NaN sx M E : finish sx M E <> S754_nan.
Proof.
  unfold finish, overflow_to.
  destruct (M =? 0); [discriminate|].
  destruct (M <? 2 ^ 53); destruct (_ <=? _); discriminate.
Qed.

Lemma rate_mantissa : 2 ^ 52 <= 7205759403792794.
Proof. change (2 ^ 52) with 4503599627370496. lia. Qed.

Lemma mul_rate_not_NaN n : n <> NaN -> mul n lit_0_10 <> NaN.
Proof.
  intros Hn. destruct n as [s|s| |s m e]; [by cbn|by cbn|by destruct Hn|].
  unfold mul, lit_0_10. cbn [SFmul].
  destruct (binary_round_aux_located (xorb s false) (m * 7205759403792794) (e + -56)
              (product_exponent_ok m _ _ rate_mantissa)) as (mrs & _ & ->).
  apply finish_not_NaN.
Qed.

Lemma or_zero_Number n :
  n <> NaN -> n <> negative_zero -> or_zero (Number n) = n.
Proof.
  destruct n as [[]|s| |s m e]; intros H1 H2; try reflexivity;
    [by destruct H2|by destruct H1].
Qed.

Lemma or_zero_nonneg n1 n2 :
  number_le zero n1 -> number_le n1 n2 ->
  number_le zero (or_zero (Number n1)) /\
  number_le (or_zero (Number n1)) (or_zero (Number n2)).
Proof.
  unfold number_le.
  destruct n1 as [[]|[]| |[] m1 e1]; try discriminate;
    destruct n2 as [[]|[]| |[] m2 e2]; try discriminate; intros H0 H12; split;
    try reflexivity; try assumption.
Qed.

Lemma or_zero_is_double v :
  match v with Number n => is_double n | _ => True end -> is_double (or_zero v).
Proof. destruct v as [| |[s|s| |s m e]]; intros H; try reflexivity; exact H. Qed.

Lemma or_zero_not_NaN v : or_zero v <> NaN.
Proof. destruct v as [| |[s|s| |s m e]]; discriminate. Qed.

Lemma or_zero_of_Z n : 0 <= n < 2 ^ 53 -> or_zero (Number (of_Z n)) = of_Z n.
Proof.
  intros Hn. destruct (Z.eq_dec n 0) as [->|Hne]; [reflexivity|].
  destruct (of_Z_pos_form n) as (m & e & -> & _); [lia|]. reflexivity.
Qed.

End Rounding.

(** ** Revenue *)

(** The product the pages compute is rounded: three impressions give
    0.30000000000000004, the double above the one nearest to 3/10. *)
Lemma three_impressions_revenue :
  mul (of_Z 3) lit_0_10 = S754_finite false 5404319552844596 (-54) /\
  SFdiv prec emax (of_Z 3) (of_Z 10) = S754_finite false 5404319552844595 (-54).
Proof. split; reflexivity. Qed.

(** C1.  For an impression count [n >= 0] the revenue the dashboard and
    the analytics page compute is the product [n * 0.10] of the two
    doubles, rounded to the nearest double, and a larger count never
    gives a smaller revenue.  On the analytics page, which computes
    [(n || 0) * 0.10], the count [-0] gives [0] where the product is
    [-0]; the two are equal numbers. *)
Theorem revenue_rate_times_count_monotone
    (s : DashboardPage.stats) (o : AnalyticsPage.overview) (n1 n2 : number) :
  is_double n1 -> is_double n2 -> number_le zero n1 -> number_le n1 n2 ->
  dashboard_revenue s n1 = mul n1 lit_0_10 /\
  strict_equal (analytics_revenue o n1) (mul n1 lit_0_10) /\
  (n1 <> negative_zero -> analytics_revenue o n1 = mul n1 lit_0_10) /\
  number_le (dashboard_revenue s n1) (dashboard_revenue s n2) /\
  number_le (analytics_revenue o n1) (analytics_revenue o n2).
Proof.
  intros V1 V2 H0 H12.
  assert (N1 : n1 <> NaN) by (intros ->; discriminate H0).
  assert (Ha : n1 <> negative_zero -> analytics_revenue o n1 = mul n1 lit_0_10).
  { intros Hz. unfold analytics_revenue, AnalyticsPage.totalRevenue; cbn.
    now rewrite or_zero_Number. }
  split; [reflexivity|]. split; [|split; [exact Ha|split]].
  - destruct (decide (n1 = negative_zero)) as [->|Hz]; [reflexivity|].
    rewrite (Ha Hz). unfold strict_equal, SFeqb.
    rewrite SFcompare_refl; [reflexivity|]. now apply mul_rate_not_NaN.
  - unfold dashboard_revenue, DashboardPage.totalRevenue; cbn.
    apply SFmul_mono; auto using rate_mantissa.
  - unfold analytics_revenue, AnalyticsPage.totalRevenue; cbn.
    destruct (or_zero_nonneg n1 n2 H0 H12) as [Hz Hle].
    apply SFmul_mono; auto using rate_mantissa.
    + now apply (or_zero_is_double (Number n1)).
    + now apply (or_zero_is_double (Number n2)).
Qed.

Lemma revenue_rate_times_count_monotone_witness :
  dashboard_revenue DashboardPage.initial_stats (of_Z 3) = mul (of_Z 3) lit_0_10 /\
  strict_equal (analytics_revenue AnalyticsPage.initial_overview (of_Z 3))
               (mul (of_Z 3) lit_0_10) /\
  (of_Z 3 <> negative_zero ->
   analytics_revenue AnalyticsPage.initial_overview (of_Z 3) = mul (of_Z 3) lit_0_10) /\
  number_le (dashboard_revenue DashboardPage.initial_stats (of_Z 3))
            (dashboard_revenue DashboardPage.initial_stats (of_Z 7)) /\
  number_le (analytics_revenue AnalyticsPage.initial_overview (of_Z 3))
            (analytics_revenue AnalyticsPage.initial_overview (of_Z 7)).
Proof.
  apply (revenue_rate_times_count_monotone
           DashboardPage.initial_stats AnalyticsPage.initial_overview
           (of_Z 3) (of_Z 7));
    reflexivity.
Defined.

(** C2.  The three pages declare the same rate, the double nearest to
    one tenth, and their revenue computations agree on every impression
    count: each maps [n] to the product of [n] and that rate.  ([NaN]
    and [-0] are no counts; there the pages that compute [(n || 0)]
    start from [0].) *)
Theorem rate_shared_by_all_pages :
  DashboardPage.RATE_PER_IMPRESSION = AnalyticsPage.RATE_PER_IMPRESSION /\
  AnalyticsPage.RATE_PER_IMPRESSION = ClientsPage.RATE_PER_IMPRESSION /\
  ClientsPage.RATE_PER_IMPRESSION = lit_0_10 /\
  lit_0_10 = SFdiv prec emax (of_Z 1) (of_Z 10) /\
  forall (s : DashboardPage.stats) (o : AnalyticsPage.overview)
         (m : ClientsPage.stats_map) (c : string) (n : number),
    n <> NaN -> n <> negative_zero ->
    dashboard_revenue s n = mul n lit_0_10 /\
    analytics_revenue o n = mul n lit_0_10 /\
    clients_revenue m c n = mul n lit_0_10 /\
    dashboard_revenue s n = analytics_revenue o n /\
    analytics_revenue o n = clients_revenue m c n /\
    dashboard_revenue s n = clients_revenue m c n /\
    DashboardPage.todayRevenue
      (DashboardPage.mkStats
         (DashboardPage.total_devices s) (DashboardPage.online_devices s)
         (DashboardPage.offline_devices s) (DashboardPage.total_campaigns s)
         (DashboardPage.total_impressions s) (Number n))
      = mul n lit_0_10 /\
    AnalyticsPage.todayRevenue
      (AnalyticsPage.mkOverview (AnalyticsPage.total_impressions o) (Number n))
      = mul n lit_0_10 /\
    AnalyticsPage.campaignRevenue (Number n) = mul n lit_0_10.
Proof.
  do 4 (split; [reflexivity|]).
  intros s o m c n Hn Hz.
  assert (Hd : dashboard_revenue s n = mul n lit_0_10) by reflexivity.
  assert (Ha : analytics_revenue o n = mul n lit_0_10).
  { unfold analytics_revenue, AnalyticsPage.totalRevenue; cbn.
    now rewrite or_zero_Number. }
  assert (Hc : clients_revenue m c n = mul n lit_0_10).
  { unfold clients_revenue, ClientsPage.getClientRevenue,
      ClientsPage.stats_impressions. cbn.
    rewrite lookup_insert_eq; cbn. now rewrite or_zero_Number. }
  rewrite Hd, Ha, Hc.
  unfold AnalyticsPage.todayRevenue, AnalyticsPage.campaignRevenue; cbn.
  rewrite !or_zero_Number by assumption. repeat split.
Qed.

Lemma rate_shared_by_all_pages_witness :
  dashboard_revenue DashboardPage.initial_stats (of_Z 7)
  = analytics_revenue AnalyticsPage.initial_overview (of_Z 7) /\
  analytics_revenue AnalyticsPage.initial_overview (of_Z 7)
  = clients_revenue ClientsPage.empty_map "k1" (of_Z 7).
Proof.
  destruct rate_shared_by_all_pages as (_ & _ & _ & _ & H).
  destruct (H DashboardPage.initial_stats AnalyticsPage.initial_overview
              ClientsPage.empty_map "k1" (of_Z 7)) as (_ & _ & _ & H1 & H2 & _);
    [discriminate|discriminate|].
  split; [exact H1|exact H2].
Defined.

(** ** Client aggregation *)

Section ClientAggregation.

Import ClientsPage.


Lemma forEach_body_own_inherited m s c :
  inherited c = true -> own m !! c = None -> own (forEach_body m s) !! c = None.
Proof.
  intros Hc Hm. unfold forEach_body.
  destruct (decide (client_id s = c)) as [->|Hne].
  - rewrite Hm, Hc. exact Hm.
  - destruct (own m !! client_id s) as [e|]; cbn [own].
    + by rewrite lookup_insert_ne.
    + destruct (inherited (client_id s)); cbn [own]; [done|].
      by rewrite lookup_insert_ne.
Qed.







End ClientAggregation.

(** Integer counts add up without rounding as long as the total stays
    below 2^53. *)
Lemma sum_of_counts_from rows ns :
  integer_counts rows ns ->
  forall a, 0 <= a -> a + sum_Z ns < 2 ^ 53 ->
  fold_left (fun acc s => add acc (count_of (total_impressions s))) rows (of_Z a)
  = of_Z (a + sum_Z ns).
Proof.
  induction 1 as [|s n rows ns [Hn Hs] Hrest IH]; intros a Ha Hlt; cbn [fold_left].
  - unfold sum_Z. cbn [foldr]. by rewrite Z.add_0_r.
  - assert (Hpos : 0 <= sum_Z ns).
    { clear -Hrest. unfold sum_Z.
      induction Hrest as [|? ? ? ? [? _] _ IH']; cbn [foldr]; lia. }
    unfold sum_Z in *. cbn [foldr] in Hlt |- *.
    rewrite Hs. unfold add. rewrite add_of_Z by lia.
    rewrite IH by lia. f_equal. lia.
Qed.

Lemma sum_of_counts_integers rows ns :
  integer_counts rows ns -> sum_Z ns < 2 ^ 53 ->
  sum_of_counts rows = of_Z (sum_Z ns) /\ 0 <= sum_Z ns.
Proof.
  intros H Hlt. split.
  - unfold sum_of_counts. change zero with (of_Z 0).
    by rewrite (sum_of_counts_from rows ns H 0).
  - clear Hlt. unfold sum_Z. induction H as [|? ? ? ? [? _] _ IH']; cbn [foldr]; lia.
Qed.


(** The revenue of a client card is printed without decimals: seven
    impressions give 0.7000000000000001, shown as 1. *)
Lemma seven_impressions_card :
  let statsMap :=
    ClientsPage.loadData_statsMap
      (Some [mkCampaignStat "c1" "k1" (Number (of_Z 7)) Null]) in
  ClientsPage.getClientRevenue statsMap "k1"
  = S754_finite false 6305039478318695 (-53) /\
  ClientsPage.card_revenue statsMap "k1" = Some "1".
Proof. split; vm_compute; reflexivity. Qed.



(** ** Device status *)

(** C6.  With staleness threshold [T], a device is online exactly when
    it has a [last_seen] with [now - last_seen <= T] and offline in
    every other case: a [null] [last_seen] is offline, one second past
    the threshold is offline, one second inside it is online. *)
Theorem device_status_by_staleness (T now : Z) (d : DeviceSweep.device) :
  (DeviceSweep.status T now d = DeviceSweep.online <->
     exists seen, DeviceSweep.last_seen d = Some seen /\ now - seen <= T) /\
  (DeviceSweep.status T now d = DeviceSweep.offline <->
     ~ exists seen, DeviceSweep.last_seen d = Some seen /\ now - seen <= T) /\
  DeviceSweep.status T now
    (DeviceSweep.mkDevice (DeviceSweep.device_code d) None) = DeviceSweep.offline /\
  DeviceSweep.status T now
    (DeviceSweep.mkDevice (DeviceSweep.device_code d) (Some (now - T - 1)))
    = DeviceSweep.offline /\
  DeviceSweep.status T now
    (DeviceSweep.mkDevice (DeviceSweep.device_code d) (Some (now - T + 1)))
    = DeviceSweep.online.
Proof.
  unfold DeviceSweep.status; simpl.
  repeat split.
  - destruct (DeviceSweep.last_seen d) as [seen|]; [|discriminate].
    destruct (Z.leb_spec (now - seen) T); [eauto|discriminate].
  - intros (seen & -> & Hle).
    destruct (Z.leb_spec (now - seen) T); [reflexivity|lia].
  - intros H (seen & E & Hle). rewrite E in H.
    destruct (Z.leb_spec (now - seen) T); [discriminate|lia].
  - intros H. destruct (DeviceSweep.last_seen d) as [seen|]; [|reflexivity].
    destruct (Z.leb_spec (now - seen) T); [|reflexivity].
    exfalso. apply H. eauto.
  - destruct (Z.leb_spec (now - (now - T - 1)) T); [lia|reflexivity].
  - destruct (Z.leb_spec (now - (now - T + 1)) T); [reflexivity|lia].
Qed.

(** ** Route protection *)

Section Routes.

Import AuthContext App.

Lemma includes_spec (requiredRoles : list string) (role : json) :
  includes requiredRoles role = true <->
  exists r, role = JString r /\ In r requiredRoles.
Proof.
  destruct role; simpl;
    try (split; [discriminate | intros (r & [=] & _)]).
  rewrite existsb_exists. split.
  - intros (r & Hin & Heq). apply String.eqb_eq in Heq. subst. eauto.
  - intros (r & [= <-] & Hin). exists s. split; [done|apply String.eqb_refl].
Qed.

Lemma ProtectedRoute_loaded children requiredRoles auth :
  loading auth = false ->
  ProtectedRoute children requiredRoles auth =
    match current_user auth with
    | None => Navigate "/login"
    | Some _ =>
        match requiredRoles with
        | [] => children
        | _ :: _ => if includes requiredRoles (userRole auth)
                    then children else Navigate "/unauthorized"
        end
    end.
Proof.
  intros Hl. unfold ProtectedRoute. rewrite Hl.
  destruct (current_user auth) as [u|]; simpl; [|reflexivity].
  destruct requiredRoles; simpl; [reflexivity|].
  by destruct (includes _ _).
Qed.

Lemma customer_not_admin : includes ["admin"] (JString "customer") = false.
Proof. reflexivity. Qed.

End Routes.

(** C9.  Once the session has loaded, a protected route redirects to
    /login without a user, to /unauthorized when roles are required and
    the user's role is not among them, and renders its page otherwise.
    No path of the route table renders the devices, drivers or clients
    page for the role customer, and the routes without required roles
    render their page for every authenticated user. *)
Theorem protected_route_outcomes
    (children : App.element) (requiredRoles : list string)
    (auth : AuthContext.auth_state) :
  AuthContext.loading auth = false ->
  (AuthContext.current_user auth = None ->
     App.ProtectedRoute children requiredRoles auth = App.Navigate "/login") /\
  (is_Some (AuthContext.current_user auth) ->
   requiredRoles <> [] ->
   ~ (exists r, AuthContext.userRole auth = JString r /\ In r requiredRoles) ->
     App.ProtectedRoute children requiredRoles auth = App.Navigate "/unauthorized") /\
  (is_Some (AuthContext.current_user auth) ->
   requiredRoles = [] \/
   (exists r, AuthContext.userRole auth = JString r /\ In r requiredRoles) ->
     App.ProtectedRoute children requiredRoles auth = children) /\
  (AuthContext.userRole auth = JString "customer" ->
   forall path c,
     In c [App.DevicesPage; App.DriversPage; App.ClientsPage] ->
     App.render path auth <> Some (App.page c)) /\
  (AuthContext.userRole auth = JString "customer" ->
   forall entry c,
     In entry App.routes ->
     In c [App.DevicesPage; App.DriversPage; App.ClientsPage] ->
     snd entry auth <> App.page c) /\
  (AuthContext.userRole auth = JString "customer" ->
   forall path, In path ["/devices"; "/drivers"; "/clients"] ->
     App.render path auth =
       Some (App.Navigate (match AuthContext.current_user auth with
                           | Some _ => "/unauthorized"
                           | None => "/login"
                           end))) /\
  (is_Some (AuthContext.current_user auth) ->
     App.render "/dashboard" auth = Some (App.page App.DashboardPage) /\
     App.render "/campaigns" auth = Some (App.page App.CampaignsPage) /\
     App.render "/analytics" auth = Some (App.page App.AnalyticsPage)).
Proof.
  intros Hl.
  pose proof (fun ch rr => ProtectedRoute_loaded ch rr auth Hl) as HP.
  split; [|split; [|split; [|split; [|split; [|split]]]]].
  - intros Hu. rewrite HP, Hu. reflexivity.
  - intros [u Hu] Hne Hnot. rewrite HP, Hu.
    destruct requiredRoles as [|r0 rs]; [done|].
    destruct (App.includes (r0 :: rs) _) eqn:E; [|done].
    apply includes_spec in E. contradiction.
  - intros [u Hu] Hor. rewrite HP, Hu.
    destruct requiredRoles as [|r0 rs]; [done|].
    destruct Hor as [|Hin]; [done|].
    apply includes_spec in Hin. by rewrite Hin.
  - intros Hrole path c Hc. unfold App.render, App.routes.
    cbn [App.lookup_route].
    repeat (destruct (String.eqb _ path);
            [rewrite ?HP, ?Hrole, ?customer_not_admin;
             destruct (AuthContext.current_user auth);
             intros Heq; simplify_eq; simpl in Hc; intuition discriminate|]).
    discriminate.
  - intros Hrole entry c Hentry Hc. unfold App.routes in Hentry.
    simpl in Hentry, Hc.
    repeat (destruct Hentry as [<-|Hentry];
            [simpl; rewrite ?HP, ?Hrole, ?customer_not_admin;
             destruct (AuthContext.current_user auth);
             intros Heq; simplify_eq; intuition discriminate|]).
    destruct Hentry.
  - intros Hrole path Hpath. unfold App.render.
    simpl in Hpath.
    destruct Hpath as [<-|[<-|[<-|[]]]]; simpl;
      rewrite HP, Hrole, customer_not_admin;
      by destruct (AuthContext.current_user auth).
  - intros [u Hu]. unfold App.render; simpl. rewrite !HP, Hu. done.
Qed.

Lemma protected_route_outcomes_witness :
  App.ProtectedRoute (App.page App.DevicesPage) ["admin"]
    (AuthContext.mkAuth None (Some (AuthContext.mkUser "u1" "a@b.c")) false
       (JString "customer"))
  = App.Navigate "/unauthorized".
Proof.
  refine (proj1 (proj2 (protected_route_outcomes
            (App.page App.DevicesPage) ["admin"]
            (AuthContext.mkAuth None (Some (AuthContext.mkUser "u1" "a@b.c")) false
               (JString "customer")) eq_refl)) _ _ _).
  - simpl. eauto.
  - discriminate.
  - simpl. intros (r & [= <-] & [[=]|[]]).
Defined.

(** ** Role derivation *)

Section Roles.

Import AuthContext.

Variable atob : string -> option string.
Variable JSON_parse : string -> option json.

Lemma or_customer_admin v :
  or_customer v = JString "admin" -> v = Some (JString "admin").
Proof.
  destruct v as [j|]; simpl; [|discriminate].
  destruct (json_truthy j); [congruence|discriminate].
Qed.

Lemma derive_role_undecodable token :
  decode_payload atob JSON_parse token = None ->
  derive_role atob JSON_parse token = customer.
Proof. unfold derive_role. by intros ->. Qed.

Lemma derive_role_no_claim token payload :
  decode_payload atob JSON_parse token = Some payload ->
  (forall v, ~ carries_user_role payload v) ->
  derive_role atob JSON_parse token = customer.
Proof.
  unfold derive_role. intros -> Hno.
  destruct payload as [| | | | |members]; try reflexivity. simpl.
  destruct (member "user_role" members) as [v|] eqn:E; [|reflexivity].
  exfalso. apply (Hno v). by exists members.
Qed.

Lemma derive_role_admin token :
  derive_role atob JSON_parse token = JString "admin" ->
  exists payload,
    decode_payload atob JSON_parse token = Some payload /\
    carries_user_role payload (JString "admin").
Proof.
  unfold derive_role.
  destruct (decode_payload atob JSON_parse token) as [payload|]; [|discriminate].
  intros H. exists payload. split; [reflexivity|].
  destruct payload as [| | | | |members]; try discriminate.
  simpl in H. apply or_customer_admin in H. by exists members.
Qed.

Lemma on_authStateChange_tokenless_null s st :
  tokenless_null (on_authStateChange atob JSON_parse s st).
Proof.
  unfold tokenless_null, on_authStateChange. simpl. by intros ->.
Qed.

Lemma run_changes_tokenless_null changes : forall st,
  tokenless_null st ->
  tokenless_null (run atob JSON_parse (map auth_state_changed changes) st).
Proof.
  induction changes as [|s changes IH]; intros st Hst; [done|].
  simpl. apply IH. apply on_authStateChange_tokenless_null.
Qed.

Lemma tokenless_session_null s changes :
  tokenless_null
    (run atob JSON_parse
       (session_resolved s :: map auth_state_changed changes) initial_auth).
Proof.
  simpl. apply run_changes_tokenless_null.
  unfold tokenless_null, on_getSession. simpl. by intros ->.
Qed.

End Roles.

(** What holds of the role derivation.  A session whose token payload
    cannot be decoded, or carries no [user_role] claim, gets the role
    customer (which is not admin) from both callbacks; the derived role
    is admin only when the payload carries [user_role] = admin.  Without
    a session the state-change callback sets the role to [null] and the
    mount-time callback leaves it as it is, which is [null] in the
    initial state; so after the mount-time resolution followed by any
    state changes, the role is [null] whenever the session held has no
    token. *)
Theorem role_defaults_to_customer
    (atob : string -> option string) (JSON_parse : string -> option json)
    (s : option AuthContext.session) (st : AuthContext.auth_state) :
  let derive := AuthContext.derive_role atob JSON_parse in
  let decode := AuthContext.decode_payload atob JSON_parse in
  let after_get := AuthContext.on_getSession atob JSON_parse s st in
  let after_change := AuthContext.on_authStateChange atob JSON_parse s st in
  (forall token, AuthContext.truthy_token s = Some token ->
     AuthContext.userRole after_get = derive token /\
     AuthContext.userRole after_change = derive token /\
     (decode token = None \/
      (exists payload, decode token = Some payload /\
                       forall v, ~ carries_user_role payload v) ->
      derive token = JString "customer" /\ derive token <> JString "admin") /\
     (derive token = JString "admin" ->
      exists payload, decode token = Some payload /\
                      carries_user_role payload (JString "admin"))) /\
  (AuthContext.truthy_token s = None ->
     AuthContext.userRole after_change = JNull /\
     AuthContext.userRole after_get = AuthContext.userRole st /\
     AuthContext.userRole
       (AuthContext.on_getSession atob JSON_parse s AuthContext.initial_auth) = JNull) /\
  (forall (changes : list (option AuthContext.session)),
     let final :=
       AuthContext.run atob JSON_parse
         (AuthContext.session_resolved s
          :: map AuthContext.auth_state_changed changes)
         AuthContext.initial_auth in
     AuthContext.truthy_token (AuthContext.current_session final) = None ->
     AuthContext.userRole final = JNull).
Proof.
  intros derive decode after_get after_change. split; [|split].
  - intros token Htok.
    unfold after_get, after_change, AuthContext.on_getSession,
      AuthContext.on_authStateChange. rewrite Htok. simpl.
    split; [reflexivity|]. split; [reflexivity|]. split.
    + intros Hcase.
      assert (Hc : derive token = AuthContext.customer).
      { destruct Hcase as [Hnone|(payload & Hsome & Hno)].
        - by apply derive_role_undecodable.
        - by apply (derive_role_no_claim atob JSON_parse token payload). }
      rewrite Hc. split; [reflexivity|discriminate].
    + apply derive_role_admin.
  - intros Hnone.
    unfold after_get, after_change, AuthContext.on_getSession,
      AuthContext.on_authStateChange. rewrite Hnone. by simpl.
  - intros changes final. unfold final. apply tokenless_session_null.
Qed.

Lemma role_defaults_to_customer_witness :
  AuthContext.userRole
    (AuthContext.on_authStateChange (fun text => Some text) (fun _ => None)
       (Some (AuthContext.mkSession (Some "head.body.sig") None))
       AuthContext.initial_auth)
  = JString "customer".
Proof.
  destruct (role_defaults_to_customer (fun text => Some text) (fun _ => None)
              (Some (AuthContext.mkSession (Some "head.body.sig") None))
              AuthContext.initial_auth) as [Htoken _].
  destruct (Htoken "head.body.sig" eq_refl) as (_ & Hchange & Hcustomer & _).
  rewrite Hchange. apply Hcustomer. left. reflexivity.
Defined.

(** C10.  The last part of the claim, no session means role [null], does
    not hold of the mount-time callback: [getSession().then] has no
    [else] branch, where the state-change callback next to it calls
    [setUserRole(null)].  When an auth state change delivers a session
    with an admin token and the [getSession] promise then resolves
    without a session, the provider holds no session and no user and
    still the role admin; had the same [null] session arrived through
    the state-change callback, the role would be [null]. *)
Theorem role_kept_after_null_resolution
    (atob : string -> option string) (JSON_parse : string -> option json)
    (s : AuthContext.session) (token : string) (role : json) :
  AuthContext.truthy_token (Some s) = Some token ->
  AuthContext.derive_role atob JSON_parse token = role ->
  let after_resolution :=
    AuthContext.run atob JSON_parse
      [AuthContext.auth_state_changed (Some s); AuthContext.session_resolved None]
      AuthContext.initial_auth in
  let after_change :=
    AuthContext.run atob JSON_parse
      [AuthContext.auth_state_changed (Some s); AuthContext.auth_state_changed None]
      AuthContext.initial_auth in
  AuthContext.current_session after_resolution = None /\
  AuthContext.current_user after_resolution = None /\
  AuthContext.loading after_resolution = false /\
  AuthContext.userRole after_resolution = role /\
  AuthContext.current_session after_change = None /\
  AuthContext.userRole after_change = JNull.
Proof.
  intros Htok Hrole.
  unfold AuthContext.run. cbn [fold_left AuthContext.step].
  unfold AuthContext.on_getSession, AuthContext.on_authStateChange.
  rewrite Htok. cbn [AuthContext.truthy_token AuthContext.userRole
    AuthContext.current_session AuthContext.current_user AuthContext.loading].
  by rewrite Hrole.
Qed.

Lemma role_kept_after_null_resolution_witness :
  AuthContext.userRole
    (AuthContext.run (fun text => Some text)
       (fun _ => Some (JObject [("user_role", JString "admin")]))
       [AuthContext.auth_state_changed
          (Some (AuthContext.mkSession (Some "head.body.sig")
                   (Some (AuthContext.mkUser "u1" "a@b.c"))));
        AuthContext.session_resolved None]
       AuthContext.initial_auth)
  = JString "admin".
Proof.
  refine (proj1 (proj2 (proj2 (proj2 (role_kept_after_null_resolution
            (fun text => Some text)
            (fun _ => Some (JObject [("user_role", JString "admin")]))
            (AuthContext.mkSession (Some "head.body.sig")
               (Some (AuthContext.mkUser "u1" "a@b.c")))
            "head.body.sig" (JString "admin") _ _))))); reflexivity.
Defined.

(** ** Campaign status changes *)

Section StatusChange.

Import CampaignsPage.

Lemma handleStatusChange_log campaignId newStatus update_ok st :
  omap (fun e => match e with
                 | api_updateStatus _ s => Some s
                 | _ => None
                 end)
       (log_of (handleStatusChange campaignId newStatus update_ok st))
  = [newStatus].
Proof. by destruct update_ok. Qed.

Lemma handleStatusChange_state campaignId newStatus update_ok st :
  state_of (handleStatusChange campaignId newStatus update_ok st) = st.
Proof. by destruct update_ok. Qed.

Lemma action_button_paused c :
  action_button c = "PAUSED" <->
  exists s, status c = Some s /\ toLowerCase s = "active".
Proof.
  unfold action_button. destruct (status c) as [s|].
  - destruct (String.eqb_spec (toLowerCase s) "active") as [E|E].
    + split; [eauto|done].
    + split; [discriminate|]. intros (s' & [= <-] & E'). contradiction.
  - split; [discriminate|]. intros (s' & [=] & _).
Qed.

Lemma action_button_choice c :
  action_button c = "PAUSED" \/ action_button c = "ACTIVE".
Proof.
  unfold action_button. destruct (status c) as [s|]; [|by right].
  destruct (String.eqb _ _); [by left|by right].
Qed.

End StatusChange.

(** C3, as stated, fails: for a COMPLETED campaign the card offers
    Activate, so the transition COMPLETED to ACTIVE is requested, which
    is not a transition of the lifecycle. *)
Lemma completed_campaign_can_be_activated :
  ~ (forall (c : CampaignsPage.campaign) (update_ok : bool)
            (st : CampaignsPage.page_state) (s : string),
       In s (CampaignsPage.requested c update_ok st) ->
       lifecycle (CampaignsPage.status c) s).
Proof.
  intros H.
  specialize (H (CampaignsPage.mkCampaign "c1" "Summer" (Some "COMPLETED"))
                true CampaignsPage.initial_page "ACTIVE").
  assert (Hin : In "ACTIVE"
            (CampaignsPage.requested
               (CampaignsPage.mkCampaign "c1" "Summer" (Some "COMPLETED"))
               true CampaignsPage.initial_page)) by (left; reflexivity).
  specialize (H Hin). inversion H.
Qed.

(** C3, amended.  A click on the action button of a campaign card sends
    exactly one status update.  The status asked for is PAUSED exactly
    when the campaign's status reads active in lower case, and ACTIVE
    for every other status: ACTIVE is asked for from SCHEDULED and from
    PAUSED, PAUSED from ACTIVE, and ACTIVE again from COMPLETED or from
    a missing status; SCHEDULED and COMPLETED are never asked for.
    [handleStatusChange] forwards the status it is given without looking
    at the current one; when the update succeeds it shows a success
    message and calls [loadData], which fetches the lists of the page
    again, and when it fails it shows an error message and does not
    reload.  The handler itself writes none of the four cells of state
    of the upload dialog (pending file, selected campaign, uploading
    flag, progress). *)
Theorem status_change_requests
    (c : CampaignsPage.campaign) (update_ok : bool)
    (st : CampaignsPage.page_state) (campaignId newStatus : string) :
  CampaignsPage.requested c update_ok st = [CampaignsPage.action_button c] /\
  CampaignsPage.state_of (CampaignsPage.onClick_action c update_ok st) = st /\
  (CampaignsPage.action_button c = "PAUSED" <->
     exists s, CampaignsPage.status c = Some s /\ toLowerCase s = "active") /\
  (CampaignsPage.action_button c = "ACTIVE" <->
     ~ exists s, CampaignsPage.status c = Some s /\ toLowerCase s = "active") /\
  CampaignsPage.action_button
    (CampaignsPage.mkCampaign (CampaignsPage.id c) (CampaignsPage.name c)
       (Some "SCHEDULED")) = "ACTIVE" /\
  CampaignsPage.action_button
    (CampaignsPage.mkCampaign (CampaignsPage.id c) (CampaignsPage.name c)
       (Some "PAUSED")) = "ACTIVE" /\
  CampaignsPage.action_button
    (CampaignsPage.mkCampaign (CampaignsPage.id c) (CampaignsPage.name c)
       (Some "ACTIVE")) = "PAUSED" /\
  CampaignsPage.action_button
    (CampaignsPage.mkCampaign (CampaignsPage.id c) (CampaignsPage.name c)
       (Some "COMPLETED")) = "ACTIVE" /\
  CampaignsPage.action_button
    (CampaignsPage.mkCampaign (CampaignsPage.id c) (CampaignsPage.name c) None)
    = "ACTIVE" /\
  CampaignsPage.action_button c <> "SCHEDULED" /\
  CampaignsPage.action_button c <> "COMPLETED" /\
  CampaignsPage.log_of
    (CampaignsPage.handleStatusChange campaignId newStatus update_ok st)
  = CampaignsPage.api_updateStatus campaignId newStatus
      :: (if update_ok
          then [CampaignsPage.toast_success
                  ("Campaign " ++ toLowerCase newStatus ++ "!");
                CampaignsPage.reload_data]
          else [CampaignsPage.toast_error "Failed to update status"]).
Proof.
  split; [apply handleStatusChange_log|].
  split; [apply handleStatusChange_state|].
  split; [apply action_button_paused|].
  split.
  { rewrite <- action_button_paused.
    destruct (action_button_choice c) as [E|E]; rewrite E; split;
      try done; intros H; first [discriminate | by exfalso; apply H]. }
  do 5 (split; [reflexivity|]).
  split; [destruct (action_button_choice c) as [E|E]; rewrite E; discriminate|].
  split; [destruct (action_button_choice c) as [E|E]; rewrite E; discriminate|].
  by destruct update_ok.
Qed.

(** ** Ad upload *)

(** C8.  A selected file whose MIME type does not start with video/ or
    whose size exceeds 100 MB is rejected on the spot: the handler shows
    one error message, sends nothing over the network and leaves the
    page state, and with it the previously selected file, unchanged, so
    that a later upload sends what it would have sent before. *)
Theorem invalid_file_rejected
    (f : CampaignsPage.file) (st : CampaignsPage.page_state) :
  startsWith "video/" (CampaignsPage.file_type f) = false \/
  100 * 1024 * 1024 < CampaignsPage.file_size f ->
  let r := CampaignsPage.handleFileSelect (Some f) st in
  CampaignsPage.state_of r = st /\
  CampaignsPage.adFormData (CampaignsPage.state_of r) = CampaignsPage.adFormData st /\
  (exists msg, CampaignsPage.log_of r = [CampaignsPage.toast_error msg]) /\
  Forall (fun e => CampaignsPage.is_network e = false) (CampaignsPage.log_of r) /\
  forall upload_ok elapsed,
    CampaignsPage.handleUploadAd upload_ok elapsed (CampaignsPage.state_of r) =
    CampaignsPage.handleUploadAd upload_ok elapsed st.
Proof.
  intros Hbad r.
  assert (Hr : r = (tt, st, [CampaignsPage.toast_error "Please select a video file"]) \/
               r = (tt, st, [CampaignsPage.toast_error "File size must be less than 100MB"])).
  { unfold r, CampaignsPage.handleFileSelect.
    destruct (startsWith "video/" (CampaignsPage.file_type f)); simpl.
    - destruct Hbad as [|Hbig]; [discriminate|].
      unfold CampaignsPage.MAX_FILE_SIZE.
      destruct (Z.ltb_spec (100 * 1024 * 1024) (CampaignsPage.file_size f)); [|lia].
      by right.
    - by left. }
  destruct Hr as [-> | ->]; unfold CampaignsPage.state_of, CampaignsPage.log_of;
    simpl; repeat split; eauto.
Qed.

Lemma invalid_file_rejected_witness :
  CampaignsPage.state_of
    (CampaignsPage.handleFileSelect
       (Some (CampaignsPage.mkFile "notes.pdf" "application/pdf" 2048))
       CampaignsPage.initial_page)
  = CampaignsPage.initial_page.
Proof.
  refine (proj1 (invalid_file_rejected
                   (CampaignsPage.mkFile "notes.pdf" "application/pdf" 2048)
                   CampaignsPage.initial_page _)).
  left. reflexivity.
Defined.

(** A file that passes both checks becomes the pending file, silently. *)
Lemma valid_file_accepted (f : CampaignsPage.file) (st : CampaignsPage.page_state) :
  startsWith "video/" (CampaignsPage.file_type f) = true ->
  CampaignsPage.file_size f <= 100 * 1024 * 1024 ->
  let r := CampaignsPage.handleFileSelect (Some f) st in
  CampaignsPage.ad_file (CampaignsPage.adFormData (CampaignsPage.state_of r)) = Some f /\
  CampaignsPage.duration (CampaignsPage.adFormData (CampaignsPage.state_of r))
    = CampaignsPage.duration (CampaignsPage.adFormData st) /\
  CampaignsPage.log_of r = [].
Proof.
  intros Hv Hs r. unfold r, CampaignsPage.handleFileSelect. rewrite Hv. simpl.
  unfold CampaignsPage.MAX_FILE_SIZE.
  destruct (Z.ltb_spec (100 * 1024 * 1024) (CampaignsPage.file_size f)); [lia|].
  by cbv.
Qed.

(** The only request [handleUploadAd] sends carries the pending file. *)
Lemma ticks_run (n : nat) (st : CampaignsPage.page_state) :
  CampaignsPage.ticks n st
  = (tt,
     CampaignsPage.mkPage (CampaignsPage.adFormData st) (CampaignsPage.selectedCampaign st)
       (CampaignsPage.isUploading st)
       (Nat.iter n CampaignsPage.progress_tick (CampaignsPage.uploadProgress st)),
     []).
Proof.
  revert st. induction n as [|n IH]; intros st; [by destruct st|].
  cbn [CampaignsPage.ticks]. unfold CampaignsPage.bind, CampaignsPage.tick,
    CampaignsPage.modify. rewrite IH. cbn -[Nat.iter].
  by rewrite Nat.iter_succ_r.
Qed.

(** What [handleUploadAd] does with a pending file and a selected
    campaign, step by step. *)
Lemma handleUploadAd_run (upload_ok : bool) (elapsed : nat)
    (st : CampaignsPage.page_state) (f : CampaignsPage.file)
    (c : CampaignsPage.campaign) :
  CampaignsPage.ad_file (CampaignsPage.adFormData st) = Some f ->
  CampaignsPage.selectedCampaign st = Some c ->
  CampaignsPage.handleUploadAd upload_ok elapsed st
  = (tt,
     CampaignsPage.mkPage
       (if upload_ok then CampaignsPage.mkAdForm None 30 else CampaignsPage.adFormData st)
       (Some c) false 0,
     [CampaignsPage.setInterval_progress;
      CampaignsPage.api_uploadAd (CampaignsPage.id c) f
        (CampaignsPage.duration (CampaignsPage.adFormData st))]
     ++ (if upload_ok
         then [CampaignsPage.clearInterval_progress;
               CampaignsPage.toast_success "Video uploaded successfully!";
               CampaignsPage.reload_campaignAds (CampaignsPage.id c);
               CampaignsPage.reload_data]
         else [CampaignsPage.toast_error "Failed to upload video"])).
Proof.
  intros Hf Hc. unfold CampaignsPage.handleUploadAd.
  unfold CampaignsPage.bind at 1. unfold CampaignsPage.get. rewrite Hf, Hc.
  unfold CampaignsPage.bind, CampaignsPage.setIsUploading,
    CampaignsPage.setUploadProgress, CampaignsPage.setAdFormData,
    CampaignsPage.modify, CampaignsPage.emit.
  rewrite ticks_run. destruct upload_ok; cbn; by rewrite Hc.
Qed.

Lemma handleUploadAd_guard (upload_ok : bool) (elapsed : nat)
    (st : CampaignsPage.page_state) :
  CampaignsPage.ad_file (CampaignsPage.adFormData st) = None \/
  CampaignsPage.selectedCampaign st = None ->
  CampaignsPage.handleUploadAd upload_ok elapsed st
  = (tt, st, [CampaignsPage.toast_error "Please select a video file"]).
Proof.
  intros H. unfold CampaignsPage.handleUploadAd, CampaignsPage.bind, CampaignsPage.get.
  destruct (CampaignsPage.ad_file (CampaignsPage.adFormData st)) as [g|];
    destruct (CampaignsPage.selectedCampaign st) as [c|]; try done;
    destruct H; discriminate.
Qed.

(** The only request [handleUploadAd] sends carries the pending file. *)
Lemma upload_sends_pending_file (upload_ok : bool) (elapsed : nat)
    (st : CampaignsPage.page_state)
    (campaignId : string) (f : CampaignsPage.file) (d : Z) :
  In (CampaignsPage.api_uploadAd campaignId f d)
     (CampaignsPage.log_of (CampaignsPage.handleUploadAd upload_ok elapsed st)) ->
  CampaignsPage.ad_file (CampaignsPage.adFormData st) = Some f.
Proof.
  destruct (CampaignsPage.ad_file (CampaignsPage.adFormData st)) as [g|] eqn:Eg;
    [|rewrite handleUploadAd_guard by auto; simpl; intros [[=]|[]]].
  destruct (CampaignsPage.selectedCampaign st) as [c|] eqn:Ec;
    [|rewrite handleUploadAd_guard by auto; simpl; intros [[=]|[]]].
  rewrite (handleUploadAd_run upload_ok elapsed st g c Eg Ec).
  destruct upload_ok; simpl; intuition congruence.
Qed.

(** ** CSV export: shape *)

Section Strings.

#[local] Arguments String.append : simpl nomatch.

Lemma append_nil_r (s : string) : (s ++ EmptyString)%string = s.
Proof. induction s as [|c s IH]; simpl; congruence. Qed.

Lemma append_assoc (a b c : string) :
  ((a ++ b) ++ c)%string = (a ++ (b ++ c))%string.
Proof. induction a as [|d a IH]; simpl; congruence. Qed.

Lemma snoc_append (fld : string) (c : ascii) (s : string) :
  (Rfc4180.snoc fld c ++ s)%string = (fld ++ String c s)%string.
Proof. unfold Rfc4180.snoc. by rewrite append_assoc. Qed.

Lemma includes_char_append c (a b : string) :
  includes_char c (a ++ b)%string
  = (includes_char c a || includes_char c b)%bool.
Proof.
  induction a as [|d a IH]; simpl; [done|].
  destruct (Ascii.eqb d c); [done|apply IH].
Qed.

Lemma join_cons (sep x : string) (l : list string) :
  l <> [] -> join sep (x :: l) = (x ++ sep ++ join sep l)%string.
Proof. by destruct l. Qed.

Lemma concat_empty_cons (x : string) (l : list string) :
  String.concat EmptyString (x :: l)
  = (x ++ String.concat EmptyString l)%string.
Proof. destruct l; simpl; [by rewrite append_nil_r|done]. Qed.

Lemma doubled_double_quotes (s : string) : doubled s = Api.double_quotes s.
Proof.
  unfold doubled. induction s as [|c s IH]; [done|].
  cbn [list_ascii_of_string map Api.double_quotes].
  rewrite concat_empty_cons, IH.
  by destruct (Ascii.eqb c dquote).
Qed.

Lemma needs_quoting_includes (s : string) :
  needs_quoting s = (includes_char comma s || includes_char dquote s)%bool.
Proof.
  unfold needs_quoting. induction s as [|c s IH]; [done|].
  cbn [list_ascii_of_string existsb includes_char]. rewrite IH.
  destruct (Ascii.eqb c comma), (Ascii.eqb c dquote); simpl;
    by rewrite ?orb_true_r.
Qed.

Lemma cell_quoted_text (v : Api.value) :
  Api.element_text (Api.cell v) = quoted_text v.
Proof.
  destruct v as [| |[]|z|s]; try reflexivity.
  simpl. rewrite needs_quoting_includes, doubled_double_quotes.
  by destruct (includes_char comma s || includes_char dquote s)%bool.
Qed.

End Strings.

(** The lines of a text are what [split] at LF gives.  Rows without a
    line break of their own, joined by LF, are the lines of the text. *)
Section Lines.

#[local] Arguments String.append : simpl nomatch.

Lemma split_no_separator c s : includes_char c s = false -> split c s = [s].
Proof.
  induction s as [|d s IH]; simpl; [done|].
  destruct (Ascii.eqb d c); [discriminate|]. intros H. by rewrite IH.
Qed.

Lemma split_append c x rest :
  includes_char c x = false ->
  split c (x ++ String c rest) = x :: split c rest.
Proof.
  induction x as [|d x IH]; simpl.
  - intros _. by rewrite Ascii.eqb_refl.
  - destruct (Ascii.eqb d c); [discriminate|]. intros H. by rewrite IH.
Qed.

Lemma split_join_lines (rows : list string) :
  rows <> [] ->
  Forall (fun row => includes_char LF row = false) rows ->
  split LF (join Api.newline rows) = rows.
Proof.
  induction rows as [|row rows IH]; intros Hne Hall; [done|].
  apply Forall_cons_1 in Hall as [Hrow Hall].
  destruct (decide (rows = [])) as [->|Hrows].
  - by apply split_no_separator.
  - rewrite join_cons by done. unfold Api.newline at 1. simpl String.append.
    rewrite split_append by done. by rewrite IH.
Qed.

End Lines.

(** C5, as stated, fails on the empty sequence: the export of no record
    is the empty text, not a header line. *)
Lemma empty_export_has_no_header :
  ~ (forall (fields : list Api.field_selector)
            (items : list (gmap string Api.value)),
       Api.convertToCSV (Some items) fields = csv_document fields items).
Proof.
  intros H.
  specialize (H [Api.mkField "id" "Impression ID"] []).
  vm_compute in H. discriminate H.
Qed.

(** A value with a line break and neither comma nor quote is written as
    it is, and its row takes two lines of the text. *)
Lemma line_break_adds_a_line :
  split LF
    (Api.convertToCSV
       (Some [ {[ "campaign_name" := Api.VString ("Spring" ++ String LF "Sale") ]} ])
       [Api.mkField "campaign_name" "Campaign"])
  = ["Campaign"; "Spring"; "Sale"].
Proof. vm_compute. reflexivity. Qed.

(** C5, amended.  For a non-empty sequence of records the export is the
    header row of the labels followed by one row per record, rows
    joined by LF and cells by commas; a string holding a comma or a
    quote is wrapped in quotes with its quotes doubled, [null] and
    [undefined] give the empty text and every other value is written as
    it is.  When no row holds a line break the rows are the lines of the
    text, so that it has exactly one line per record after the header
    line.  For an empty, [null] or [undefined] sequence the export is
    the empty text. *)
Theorem export_shape
    (fields : list Api.field_selector)
    (item : gmap string Api.value) (items : list (gmap string Api.value)) :
  Api.convertToCSV (Some (item :: items)) fields
    = csv_document fields (item :: items) /\
  length (csv_lines fields (item :: items)) = S (length (item :: items)) /\
  (Forall (fun row => includes_char LF row = false) (csv_lines fields (item :: items)) ->
   split LF (Api.convertToCSV (Some (item :: items)) fields)
   = csv_lines fields (item :: items) /\
   length (split LF (Api.convertToCSV (Some (item :: items)) fields))
   = S (length (item :: items))) /\
  Api.convertToCSV (Some []) fields = EmptyString /\
  Api.convertToCSV None fields = EmptyString.
Proof.
  assert (Hdoc : Api.convertToCSV (Some (item :: items)) fields
                 = csv_document fields (item :: items)).
  { unfold Api.convertToCSV, csv_document, csv_lines.
    f_equal. f_equal. apply map_ext. intros it.
    f_equal. apply map_ext. intros f. apply cell_quoted_text. }
  assert (Hlen : length (csv_lines fields (item :: items)) = S (length (item :: items))).
  { unfold csv_lines. simpl. by rewrite length_map. }
  split; [exact Hdoc|]. split; [exact Hlen|]. split; [|split; reflexivity].
  intros Hrows. rewrite Hdoc. unfold csv_document.
  rewrite split_join_lines by done. by split.
Qed.

Lemma export_shape_witness :
  split LF
    (Api.convertToCSV
       (Some [ {[ "name" := Api.VString "Acme, Inc." ]}; {[ "name" := Api.VString "plain" ]} ])
       [Api.mkField "name" "Client"])
  = csv_lines [Api.mkField "name" "Client"]
      [ {[ "name" := Api.VString "Acme, Inc." ]}; {[ "name" := Api.VString "plain" ]} ].
Proof.
  destruct (export_shape [Api.mkField "name" "Client"]
              {[ "name" := Api.VString "Acme, Inc." ]}
              [ {[ "name" := Api.VString "plain" ]} ]) as (_ & _ & H & _).
  apply H. repeat constructor.
Defined.

(** ** CSV export: reading it back *)

Section RoundTrip.

#[local] Arguments String.append : simpl nomatch.

Import Rfc4180.

Lemma plain_text_cons c s :
  plain_text (String c s) = true ->
  Ascii.eqb c comma = false /\ Ascii.eqb c dquote = false /\
  Ascii.eqb c LF = false /\ Ascii.eqb c CR = false /\ plain_text s = true.
Proof.
  unfold plain_text. simpl.
  destruct (Ascii.eqb c comma), (Ascii.eqb c dquote),
    (Ascii.eqb c LF), (Ascii.eqb c CR); simpl;
    rewrite ?orb_true_r; try discriminate; auto.
Qed.

(** Reading on through the text of an unquoted field. *)
Lemma unquoted_run s : forall fld row rows rest,
  plain_text s = true ->
  parse_go Unquoted fld row rows (s ++ rest)
  = parse_go Unquoted (fld ++ s) row rows rest.
Proof.
  induction s as [|c s IH]; intros fld row rows rest Hs; simpl.
  - by rewrite append_nil_r.
  - destruct (plain_text_cons _ _ Hs) as (-> & -> & -> & -> & Hs').
    rewrite IH by done. by rewrite snoc_append.
Qed.

(** A plain text read from the start of a field. *)
Lemma plain_field s row rows rest :
  plain_text s = true ->
  exists st, at_boundary st s /\
    parse_go FieldStart EmptyString row rows (s ++ rest)
    = parse_go st s row rows rest.
Proof.
  intros Hs. destruct s as [|c s].
  - exists FieldStart. split; [by left|done].
  - exists Unquoted. split; [by right; left|]. simpl.
    destruct (plain_text_cons _ _ Hs) as (-> & -> & -> & -> & Hs').
    by rewrite unquoted_run.
Qed.

(** Reading on through a quoted field up to its closing quote. *)
Lemma quoted_run s : forall fld row rows rest,
  parse_go Quoted fld row rows (Api.double_quotes s ++ String dquote rest)
  = parse_go QuoteSeen (fld ++ s) row rows rest.
Proof.
  induction s as [|c s IH]; intros fld row rows rest; simpl.
  - by rewrite append_nil_r.
  - destruct (Ascii.eqb c dquote) eqn:E; simpl.
    + apply Ascii.eqb_eq in E. subst c. simpl.
      rewrite IH. by rewrite snoc_append.
    + rewrite E, IH. by rewrite snoc_append.
Qed.

Lemma quoted_field s row rows rest :
  parse_go FieldStart EmptyString row rows
    (String dquote (Api.double_quotes s ++ String dquote EmptyString) ++ rest)
  = parse_go QuoteSeen s row rows rest.
Proof.
  simpl. rewrite append_assoc. simpl. apply quoted_run.
Qed.

(** What the three separators do at the end of a field. *)
Lemma boundary_comma st fld row rows rest :
  at_boundary st fld ->
  parse_go st fld row rows (String comma rest)
  = parse_go FieldStart EmptyString (row ++ [fld]) rows rest.
Proof. by intros [[-> ->]|[->| ->]]. Qed.

Lemma boundary_newline st fld row rows rest :
  at_boundary st fld ->
  parse_go st fld row rows (String LF rest)
  = parse_go FieldStart EmptyString [] (rows ++ [row ++ [fld]]) rest.
Proof. by intros [[-> ->]|[->| ->]]. Qed.

Lemma boundary_end st fld row rows :
  at_boundary st fld ->
  row ++ [fld] <> [EmptyString] ->
  parse_go st fld row rows EmptyString = Some (rows ++ [row ++ [fld]]).
Proof.
  intros [[-> ->]|[->| ->]] Hne; [|done|done].
  destruct row; [done|reflexivity].
Qed.

(** Decimal numerals are plain. *)
Lemma digit_not_special d :
  pretty_N_char d <> comma /\ pretty_N_char d <> dquote /\
  pretty_N_char d <> LF /\ pretty_N_char d <> CR.
Proof. unfold pretty_N_char. repeat case_match; by repeat split. Qed.

Lemma includes_char_pretty_N_go c x : forall s,
  (forall d, pretty_N_char d <> c) ->
  includes_char c (pretty_N_go x s) = includes_char c s.
Proof.
  induction (N.lt_wf_0 x) as [x _ IH]; intros s Hc.
  destruct (decide (x = 0)%N) as [->|Hx]; [by rewrite pretty_N_go_0|].
  rewrite pretty_N_go_step by lia.
  rewrite IH by (done || apply N.div_lt; lia). simpl.
  destruct (Ascii.eqb_spec (pretty_N_char (x `mod` 10)%N) c) as [E|_]; [|done].
  by destruct (Hc _ E).
Qed.

Lemma plain_text_pretty_N (x : N) : plain_text (pretty x) = true.
Proof.
  unfold pretty, pretty_N. case_decide; [done|].
  unfold plain_text.
  rewrite !includes_char_pretty_N_go; [done|..]; intros d; apply digit_not_special.
Qed.

Lemma plain_text_pretty_Z (z : Z) : plain_text (pretty z) = true.
Proof.
  destruct z as [|p|p]; [done|apply plain_text_pretty_N|].
  change (pretty (Z.neg p)) with (String "-"%char (pretty (N.pos p))).
  pose proof (plain_text_pretty_N (N.pos p)) as H.
  unfold plain_text in *. simpl. exact H.
Qed.

(** A string that survives and is not quoted is plain. *)
Lemma survives_unquoted s :
  survives s = true ->
  (includes_char comma s || includes_char dquote s)%bool = false ->
  plain_text s = true.
Proof.
  unfold survives, plain_text, has_line_break.
  destruct (includes_char comma s), (includes_char dquote s),
    (includes_char LF s), (includes_char CR s); simpl; congruence.
Qed.

(** One cell, read from the start of a field, leaves the reader at the
    end of a field holding the text of the original value. *)
Lemma cell_read v row rows rest :
  value_survives v = true ->
  exists st, at_boundary st (Api.element_text v) /\
    parse_go FieldStart EmptyString row rows
      (Api.element_text (Api.cell v) ++ rest)
    = parse_go st (Api.element_text v) row rows rest.
Proof.
  intros Hv. destruct v as [| |b|z|s].
  - by apply (plain_field EmptyString).
  - by apply (plain_field EmptyString).
  - apply plain_field. by destruct b.
  - apply plain_field. apply plain_text_pretty_Z.
  - cbn [Api.cell Api.element_text].
    destruct (includes_char comma s || includes_char dquote s)%bool eqn:Q;
      cbn [Api.element_text].
    + exists QuoteSeen. split; [by right; right|apply quoted_field].
    + apply plain_field. by apply survives_unquoted.
Qed.

(** The line of one record. *)
Lemma line_read vs : forall row rows rest,
  vs <> [] ->
  Forall (fun v => value_survives v = true) vs ->
  exists st fld row',
    at_boundary st fld /\
    row' ++ [fld] = row ++ map Api.element_text vs /\
    parse_go FieldStart EmptyString row rows
      (join "," (map (fun v => Api.element_text (Api.cell v)) vs) ++ rest)
    = parse_go st fld row' rows rest.
Proof.
  induction vs as [|v vs IH]; intros row rows rest Hne Hall; [done|].
  apply Forall_cons_1 in Hall as [Hv Hall].
  destruct (decide (vs = [])) as [->|Hvs].
  - destruct (cell_read v row rows rest Hv) as (st & Hb & Heq).
    exists st, (Api.element_text v), row. by repeat split.
  - cbn [map]. rewrite join_cons by (by destruct vs).
    rewrite !append_assoc.
    destruct (cell_read v row rows
                ("," ++
                 (join "," (map (fun v => Api.element_text (Api.cell v)) vs)
                  ++ rest))%string Hv) as (st & Hb & ->).
    simpl String.append. rewrite (boundary_comma st) by done.
    destruct (IH (row ++ [Api.element_text v]) rows rest) as
      (st' & fld' & row' & Hb' & Hrow & ->); [done|done|].
    exists st', fld', row'. repeat split; [done|].
    rewrite Hrow. by rewrite <- app_assoc.
Qed.

(** The lines of the records, one after the other. *)
Lemma lines_read (ls : list (list Api.value)) : forall rows,
  ls <> [] ->
  Forall (fun vs => vs <> [] /\ Forall (fun v => value_survives v = true) vs) ls ->
  (forall vs, list.last ls = Some vs -> map Api.element_text vs <> [EmptyString]) ->
  parse_go FieldStart EmptyString [] rows
    (join Api.newline
       (map (fun vs => join "," (map (fun v => Api.element_text (Api.cell v)) vs)) ls))
  = Some (rows ++ map (map Api.element_text) ls).
Proof.
  induction ls as [|vs ls IH]; intros rows Hne Hall Hlast; [done|].
  apply Forall_cons_1 in Hall as [[Hvs Hsurv] Hall].
  destruct (decide (ls = [])) as [->|Hls].
  - cbn [map join].
    rewrite <- (append_nil_r (join "," _)).
    destruct (line_read vs [] rows EmptyString Hvs Hsurv)
      as (st & fld & row' & Hb & Hrow & ->).
    rewrite (boundary_end st); [by rewrite Hrow|done|].
    rewrite Hrow. by apply Hlast.
  - cbn [map]. rewrite join_cons by (by destruct ls).
    destruct (line_read vs [] rows
                (Api.newline ++
                 join Api.newline
                   (map (fun vs => join "," (map (fun v => Api.element_text (Api.cell v)) vs))
                      ls))%string Hvs Hsurv)
      as (st & fld & row' & Hb & Hrow & ->).
    unfold Api.newline at 1. simpl String.append.
    rewrite (boundary_newline st) by done.
    rewrite IH; [|done|done|].
    + rewrite Hrow. cbn [app]. by rewrite <- app_assoc.
    + intros vs' Hvs'. apply Hlast. by destruct ls.
Qed.

(** The header line: labels without quote or line break, possibly with
    commas of their own. *)
Lemma plain_label_cons c h :
  plain_label (String c h) = true ->
  Ascii.eqb c dquote = false /\ Ascii.eqb c LF = false /\
  Ascii.eqb c CR = false /\ plain_label h = true.
Proof.
  unfold plain_label, has_line_break. simpl.
  destruct (Ascii.eqb c dquote), (Ascii.eqb c LF), (Ascii.eqb c CR); simpl;
    rewrite ?orb_true_r; try discriminate; auto.
Qed.

Lemma header_read h : forall st fld row,
  plain_label h = true ->
  (st = FieldStart /\ fld = EmptyString) \/ st = Unquoted ->
  exists st' fld' row',
    at_boundary st' fld' /\
    forall rows rest,
      parse_go st fld row rows (h ++ rest) = parse_go st' fld' row' rows rest.
Proof.
  induction h as [|c h IH]; intros st fld row Hh Hst.
  - exists st, fld, row. split; [|done].
    destruct Hst as [[-> ->]| ->]; [by left|by right; left].
  - destruct (plain_label_cons _ _ Hh) as (Hq & Hl & Hr & Hh').
    destruct (Ascii.eqb c comma) eqn:Hc.
    + destruct (IH FieldStart EmptyString (row ++ [fld]) Hh') as
        (st' & fld' & row' & Hb & Heq); [by left|].
      exists st', fld', row'. split; [done|]. intros rows rest.
      rewrite <- Heq. simpl.
      destruct Hst as [[-> ->]| ->]; by rewrite Hq, Hc.
    + destruct (IH Unquoted (snoc fld c) row Hh') as
        (st' & fld' & row' & Hb & Heq); [by right|].
      exists st', fld', row'. split; [done|]. intros rows rest.
      rewrite <- Heq. simpl.
      destruct Hst as [[-> ->]| ->]; by rewrite Hq, Hc, Hl, Hr.
Qed.

Lemma includes_char_join c (l : list string) :
  Ascii.eqb comma c = false ->
  Forall (fun x => includes_char c x = false) l ->
  includes_char c (join "," l) = false.
Proof.
  intros Hc. unfold comma in Hc.
  induction l as [|x l IH]; intros Hall; [done|].
  apply Forall_cons_1 in Hall as [Hx Hall].
  destruct (decide (l = [])) as [->|Hl]; [done|].
  rewrite join_cons by done.
  rewrite !includes_char_append, Hx, IH by done.
  cbn [includes_char orb]. by rewrite Hc.
Qed.

Lemma plain_label_join (labels : list string) :
  Forall (fun x => plain_label x = true) labels ->
  plain_label (join "," labels) = true.
Proof.
  intros Hall.
  assert (H : forall c, Ascii.eqb comma c = false ->
                (forall x, plain_label x = true -> includes_char c x = false) ->
                includes_char c (join "," labels) = false).
  { intros c Hc Hx. apply includes_char_join; [done|].
    eapply List.Forall_impl; [|exact Hall]. exact Hx. }
  unfold plain_label, has_line_break.
  rewrite (H LF), (H CR), (H dquote); [done|..]; try done;
    intros x; unfold plain_label, has_line_break;
    destruct (includes_char LF x), (includes_char CR x),
      (includes_char dquote x); simpl; congruence.
Qed.

End RoundTrip.

(** C4, as stated, fails: a value with a line break and neither comma
    nor quote is written unquoted, and the reader takes the line break
    for the end of the record. *)
Lemma line_break_splits_record :
  ~ (forall (fields : list Api.field_selector)
            (items : list (gmap string Api.value)),
       strings_only fields items ->
       exists hdr,
         Rfc4180.parse (Api.convertToCSV (Some items) fields)
         = Some (hdr :: map (selected_text fields) items)).
Proof.
  intros H.
  destruct (H [Api.mkField "campaign_name" "Campaign"]
              [{[ "campaign_name" := Api.VString ("Spring" ++ String LF "Sale") ]}])
    as [hdr Hparse].
  - repeat constructor. eexists. apply lookup_singleton_eq.
  - vm_compute in Hparse. discriminate Hparse.
Qed.

(** C4, amended.  Take a non-empty list of field selectors whose labels
    hold neither a quote nor a line break, and a non-empty list of
    records in which every selected string either has no line break
    (CR, LF) or holds a comma or a quote, and whose last record is not
    written as an empty line (there are two selectors or more, or the
    one selected value of the last record has a non-empty text).
    Reading the export back gives a header row followed, record by
    record and field by field, by the text of the selected values:
    strings as they were, [null] and [undefined] as the empty text,
    integers and booleans in their printed form. *)
Theorem export_reads_back
    (fields : list Api.field_selector) (items : list (gmap string Api.value)) :
  fields <> [] ->
  items <> [] ->
  Forall (fun f => plain_label (Api.label f) = true) fields ->
  Forall (fun item =>
            Forall (fun f => value_survives (Api.prop item (Api.key f)) = true) fields)
         items ->
  (forall item, list.last items = Some item ->
                selected_text fields item <> [EmptyString]) ->
  exists hdr,
    Rfc4180.parse (Api.convertToCSV (Some items) fields)
    = Some (hdr :: map (selected_text fields) items).
Proof.
  intros Hfields Hitems Hlabels Hvalues Hlast.
  set (ls := map (fun item => map (fun f => Api.prop item (Api.key f)) fields) items).
  assert (Hcsv : Api.convertToCSV (Some items) fields
                 = (join "," (map Api.label fields) ++ Api.newline ++
                    join Api.newline
                      (map (fun vs => join "," (map (fun v => Api.element_text (Api.cell v)) vs))
                         ls))%string).
  { unfold Api.convertToCSV. destruct items as [|item items]; [done|].
    rewrite join_cons by done. do 3 f_equal.
    unfold ls. rewrite map_map. apply map_ext. intros it.
    by rewrite map_map. }
  destruct (header_read (join "," (map Api.label fields))
              Rfc4180.FieldStart EmptyString [])
    as (st & fld & row & Hb & Hheader).
  { apply plain_label_join. by apply Forall_fmap. }
  { by left. }
  exists (row ++ [fld]).
  unfold Rfc4180.parse. rewrite Hcsv, Hheader.
  unfold Api.newline at 1. change (String LF EmptyString ++ ?t)%string with (String LF t).
  rewrite (boundary_newline st) by done.
  rewrite lines_read.
  - simpl. f_equal. f_equal. unfold ls, selected_text.
    rewrite map_map. apply map_ext. intros it. by rewrite map_map.
  - unfold ls. by destruct items.
  - unfold ls. apply Forall_fmap. eapply List.Forall_impl; [|exact Hvalues].
    intros it Hit. simpl. split; [by destruct fields|].
    by apply Forall_fmap.
  - intros vs Hvs. unfold ls in Hvs.
    change (map ?f items) with (f <$> items) in Hvs.
    rewrite fmap_last in Hvs.
    destruct (list.last items) as [item|] eqn:E; [|done].
    injection Hvs as <-. rewrite map_map. by apply Hlast.
Qed.

Lemma export_reads_back_witness :
  exists hdr,
    Rfc4180.parse
      (Api.convertToCSV
         (Some [ <["name" := Api.VString "Acme, Inc."]>
                   (<["note" := Api.VString (String dquote "hi")]> ∅);
                 <["name" := Api.VString "plain"]> ∅ ])
         [Api.mkField "name" "Client"; Api.mkField "note" "Note"])
    = Some (hdr ::
            map (selected_text [Api.mkField "name" "Client"; Api.mkField "note" "Note"])
              [ <["name" := Api.VString "Acme, Inc."]>
                  (<["note" := Api.VString (String dquote "hi")]> ∅);
                <["name" := Api.VString "plain"]> ∅ ]).
Proof.
  apply (export_reads_back
           [Api.mkField "name" "Client"; Api.mkField "note" "Note"]
           [ <["name" := Api.VString "Acme, Inc."]>
               (<["note" := Api.VString (String dquote "hi")]> ∅);
             <["name" := Api.VString "plain"]> ∅ ]).
  - discriminate.
  - discriminate.
  - repeat (apply List.Forall_cons || apply List.Forall_nil); reflexivity.
  - repeat (apply List.Forall_cons || apply List.Forall_nil); vm_compute; reflexivity.
  - intros item [= <-]. vm_compute. discriminate.
Defined.

(** The side conditions are needed.  Without a selector every record is
    an empty line, read back as one empty field, and the last of them
    as nothing; a label that opens with a quote swallows the lines after
    it; a last record written as an empty line is not read back; and the
    export of no record is the empty text, which holds no header. *)
Lemma no_selector_not_read_back :
  Rfc4180.parse (Api.convertToCSV (Some [∅; ∅]) [])
  = Some [[EmptyString]; [EmptyString]] /\
  map (selected_text []) [∅; ∅] = [[]; []].
Proof. split; reflexivity. Qed.

Lemma quoted_label_not_read_back :
  Rfc4180.parse
    (Api.convertToCSV (Some [ {[ "id" := Api.VInt 7 ]} ])
       [Api.mkField "id" (String dquote "ID")])
  = None.
Proof. vm_compute. reflexivity. Qed.

Lemma empty_last_line_not_read_back :
  Rfc4180.parse
    (Api.convertToCSV (Some [ {[ "note" := Api.VString "first" ]}; {[ "note" := Api.VNull ]} ])
       [Api.mkField "note" "Note"])
  = Some [["Note"]; ["first"]] /\
  map (selected_text [Api.mkField "note" "Note"])
      [ {[ "note" := Api.VString "first" ]}; {[ "note" := Api.VNull ]} ]
  = [["first"]; [EmptyString]].
Proof. split; vm_compute; reflexivity. Qed.

Lemma no_record_not_read_back :
  Rfc4180.parse (Api.convertToCSV (Some []) [Api.mkField "note" "Note"]) = Some [].
Proof. reflexivity. Qed.

(** A value with a line break is read back when it is quoted for another
    reason. *)
Lemma quoted_line_break_read_back :
  Rfc4180.parse
    (Api.convertToCSV
       (Some [ {[ "note" := Api.VString ("a,b" ++ String LF "c") ]} ])
       [Api.mkField "note" "Note"])
  = Some [["Note"]; [("a,b" ++ String LF "c")%string]].
Proof. vm_compute. reflexivity. Qed.

(** * Further properties *)

(** ** Navigation and routes *)

Lemma admin_is_admin : App.includes ["admin"] (JString "admin") = true.
Proof. reflexivity. Qed.

(** X1.  For a loaded session with a user, every link the sidebar shows
    for the user's role leads to a route that renders its page: the menu
    never offers a link that ends in a redirect. *)
Theorem nav_links_render_pages
    (auth : AuthContext.auth_state) (item : DashboardLayout.nav_item) :
  AuthContext.loading auth = false ->
  is_Some (AuthContext.current_user auth) ->
  In item (DashboardLayout.navItems (AuthContext.userRole auth)) ->
  exists c, App.render (DashboardLayout.path item) auth = Some (App.page c).
Proof.
  intros Hl [u Hu] Hitem.
  pose proof (fun ch rr => ProtectedRoute_loaded ch rr auth Hl) as HP.
  assert (Hcustomer : In item DashboardLayout.customerNavItems ->
            exists c, App.render (DashboardLayout.path item) auth = Some (App.page c)).
  { intros Hin. simpl in Hin.
    destruct Hin as [<-|[<-|[<-|[]]]]; unfold App.render; simpl;
      rewrite HP, Hu; eauto. }
  unfold DashboardLayout.navItems in Hitem.
  destruct (AuthContext.userRole auth) as [| | |r| |] eqn:Hrole; auto.
  destruct (String.eqb_spec r "admin") as [->|_]; auto.
  simpl in Hitem.
  destruct Hitem as [<-|[<-|[<-|[<-|[<-|[<-|[]]]]]]]; unfold App.render; simpl;
    rewrite HP, Hu, ?Hrole, ?admin_is_admin; eauto.
Qed.

Lemma nav_links_render_pages_witness :
  exists c,
    App.render "/clients"
      (AuthContext.mkAuth None (Some (AuthContext.mkUser "u1" "a@b.c")) false
         (JString "admin"))
    = Some (App.page c).
Proof.
  apply (nav_links_render_pages
           (AuthContext.mkAuth None (Some (AuthContext.mkUser "u1" "a@b.c")) false
              (JString "admin"))
           (DashboardLayout.mkNavItem "/clients" "Clients")).
  - reflexivity.
  - simpl. eauto.
  - simpl. tauto.
Defined.

(** ** The provider over time *)

Section ProviderRuns.

Import AuthContext.

Variable atob : string -> option string.
Variable JSON_parse : string -> option json.

Lemma run_app events1 events2 st :
  run atob JSON_parse (events1 ++ events2) st
  = run atob JSON_parse events2 (run atob JSON_parse events1 st).
Proof. unfold run. apply fold_left_app. Qed.

Lemma on_authStateChange_held s st :
  userRole (on_authStateChange atob JSON_parse s st)
  = held_role atob JSON_parse (on_authStateChange atob JSON_parse s st).
Proof. reflexivity. Qed.

Lemma run_changes_held changes : forall st,
  userRole st = held_role atob JSON_parse st ->
  st.(current_user) = st.(current_session) ≫= session_user ->
  let final := run atob JSON_parse (map auth_state_changed changes) st in
  userRole final = held_role atob JSON_parse final /\
  current_user final = current_session final ≫= session_user /\
  loading final = loading st.
Proof.
  induction changes as [|s changes IH]; intros st Hrole Huser; [done|].
  simpl. destruct (IH (on_authStateChange atob JSON_parse s st)) as (H1 & H2 & H3);
    [done|done|]. done.
Qed.

Lemma run_loading events : forall st,
  loading (run atob JSON_parse events st)
  = (loading st && forallb is_state_change events)%bool.
Proof.
  induction events as [|ev events IH]; intros st; simpl.
  - by rewrite andb_true_r.
  - fold (run atob JSON_parse events (step atob JSON_parse st ev)).
    rewrite IH. destruct ev; simpl; [by rewrite andb_false_r|done].
Qed.

End ProviderRuns.

(** X2.  After the mount-time resolution of the session followed by any
    number of auth state changes, and after any run of events that ends
    in an auth state change, the role in the state is the one the
    session in the state calls for: the role derived from its token, or
    [null] when it has none; the user in the state is the session's. *)
Theorem role_follows_session
    (atob : string -> option string) (JSON_parse : string -> option json)
    (s s' : option AuthContext.session)
    (changes : list (option AuthContext.session))
    (events : list AuthContext.event) (st : AuthContext.auth_state) :
  let mounted :=
    AuthContext.run atob JSON_parse
      (AuthContext.session_resolved s :: map AuthContext.auth_state_changed changes)
      AuthContext.initial_auth in
  let changed :=
    AuthContext.run atob JSON_parse
      (events ++ [AuthContext.auth_state_changed s']) st in
  AuthContext.userRole mounted = held_role atob JSON_parse mounted /\
  AuthContext.current_user mounted
    = AuthContext.current_session mounted ≫= AuthContext.session_user /\
  AuthContext.loading mounted = false /\
  AuthContext.current_session changed = s' /\
  AuthContext.userRole changed = held_role atob JSON_parse changed /\
  AuthContext.current_user changed = s' ≫= AuthContext.session_user.
Proof.
  intros mounted changed.
  assert (Hm : AuthContext.userRole mounted = held_role atob JSON_parse mounted /\
               AuthContext.current_user mounted
               = AuthContext.current_session mounted ≫= AuthContext.session_user /\
               AuthContext.loading mounted = false).
  { unfold mounted. simpl.
    apply (run_changes_held atob JSON_parse changes
             (AuthContext.on_getSession atob JSON_parse s AuthContext.initial_auth)).
    - unfold held_role, AuthContext.on_getSession. simpl.
      by destruct (AuthContext.truthy_token s).
    - reflexivity. }
  destruct Hm as (H1 & H2 & H3).
  unfold changed. rewrite run_app. simpl. done.
Qed.

Lemma admin_page_rendered (auth : AuthContext.auth_state) (path : string)
    (c : App.component) :
  In c [App.DevicesPage; App.DriversPage; App.ClientsPage] ->
  App.render path auth = Some (App.page c) ->
  AuthContext.loading auth = false /\
  is_Some (AuthContext.current_user auth) /\
  AuthContext.userRole auth = JString "admin".
Proof.
  intros Hc. unfold App.render, App.routes. cbn [App.lookup_route].
  assert (Hadmin : App.includes ["admin"] (AuthContext.userRole auth) = true ->
                   AuthContext.userRole auth = JString "admin").
  { intros E. apply includes_spec in E as (r & -> & [<-|[]]). reflexivity. }
  repeat (destruct (String.eqb _ path);
          [unfold App.ProtectedRoute;
           destruct (AuthContext.loading auth);
           [|destruct (AuthContext.current_user auth);
             [destruct (App.includes ["admin"] (AuthContext.userRole auth))|]];
           simpl; intros Heq; simplify_eq;
           solve [ simpl in Hc; intuition discriminate
                 | split; [done|]; split; [by eexists|]; by apply Hadmin ]|]).
  discriminate.
Qed.

(** X3.  After the mount-time resolution followed by any auth state
    changes, the devices, drivers and clients pages are rendered only
    for a user whose session token decodes to a payload that carries
    [user_role] = admin. *)
Theorem admin_pages_need_admin_claim
    (atob : string -> option string) (JSON_parse : string -> option json)
    (s : option AuthContext.session)
    (changes : list (option AuthContext.session))
    (path : string) (c : App.component) :
  let final :=
    AuthContext.run atob JSON_parse
      (AuthContext.session_resolved s :: map AuthContext.auth_state_changed changes)
      AuthContext.initial_auth in
  In c [App.DevicesPage; App.DriversPage; App.ClientsPage] ->
  App.render path final = Some (App.page c) ->
  exists token payload,
    AuthContext.truthy_token (AuthContext.current_session final) = Some token /\
    AuthContext.decode_payload atob JSON_parse token = Some payload /\
    carries_user_role payload (JString "admin") /\
    is_Some (AuthContext.current_session final ≫= AuthContext.session_user).
Proof.
  intros final Hc Hrender.
  destruct (admin_page_rendered final path c Hc Hrender) as (_ & Huser & Hrole).
  assert (Hheld : AuthContext.userRole final = held_role atob JSON_parse final /\
                  AuthContext.current_user final
                  = AuthContext.current_session final ≫= AuthContext.session_user).
  { unfold final. simpl.
    destruct (run_changes_held atob JSON_parse changes
                (AuthContext.on_getSession atob JSON_parse s AuthContext.initial_auth))
      as (H1 & H2 & _); [|reflexivity|done].
    unfold held_role, AuthContext.on_getSession. simpl.
    by destruct (AuthContext.truthy_token s). }
  destruct Hheld as [Hheld Hu]. rewrite Hheld in Hrole. rewrite Hu in Huser.
  unfold held_role in Hrole.
  destruct (AuthContext.truthy_token (AuthContext.current_session final))
    as [token|]; [|discriminate].
  destruct (derive_role_admin atob JSON_parse token Hrole) as (payload & Hd & Hcarry).
  by exists token, payload.
Qed.

Lemma admin_pages_need_admin_claim_witness :
  exists token payload,
    AuthContext.truthy_token
      (AuthContext.current_session
         (AuthContext.run (fun text => Some text)
            (fun text => if String.eqb text "claims"
                         then Some (JObject [("user_role", JString "admin")])
                         else None)
            [AuthContext.session_resolved
               (Some (AuthContext.mkSession (Some "head.claims.sig")
                        (Some (AuthContext.mkUser "u1" "a@b.c"))))]
            AuthContext.initial_auth)) = Some token /\
    AuthContext.decode_payload (fun text => Some text)
      (fun text => if String.eqb text "claims"
                   then Some (JObject [("user_role", JString "admin")])
                   else None) token = Some payload /\
    carries_user_role payload (JString "admin") /\
    is_Some
      (AuthContext.current_session
         (AuthContext.run (fun text => Some text)
            (fun text => if String.eqb text "claims"
                         then Some (JObject [("user_role", JString "admin")])
                         else None)
            [AuthContext.session_resolved
               (Some (AuthContext.mkSession (Some "head.claims.sig")
                        (Some (AuthContext.mkUser "u1" "a@b.c"))))]
            AuthContext.initial_auth) ≫= AuthContext.session_user).
Proof.
  apply (admin_pages_need_admin_claim (fun text => Some text)
           (fun text => if String.eqb text "claims"
                        then Some (JObject [("user_role", JString "admin")])
                        else None)
           (Some (AuthContext.mkSession (Some "head.claims.sig")
                    (Some (AuthContext.mkUser "u1" "a@b.c"))))
           [] "/devices" App.DevicesPage).
  - simpl. tauto.
  - reflexivity.
Defined.

(** X4.  The provider stops loading exactly when the mount-time
    resolution of the session has arrived: auth state changes alone
    never end it, and until then every protected route shows the
    loading screen, whatever roles it requires. *)
Theorem loading_until_session_resolved
    (atob : string -> option string) (JSON_parse : string -> option json)
    (events : list AuthContext.event)
    (changes : list (option AuthContext.session))
    (children : App.element) (requiredRoles : list string) :
  AuthContext.loading (AuthContext.run atob JSON_parse events AuthContext.initial_auth)
  = forallb is_state_change events /\
  App.ProtectedRoute children requiredRoles
    (AuthContext.run atob JSON_parse
       (map AuthContext.auth_state_changed changes) AuthContext.initial_auth)
  = App.loading_screen.
Proof.
  split; [apply run_loading|].
  unfold App.ProtectedRoute. rewrite run_loading. simpl.
  assert (H : forallb is_state_change (map AuthContext.auth_state_changed changes) = true).
  { induction changes; simpl; auto. }
  by rewrite H.
Qed.

(** ** Device list *)

Section DeviceList.

Import DevicesPage.

Lemma shown_all_no_city d : shown "all" EmptyString d = true.
Proof. reflexivity. Qed.

Lemma shown_online cityFilter d :
  shown "online" cityFilter d = (is_online d && shown "all" cityFilter d)%bool.
Proof. unfold shown. simpl. by destruct (is_online d). Qed.

Lemma shown_offline cityFilter d :
  shown "offline" cityFilter d = (negb (is_online d) && shown "all" cityFilter d)%bool.
Proof. unfold shown. simpl. by destruct (is_online d). Qed.

Lemma filter_split_length {A} (p q : A -> bool) (l : list A) :
  (length (List.filter (fun x => p x && q x)%bool l)
   + length (List.filter (fun x => negb (p x) && q x)%bool l))%nat
  = length (List.filter q l).
Proof.
  induction l as [|x l IH]; simpl; [done|].
  destruct (p x), (q x); simpl; lia.
Qed.

Lemma filter_true {A} (p : A -> bool) (l : list A) :
  (forall x, p x = true) -> List.filter p l = l.
Proof.
  intros Hp. induction l as [|x l IH]; simpl; [done|].
  by rewrite Hp, IH.
Qed.

Lemma spread_Set_spec values : forall seen,
  List.NoDup seen ->
  List.NoDup (fold_left (fun seen v => if existsb (String.eqb v) seen
                                       then seen else seen ++ [v]) values seen) /\
  forall x,
    In x (fold_left (fun seen v => if existsb (String.eqb v) seen
                                   then seen else seen ++ [v]) values seen)
    <-> In x seen \/ In x values.
Proof.
  induction values as [|v values IH]; intros seen Hseen; simpl.
  - split; [done|]. tauto.
  - destruct (existsb (String.eqb v) seen) eqn:E.
    + destruct (IH seen Hseen) as [Hnd Hin]. split; [done|].
      intros x. rewrite Hin.
      apply existsb_exists in E as (y & Hy & Heq).
      apply String.eqb_eq in Heq. subst y.
      split; [tauto|]. intros [H|[<-|H]]; tauto.
    + assert (Hnot : ~ In v seen).
      { intros Hv. apply Bool.not_true_iff_false in E. apply E.
        apply existsb_exists. exists v. split; [done|apply String.eqb_refl]. }
      destruct (IH (seen ++ [v])) as [Hnd Hin].
      { apply List.NoDup_app.
        - done.
        - constructor; [tauto|constructor].
        - intros x Hx [<-|[]]. contradiction. }
      split; [done|]. intros x. rewrite Hin, List.in_app_iff. simpl. tauto.
Qed.

Lemma truthy_cities_spec devices c :
  In c (truthy_cities devices) <->
  c <> EmptyString /\ exists d, In d devices /\ city d = Some c.
Proof.
  unfold truthy_cities. rewrite <- list_elem_of_In, list_elem_of_omap.
  split.
  - intros (d & Hd & Hc). apply list_elem_of_In in Hd.
    destruct (city d) as [c'|] eqn:E; [|discriminate].
    destruct (String.eqb_spec c' EmptyString); [discriminate|].
    injection Hc as <-. eauto.
  - intros (Hne & d & Hd & Hc). exists d. split; [by apply list_elem_of_In|].
    rewrite Hc. by destruct (String.eqb_spec c EmptyString).
Qed.

End DeviceList.

(** X5.  The status filters split the device list: with any city filter
    the rows shown under Online and under Offline add up to the rows
    shown under All, the Online rows are exactly online and the Offline
    rows exactly not online; with no city filter All shows every device
    and the two counters on the filter buttons are the numbers of rows
    the buttons lead to, the offline counter never negative. *)
Theorem device_filters_partition
    (devices : list DevicesPage.device) (cityFilter : string) :
  (length (DevicesPage.filteredDevices "online" cityFilter devices)
   + length (DevicesPage.filteredDevices "offline" cityFilter devices))%nat
  = length (DevicesPage.filteredDevices "all" cityFilter devices) /\
  Forall (fun d => DevicesPage.is_online d = true)
         (DevicesPage.filteredDevices "online" cityFilter devices) /\
  Forall (fun d => DevicesPage.is_online d = false)
         (DevicesPage.filteredDevices "offline" cityFilter devices) /\
  DevicesPage.filteredDevices "all" EmptyString devices = devices /\
  DevicesPage.onlineCount devices
  = Z.of_nat (length (DevicesPage.filteredDevices "online" EmptyString devices)) /\
  DevicesPage.offlineCount devices
  = Z.of_nat (length (DevicesPage.filteredDevices "offline" EmptyString devices)) /\
  0 <= DevicesPage.offlineCount devices.
Proof.
  assert (Hall : DevicesPage.filteredDevices "all" EmptyString devices = devices).
  { apply filter_true, shown_all_no_city. }
  assert (Hon : forall cf, DevicesPage.filteredDevices "online" cf devices
                = List.filter (fun d => DevicesPage.is_online d
                                        && DevicesPage.shown "all" cf d)%bool devices).
  { intros cf. apply List.filter_ext, shown_online. }
  assert (Hoff : forall cf, DevicesPage.filteredDevices "offline" cf devices
                 = List.filter (fun d => negb (DevicesPage.is_online d)
                                         && DevicesPage.shown "all" cf d)%bool devices).
  { intros cf. apply List.filter_ext, shown_offline. }
  assert (Hsplit := filter_split_length DevicesPage.is_online
                      (DevicesPage.shown "all" EmptyString) devices).
  rewrite <- !Hon, <- !Hoff in Hsplit. fold (DevicesPage.filteredDevices "all" EmptyString devices) in Hsplit.
  rewrite Hall in Hsplit.
  assert (Honline : DevicesPage.onlineCount devices
            = Z.of_nat (length (DevicesPage.filteredDevices "online" EmptyString devices))).
  { unfold DevicesPage.onlineCount. rewrite Hon. do 2 f_equal.
    apply List.filter_ext. intros d. by rewrite andb_true_r. }
  split; [rewrite Hon, Hoff; apply filter_split_length|].
  split.
  { rewrite Hon. apply List.Forall_forall. intros d Hd.
    apply List.filter_In in Hd as [_ Hd]. by apply andb_true_iff in Hd as [? _]. }
  split.
  { rewrite Hoff. apply List.Forall_forall. intros d Hd.
    apply List.filter_In in Hd as [_ Hd]. apply andb_true_iff in Hd as [Hd _].
    by apply negb_true_iff. }
  split; [done|]. split; [done|].
  unfold DevicesPage.offlineCount. rewrite Honline. lia.
Qed.

(** X6.  The city choices offered are exactly the distinct non-empty
    cities of the devices, each once: a text is among the choices if and
    only if it is not empty and is the city of some device.  A city
    taken from the choices shows at least one device under All, and
    every row it shows, under any status filter, is in that city. *)
Theorem city_choices_select_devices
    (devices : list DevicesPage.device) (filter c : string) :
  List.NoDup (DevicesPage.cities devices) /\
  (In c (DevicesPage.cities devices) <->
   c <> EmptyString /\ exists d, In d devices /\ DevicesPage.city d = Some c) /\
  (In c (DevicesPage.cities devices) ->
   DevicesPage.filteredDevices "all" c devices <> [] /\
   Forall (fun d => DevicesPage.city d = Some c)
          (DevicesPage.filteredDevices filter c devices)).
Proof.
  unfold DevicesPage.cities, DevicesPage.spread_Set in *.
  destruct (spread_Set_spec (DevicesPage.truthy_cities devices) [])
    as [Hnd Hin]; [constructor|].
  assert (Hiff : In c (fold_left
                         (fun seen v => if existsb (String.eqb v) seen
                                        then seen else seen ++ [v])
                         (DevicesPage.truthy_cities devices) []) <->
                 c <> EmptyString /\
                 exists d, In d devices /\ DevicesPage.city d = Some c).
  { rewrite Hin, <- truthy_cities_spec. simpl. tauto. }
  split; [done|]. split; [exact Hiff|].
  intros Hc. apply Hiff in Hc as (Hne & d & Hd & Hcity).
  assert (Hempty : String.eqb c EmptyString = false) by by apply String.eqb_neq.
  split.
  - intros Hnil.
    assert (Hshown : In d (DevicesPage.filteredDevices "all" c devices)).
    { apply List.filter_In. split; [done|].
      unfold DevicesPage.shown, DevicesPage.city_differs. simpl.
      by rewrite Hempty, Hcity, String.eqb_refl. }
    by rewrite Hnil in Hshown.
  - apply List.Forall_forall. intros d' Hd'.
    apply List.filter_In in Hd' as [_ Hs].
    unfold DevicesPage.shown, DevicesPage.city_differs in Hs.
    rewrite Hempty in Hs. simpl in Hs.
    destruct (DevicesPage.city d') as [c'|].
    + destruct (String.eqb_spec c' c) as [E|E]; [by rewrite E|].
      simpl in Hs. by repeat destruct (_ && _)%bool.
    + simpl in Hs. by repeat destruct (_ && _)%bool.
Qed.

Lemma city_choices_select_devices_witness :
  DevicesPage.filteredDevices "all" "Chennai"
    [DevicesPage.mkDevice "1" "TAB-1" (Some "online") (Some "Chennai") None;
     DevicesPage.mkDevice "2" "TAB-2" None (Some "Chennai") None;
     DevicesPage.mkDevice "3" "TAB-3" (Some "offline") None None] <> [] /\
  Forall (fun d => DevicesPage.city d = Some "Chennai")
    (DevicesPage.filteredDevices "offline" "Chennai"
       [DevicesPage.mkDevice "1" "TAB-1" (Some "online") (Some "Chennai") None;
        DevicesPage.mkDevice "2" "TAB-2" None (Some "Chennai") None;
        DevicesPage.mkDevice "3" "TAB-3" (Some "offline") None None]).
Proof.
  destruct (city_choices_select_devices
              [DevicesPage.mkDevice "1" "TAB-1" (Some "online") (Some "Chennai") None;
               DevicesPage.mkDevice "2" "TAB-2" None (Some "Chennai") None;
               DevicesPage.mkDevice "3" "TAB-3" (Some "offline") None None]
              "offline" "Chennai") as (_ & _ & H).
  apply H. vm_compute. tauto.
Defined.

(** ** Campaign cards *)

Section Cards.

Import CampaignCards.

Lemma statsMap_snoc rows r :
  loadData_statsMap (Some (rows ++ [r]))
  = <[campaign_id r := r]> (loadData_statsMap (Some rows)).
Proof. unfold loadData_statsMap. simpl. by rewrite fold_left_app. Qed.

Lemma statsMap_nil : loadData_statsMap (Some []) = ∅.
Proof. reflexivity. Qed.

Lemma statsMap_lookup_Some rows : forall k s,
  loadData_statsMap (Some rows) !! k = Some s <->
  exists before after,
    rows = before ++ s :: after /\ campaign_id s = k /\
    Forall (fun s' => campaign_id s' <> k) after.
Proof.
  induction rows as [|r rows IH] using rev_ind; intros k s.
  - rewrite statsMap_nil. split; [by rewrite lookup_empty|].
    intros (before & after & H & _). by destruct before.
  - rewrite statsMap_snoc. destruct (decide (campaign_id r = k)) as [Hk|Hk].
    + subst k. rewrite lookup_insert_eq. split.
      * intros [= <-]. exists rows, []. by repeat split.
      * intros (before & after & Heq & Hid & Hafter).
        destruct after as [|a after _] using rev_ind.
        { apply app_inj_tail in Heq as [_ ->]. reflexivity. }
        rewrite app_comm_cons, app_assoc in Heq.
        apply app_inj_tail in Heq as [_ ->].
        apply Forall_app in Hafter as [_ Ha].
        apply Forall_cons_1 in Ha as [Ha _]. contradiction.
    + rewrite lookup_insert_ne by done. rewrite IH. split.
      * intros (before & after & -> & Hid & Hafter).
        exists before, (after ++ [r]).
        rewrite <- app_assoc. repeat split; [done|].
        apply Forall_app. split; [done|]. by apply Forall_cons_2.
      * intros (before & after & Heq & Hid & Hafter).
        destruct after as [|a after _] using rev_ind.
        { apply app_inj_tail in Heq as [_ ->]. contradiction. }
        rewrite app_comm_cons, app_assoc in Heq.
        apply app_inj_tail in Heq as [-> ->].
        apply Forall_app in Hafter as [Hafter _]. by exists before, after.
Qed.

Lemma statsMap_lookup_None rows k :
  loadData_statsMap (Some rows) !! k = None <->
  Forall (fun s' => campaign_id s' <> k) rows.
Proof.
  induction rows as [|r rows IH] using rev_ind.
  - rewrite statsMap_nil. split; [constructor|by rewrite lookup_empty].
  - rewrite statsMap_snoc, Forall_app. destruct (decide (campaign_id r = k)) as [Hk|Hk].
    + subst k. rewrite lookup_insert_eq. split; [discriminate|].
      intros [_ H]. apply Forall_cons_1 in H as [H _]. contradiction.
    + rewrite lookup_insert_ne by done. rewrite IH. split.
      * intros H. split; [done|]. by apply Forall_cons_2.
      * by intros [H _].
Qed.

End Cards.

(** X7.  The stats a campaign card reads are those of the last stat row
    carrying the campaign's id: a row is the one looked up exactly when
    no later row has the same id, and a campaign without any row shows
    zero impressions and zero devices. *)
Theorem campaign_card_reads_last_row
    (rows : list campaign_stat) (c : CampaignsPage.campaign) (s : campaign_stat) :
  let campaignStats := CampaignCards.loadData_statsMap (Some rows) in
  (campaignStats !! CampaignsPage.id c = Some s <->
     exists before after,
       rows = before ++ s :: after /\
       campaign_id s = CampaignsPage.id c /\
       Forall (fun s' => campaign_id s' <> CampaignsPage.id c) after) /\
  (campaignStats !! CampaignsPage.id c = None <->
     Forall (fun s' => campaign_id s' <> CampaignsPage.id c) rows) /\
  (campaignStats !! CampaignsPage.id c = Some s ->
     CampaignCards.card_impressions campaignStats c
     = count_of (total_impressions s) /\
     CampaignCards.card_devices campaignStats c
     = count_of (unique_devices s)) /\
  (campaignStats !! CampaignsPage.id c = None ->
     CampaignCards.card_impressions campaignStats c = zero /\
     CampaignCards.card_devices campaignStats c = zero).
Proof.
  intros campaignStats.
  split; [apply statsMap_lookup_Some|].
  split; [apply statsMap_lookup_None|].
  unfold CampaignCards.card_impressions, CampaignCards.card_devices.
  split; by intros ->.
Qed.

Lemma campaign_card_reads_last_row_witness :
  CampaignCards.card_impressions
    (CampaignCards.loadData_statsMap
       (Some [mkCampaignStat "c1" "k1" (Number (of_Z 5)) Null;
              mkCampaignStat "c1" "k1" (Number (of_Z 9)) Null]))
    (CampaignsPage.mkCampaign "c1" "Summer" None)
  = count_of (Number (of_Z 9)).
Proof.
  refine (proj1 (proj1 (proj2 (proj2 (campaign_card_reads_last_row
            [mkCampaignStat "c1" "k1" (Number (of_Z 5)) Null;
             mkCampaignStat "c1" "k1" (Number (of_Z 9)) Null]
            (CampaignsPage.mkCampaign "c1" "Summer" None)
            (mkCampaignStat "c1" "k1" (Number (of_Z 9)) Null)))) _)).
  vm_compute. reflexivity.
Defined.

(** X8.  The badge of a campaign card and its action button agree: the
    card carries the green colour and the check icon of an active
    campaign exactly when its button asks for PAUSED, and any other
    colour or icon exactly when it asks for ACTIVE. *)
Theorem status_badge_matches_action (c : CampaignsPage.campaign) :
  (CampaignCards.getStatusColor (CampaignsPage.status c)
   = "bg-green-900/30 text-green-400 border-green-800"
   <-> CampaignsPage.action_button c = "PAUSED") /\
  (CampaignCards.getStatusIcon (CampaignsPage.status c)
   = ("CheckCircle", "w-4 h-4 text-green-400")
   <-> CampaignsPage.action_button c = "PAUSED") /\
  (CampaignCards.getStatusColor (CampaignsPage.status c)
   <> "bg-green-900/30 text-green-400 border-green-800"
   <-> CampaignsPage.action_button c = "ACTIVE").
Proof.
  unfold CampaignCards.getStatusColor, CampaignCards.getStatusIcon,
    CampaignsPage.action_button.
  destruct (CampaignsPage.status c) as [s|]; [|by repeat split].
  cbv zeta.
  destruct (String.eqb (toLowerCase s) "active"); [by repeat split|].
  repeat destruct (String.eqb (toLowerCase s) _); by repeat split.
Qed.

(** X9.  While an upload is pending the simulated progress starts at 10,
    grows by 10 with every timer tick and stops at 90: after [n] ticks
    it is [min (10 + 10 n) 90], so it never reaches 100 before the
    request settles. *)
Theorem simulated_progress_stops_at_90 (ticks : nat) :
  CampaignCards.progress_after ticks = Z.min (10 + 10 * Z.of_nat ticks) 90 /\
  10 <= CampaignCards.progress_after ticks <= 90 /\
  CampaignCards.progress_after ticks <= CampaignCards.progress_after (S ticks).
Proof.
  assert (H : forall n, CampaignCards.progress_after n
                        = Z.min (10 + 10 * Z.of_nat n) 90).
  { induction n as [|n IH]; [reflexivity|].
    unfold CampaignCards.progress_after in *. rewrite Nat.iter_succ, IH.
    unfold CampaignCards.progress_tick, CampaignsPage.progress_tick. lia. }
  rewrite !H. lia.
Qed.

(** ** Upload of an ad *)

(** X10.  With a pending file and a selected campaign, [handleUploadAd]
    starts the progress timer, sends exactly one upload, of that file
    for that campaign with the chosen duration, and ends with the
    uploading flag off and the progress at 0.  When the upload succeeds
    the timer has been stopped, the pending file is cleared and the
    duration is back at 30.  When it fails the pending file and the
    duration stay, an error is shown, and the timer is left running: its
    later ticks raise the progress cell again, to [min (10 n) 90] after
    [n] ticks. *)
Theorem upload_outcomes
    (upload_ok : bool) (elapsed : nat) (st : CampaignsPage.page_state)
    (f : CampaignsPage.file) (c : CampaignsPage.campaign) :
  CampaignsPage.ad_file (CampaignsPage.adFormData st) = Some f ->
  CampaignsPage.selectedCampaign st = Some c ->
  let r := CampaignsPage.handleUploadAd upload_ok elapsed st in
  List.filter CampaignsPage.is_network (CampaignsPage.log_of r)
  = CampaignsPage.api_uploadAd (CampaignsPage.id c) f
      (CampaignsPage.duration (CampaignsPage.adFormData st))
    :: (if upload_ok
        then [CampaignsPage.reload_campaignAds (CampaignsPage.id c);
              CampaignsPage.reload_data]
        else []) /\
  CampaignsPage.isUploading (CampaignsPage.state_of r) = false /\
  CampaignsPage.uploadProgress (CampaignsPage.state_of r) = 0 /\
  CampaignsPage.selectedCampaign (CampaignsPage.state_of r) = Some c /\
  CampaignsPage.adFormData (CampaignsPage.state_of r)
  = (if upload_ok then CampaignsPage.mkAdForm None 30
     else CampaignsPage.adFormData st) /\
  (In (CampaignsPage.toast_error "Failed to upload video") (CampaignsPage.log_of r)
   <-> upload_ok = false) /\
  CampaignsPage.timers_left (CampaignsPage.log_of r) = (if upload_ok then 0 else 1) /\
  forall n,
    CampaignsPage.uploadProgress
      (CampaignsPage.state_of (CampaignsPage.ticks n (CampaignsPage.state_of r)))
    = Z.min (10 * Z.of_nat n) 90.
Proof.
  intros Hf Hc r. unfold r. rewrite (handleUploadAd_run upload_ok elapsed st f c Hf Hc).
  unfold CampaignsPage.state_of, CampaignsPage.log_of. cbn [fst snd].
  split; [by destruct upload_ok|]. do 4 (split; [done|]).
  split; [destruct upload_ok; simpl; intuition (discriminate || auto)|].
  split; [by destruct upload_ok|].
  intros n. rewrite ticks_run. cbn [fst snd CampaignsPage.uploadProgress].
  induction n as [|n IH]; [done|].
  rewrite Nat.iter_succ, IH. unfold CampaignsPage.progress_tick. lia.
Qed.

Lemma upload_outcomes_witness :
  CampaignsPage.timers_left
    (CampaignsPage.log_of
       (CampaignsPage.handleUploadAd false 3
          (CampaignsPage.mkPage
             (CampaignsPage.mkAdForm
                (Some (CampaignsPage.mkFile "ad.mp4" "video/mp4" 4096)) 15)
             (Some (CampaignsPage.mkCampaign "c1" "Summer" (Some "ACTIVE")))
             false 0)))
  = 1.
Proof.
  refine (proj1 (proj2 (proj2 (proj2 (proj2 (proj2 (proj2 (upload_outcomes false 3
            (CampaignsPage.mkPage
               (CampaignsPage.mkAdForm
                  (Some (CampaignsPage.mkFile "ad.mp4" "video/mp4" 4096)) 15)
               (Some (CampaignsPage.mkCampaign "c1" "Summer" (Some "ACTIVE")))
               false 0)
            (CampaignsPage.mkFile "ad.mp4" "video/mp4" 4096)
            (CampaignsPage.mkCampaign "c1" "Summer" (Some "ACTIVE"))
            eq_refl eq_refl)))))))).
Defined.

(** X11.  A video file within the size limit, once selected, brings up
    the Upload button and is what the next upload sends, for the
    selected campaign and with the duration chosen before.  After a
    successful upload the pending file is gone and with it the button;
    after a failed one the button is still there and enabled, and a
    further click sends the same file again, however often the timer
    left running has fired in between. *)
Theorem selected_file_uploaded_once
    (f : CampaignsPage.file) (c : CampaignsPage.campaign)
    (st : CampaignsPage.page_state) (upload_ok : bool) (elapsed between again : nat) :
  startsWith "video/" (CampaignsPage.file_type f) = true ->
  CampaignsPage.file_size f <= 100 * 1024 * 1024 ->
  CampaignsPage.selectedCampaign st = Some c ->
  let selected :=
    CampaignsPage.state_of (CampaignsPage.handleFileSelect (Some f) st) in
  let sent := CampaignsPage.handleUploadAd true elapsed selected in
  let failed := CampaignsPage.handleUploadAd false elapsed selected in
  let later :=
    CampaignsPage.state_of (CampaignsPage.ticks between (CampaignsPage.state_of failed)) in
  let retry := CampaignsPage.handleUploadAd upload_ok again later in
  CampaignsPage.upload_button_shown selected = true /\
  In (CampaignsPage.api_uploadAd (CampaignsPage.id c) f
        (CampaignsPage.duration (CampaignsPage.adFormData st)))
     (CampaignsPage.log_of sent) /\
  CampaignsPage.upload_button_shown (CampaignsPage.state_of sent) = false /\
  CampaignsPage.upload_button_shown later = true /\
  CampaignsPage.upload_button_enabled later = true /\
  In (CampaignsPage.api_uploadAd (CampaignsPage.id c) f
        (CampaignsPage.duration (CampaignsPage.adFormData st)))
     (CampaignsPage.log_of retry).
Proof.
  intros Hv Hs Hc selected sent failed later retry.
  assert (Hsel : selected
            = CampaignsPage.mkPage
                (CampaignsPage.mkAdForm (Some f)
                   (CampaignsPage.duration (CampaignsPage.adFormData st)))
                (Some c) (CampaignsPage.isUploading st)
                (CampaignsPage.uploadProgress st)).
  { unfold selected, CampaignsPage.handleFileSelect. rewrite Hv. simpl.
    unfold CampaignsPage.MAX_FILE_SIZE.
    destruct (Z.ltb_spec (100 * 1024 * 1024) (CampaignsPage.file_size f)); [lia|].
    cbv [CampaignsPage.state_of CampaignsPage.bind CampaignsPage.get
         CampaignsPage.setAdFormData CampaignsPage.modify fst snd].
    by rewrite Hc. }
  subst retry later failed sent. rewrite Hsel. clear Hsel selected.
  set (form := CampaignsPage.mkAdForm (Some f)
                 (CampaignsPage.duration (CampaignsPage.adFormData st))).
  rewrite (handleUploadAd_run true elapsed
             (CampaignsPage.mkPage form (Some c) (CampaignsPage.isUploading st)
                (CampaignsPage.uploadProgress st)) f c eq_refl eq_refl).
  rewrite (handleUploadAd_run false elapsed
             (CampaignsPage.mkPage form (Some c) (CampaignsPage.isUploading st)
                (CampaignsPage.uploadProgress st)) f c eq_refl eq_refl).
  unfold CampaignsPage.state_of. cbn [fst snd]. rewrite ticks_run. cbn [fst snd].
  cbn [CampaignsPage.adFormData CampaignsPage.selectedCampaign
       CampaignsPage.isUploading CampaignsPage.uploadProgress].
  rewrite (handleUploadAd_run upload_ok again
             (CampaignsPage.mkPage form (Some c) false
                (Nat.iter between CampaignsPage.progress_tick 0)) f c eq_refl eq_refl).
  repeat split; try reflexivity; simpl; tauto.
Qed.

Lemma selected_file_uploaded_once_witness :
  CampaignsPage.upload_button_shown
    (CampaignsPage.state_of
       (CampaignsPage.handleUploadAd true 2
          (CampaignsPage.state_of
             (CampaignsPage.handleFileSelect
                (Some (CampaignsPage.mkFile "ad.mp4" "video/mp4" (100 * 1024 * 1024)))
                (CampaignsPage.mkPage (CampaignsPage.mkAdForm None 30)
                   (Some (CampaignsPage.mkCampaign "c1" "Summer" None))
                   false 0)))))
  = false.
Proof.
  refine (proj1 (proj2 (proj2 (selected_file_uploaded_once
            (CampaignsPage.mkFile "ad.mp4" "video/mp4" (100 * 1024 * 1024))
            (CampaignsPage.mkCampaign "c1" "Summer" None)
            (CampaignsPage.mkPage (CampaignsPage.mkAdForm None 30)
               (Some (CampaignsPage.mkCampaign "c1" "Summer" None)) false 0)
            false 2 0 0 _ _ _)))).
  - reflexivity.
  - simpl. lia.
  - reflexivity.
Defined.

(** ** Sorting campaigns by impressions *)

Section Sorting.

Lemma number_le_scaled a b :
  is_double a -> is_double b -> a <> NaN -> b <> NaN ->
  number_le a b <-> (scaled a <= scaled b)%Z.
Proof.
  intros Va Vb Na Nb. unfold number_le, SFleb.
  rewrite SFcompare_scaled by done.
  destruct (Z.compare_spec (scaled a) (scaled b)); split; try done; lia.
Qed.

Lemma count_is_double rows s :
  counts_are_doubles rows -> In s rows -> is_double (count_of (total_impressions s)).
Proof.
  intros H Hin. apply or_zero_is_double.
  unfold counts_are_doubles in H. rewrite List.Forall_forall in H. by apply H.
Qed.

Lemma at_least_scaled a b :
  is_double (count_of (total_impressions a)) ->
  is_double (count_of (total_impressions b)) ->
  at_least a b <->
  (scaled (count_of (total_impressions b)) <= scaled (count_of (total_impressions a)))%Z.
Proof. intros Va Vb. apply number_le_scaled; auto using or_zero_not_NaN. Qed.

Lemma positive_by_impressions a b :
  is_double (count_of (total_impressions a)) ->
  is_double (count_of (total_impressions b)) ->
  is_positive (by_impressions_desc a b) = true <->
  (scaled (count_of (total_impressions a)) < scaled (count_of (total_impressions b)))%Z.
Proof.
  intros Va Vb. unfold is_positive, by_impressions_desc, sub, zero.
  rewrite SFsub_positive by auto using or_zero_not_NaN.
  apply Z.ltb_lt.
Qed.

Lemma sub_self_not_positive q : is_positive (sub q q) = false.
Proof.
  unfold is_positive, sub, zero.
  destruct q as [[]|[]| |s m e]; try reflexivity.
  cbn [SFsub]. by rewrite Z.sub_diag.
Qed.

Lemma insert_stable_Permutation {A} (compareFn : A -> A -> number) x l :
  Permutation (insert_stable compareFn x l) (x :: l).
Proof.
  induction l as [|y l IH]; simpl; [done|].
  destruct (is_positive (compareFn x y)); [|done].
  rewrite IH. apply perm_swap.
Qed.

Lemma sort_Permutation {A} (compareFn : A -> A -> number) l :
  Permutation (sort compareFn l) l.
Proof.
  induction l as [|x l IH]; simpl; [done|].
  rewrite insert_stable_Permutation. by constructor.
Qed.

Lemma insert_stable_sorted x l :
  counts_are_doubles (x :: l) ->
  StronglySorted at_least l ->
  StronglySorted at_least (insert_stable by_impressions_desc x l).
Proof.
  intros Hv Hs. induction Hs as [|y l Hl IH Hy]; simpl; [repeat constructor|].
  assert (Vx : is_double (count_of (total_impressions x))).
  { apply (count_is_double _ _ Hv). by left. }
  assert (Vy : is_double (count_of (total_impressions y))).
  { apply (count_is_double _ _ Hv). right. by left. }
  assert (Vl : forall z, In z l -> is_double (count_of (total_impressions z))).
  { intros z Hz. apply (count_is_double _ _ Hv). right. by right. }
  destruct (is_positive (by_impressions_desc x y)) eqn:E.
  - constructor.
    { apply IH. apply Forall_cons_1 in Hv as [Hx Hv].
      apply Forall_cons_1 in Hv as [_ Hv]. by constructor. }
    apply positive_by_impressions in E; [|done|done].
    eapply Permutation_Forall; [symmetry; apply insert_stable_Permutation|].
    constructor; [|done]. apply at_least_scaled; [done|done|lia].
  - assert (Hxy : at_least x y).
    { apply at_least_scaled; [done|done|].
      destruct (Z.le_gt_cases (scaled (count_of (total_impressions y)))
                              (scaled (count_of (total_impressions x)))) as [|Hlt]; [done|].
      apply positive_by_impressions in Hlt; [congruence|done|done]. }
    constructor; [by constructor|].
    constructor; [done|].
    rewrite List.Forall_forall in Hy |- *. intros z Hz.
    specialize (Hy z Hz).
    apply at_least_scaled in Hxy; [|done|done].
    apply at_least_scaled in Hy; [|done|by apply Vl].
    apply at_least_scaled; [done|by apply Vl|lia].
Qed.

Lemma sort_sorted l :
  counts_are_doubles l -> StronglySorted at_least (sort by_impressions_desc l).
Proof.
  induction l as [|x l IH]; intros Hv; simpl; [constructor|].
  apply insert_stable_sorted.
  - apply Forall_cons_1 in Hv as [Hx Hv]. constructor; [done|].
    eapply Permutation_Forall; [symmetry; apply sort_Permutation|done].
  - apply IH. by apply Forall_cons_1 in Hv as [_ Hv].
Qed.

(** Stability: rows with the same count keep their order. *)
Lemma insert_stable_filter q x l :
  filter (fun s => count_of (total_impressions s) = q)
         (insert_stable by_impressions_desc x l)
  = filter (fun s => count_of (total_impressions s) = q) (x :: l).
Proof.
  induction l as [|y l IH]; simpl; [done|].
  destruct (is_positive (by_impressions_desc x y)) eqn:E; [|done].
  rewrite !filter_cons in *. rewrite IH.
  destruct (decide (count_of (total_impressions x) = q)) as [Hx|Hx];
    destruct (decide (count_of (total_impressions y) = q)) as [Hy|Hy]; try done.
  unfold by_impressions_desc in E. fold (count_of (total_impressions y)) in E.
  fold (count_of (total_impressions x)) in E.
  rewrite Hx, Hy, sub_self_not_positive in E. discriminate E.
Qed.

Lemma sort_filter q l :
  filter (fun s => count_of (total_impressions s) = q) (sort by_impressions_desc l)
  = filter (fun s => count_of (total_impressions s) = q) l.
Proof.
  induction l as [|x l IH]; simpl; [done|].
  rewrite insert_stable_filter, !filter_cons, IH. done.
Qed.

Lemma strongly_sorted_split {A} (R : A -> A -> Prop) (l1 l2 : list A) :
  StronglySorted R (l1 ++ l2) ->
  forall a b, In a l1 -> In b l2 -> R a b.
Proof.
  induction l1 as [|x l1 IH]; simpl; intros Hs a b Ha Hb; [done|].
  apply StronglySorted_inv in Hs as [Hs Hx].
  destruct Ha as [<-|Ha]; [|by eapply IH].
  rewrite List.Forall_forall in Hx. apply Hx. apply in_or_app. by right.
Qed.

End Sorting.

(** X12.  Sorting the campaign stats for the charts rearranges the rows
    without losing or repeating any, puts them in order of impressions,
    largest first (a missing count as 0), and keeps rows with equal
    counts in their order.  The dashboard's top campaigns are the first
    five of them, fewer when there are fewer rows, and every campaign
    left out has at most the impressions of every campaign shown.  The
    order is the one of [<=] on doubles, with a missing or [NaN] count
    as 0.  [counts_are_doubles] asks that the counts be well-formed
    binary64 values, as every JavaScript number is: finite ones with a
    canonical mantissa and exponent, the infinities, the zeros and
    [NaN]. *)
Theorem top_campaigns_lead (campaignStats : list campaign_stat) :
  let sorted := sort by_impressions_desc campaignStats in
  Permutation sorted campaignStats /\
  (forall q,
     filter (fun s => count_of (total_impressions s) = q) sorted
     = filter (fun s => count_of (total_impressions s) = q) campaignStats) /\
  sorted = topCampaigns campaignStats ++ drop 5 sorted /\
  length (topCampaigns campaignStats) = Nat.min 5 (length campaignStats) /\
  (counts_are_doubles campaignStats ->
   StronglySorted at_least sorted /\
   Forall (fun a => Forall (fun b => at_least a b) (drop 5 sorted))
          (topCampaigns campaignStats) /\
   Forall (fun a => Forall (fun b => at_least a b) (drop 8 sorted))
          (AnalyticsCharts.charted campaignStats)).
Proof.
  intros sorted.
  pose proof (sort_Permutation by_impressions_desc campaignStats) as Hperm.
  fold sorted in Hperm.
  split; [done|]. split; [intros q; apply sort_filter|].
  split; [unfold topCampaigns; by rewrite take_drop|].
  split.
  { unfold topCampaigns. fold sorted. rewrite length_take.
    by rewrite (Permutation_length Hperm). }
  intros Hv. pose proof (sort_sorted campaignStats Hv) as Hsorted.
  fold sorted in Hsorted. split; [done|].
  split; apply List.Forall_forall; intros a Ha;
    apply List.Forall_forall; intros b Hb.
  - apply (strongly_sorted_split at_least (take 5 sorted) (drop 5 sorted)); try done.
    by rewrite take_drop.
  - apply (strongly_sorted_split at_least (take 8 sorted) (drop 8 sorted)); try done.
    by rewrite take_drop.
Qed.

Lemma top_campaigns_lead_witness :
  StronglySorted at_least
    (sort by_impressions_desc
       [mkCampaignStat "c1" "k1" (Number (of_Z 5)) Null;
        mkCampaignStat "c2" "k2" Undefined Null;
        mkCampaignStat "c3" "k1" (Number (of_Z 9)) Null]).
Proof.
  destruct (top_campaigns_lead
              [mkCampaignStat "c1" "k1" (Number (of_Z 5)) Null;
               mkCampaignStat "c2" "k2" Undefined Null;
               mkCampaignStat "c3" "k1" (Number (of_Z 9)) Null])
    as (_ & _ & _ & _ & H).
  apply H. repeat constructor.
Defined.

(** ** Totals over all campaigns *)

Section Totals.

Lemma sum_Z_Permutation ns ns' : Permutation ns ns' -> sum_Z ns = sum_Z ns'.
Proof. unfold sum_Z. induction 1; cbn [foldr]; lia. Qed.

Lemma integer_counts_Permutation rows rows' ns :
  Permutation rows rows' -> integer_counts rows ns ->
  exists ns', integer_counts rows' ns' /\ sum_Z ns' = sum_Z ns.
Proof.
  intros Hp Hc. destruct (Permutation_Forall2 Hp Hc) as (ns' & Hp' & Hc').
  exists ns'. split; [done|]. symmetry. by apply sum_Z_Permutation.
Qed.

End Totals.

(** X13.  The revenue table of the analytics page lists every campaign
    once, in order of impressions, each with the product of its count
    (a missing count as 0) and 0.10 as its revenue; for counts that are
    non-negative integers with a total below 2^53 its footer is their
    exact total, whatever the order the sort has left the rows in. *)
Theorem revenue_table_totals (campaignStats : list campaign_stat) :
  let rows := AnalyticsCharts.table_rows campaignStats in
  Permutation (map fst rows) campaignStats /\
  (counts_are_doubles campaignStats -> StronglySorted at_least (map fst rows)) /\
  Forall (fun row => snd row = mul (count_of (total_impressions (fst row))) lit_0_10)
         rows /\
  (forall ns, integer_counts campaignStats ns -> (sum_Z ns < 2 ^ 53)%Z ->
     AnalyticsCharts.footer_impressions campaignStats = of_Z (sum_Z ns)).
Proof.
  intros rows.
  assert (Hfst : map fst rows = sort by_impressions_desc campaignStats).
  { unfold rows, AnalyticsCharts.table_rows. rewrite map_map. simpl. apply map_id. }
  rewrite Hfst.
  split; [apply sort_Permutation|]. split; [apply sort_sorted|]. split.
  - unfold rows, AnalyticsCharts.table_rows. apply Forall_fmap, List.Forall_forall.
    by intros c _.
  - intros ns Hns Hlt.
    destruct (integer_counts_Permutation campaignStats
                (sort by_impressions_desc campaignStats) ns) as (ns' & Hns' & Hsum);
      [symmetry; apply sort_Permutation|done|].
    rewrite <- Hsum in *.
    destruct (sum_of_counts_integers _ ns' Hns' Hlt) as [H _]. exact H.
Qed.

Lemma revenue_table_totals_witness :
  AnalyticsCharts.footer_impressions
    [mkCampaignStat "c1" "k1" (Number (of_Z 5)) Null;
     mkCampaignStat "c2" "k2" Undefined Null;
     mkCampaignStat "c3" "k1" (Number (of_Z 9)) Null]
  = of_Z 14.
Proof.
  destruct (revenue_table_totals
              [mkCampaignStat "c1" "k1" (Number (of_Z 5)) Null;
               mkCampaignStat "c2" "k2" Undefined Null;
               mkCampaignStat "c3" "k1" (Number (of_Z 9)) Null]) as (_ & _ & _ & H).
  apply (H [5; 0; 9]%Z).
  - repeat (constructor; [split; [lia|reflexivity]|]). constructor.
  - reflexivity.
Defined.

(** ** The Total Revenue card *)

Section TotalRevenue.

Import ClientsPage.

Lemma to_Z_of_Z z : (0 <= z < 2 ^ 53)%Z -> to_Z (of_Z z) = z.
Proof.
  intros Hz. destruct (Z.eq_dec z 0) as [->|Hne]; [reflexivity|].
  destruct (of_Z_pos_form z) as (m & e & -> & He & Hm); [lia|].
  cbn [to_Z]. destruct (Z.leb_spec 0 e).
  - assert (e = 0) as -> by lia. change (2 ^ (- 0))%Z with 1%Z in Hm.
    change (2 ^ 0)%Z with 1%Z. lia.
  - rewrite <- Hm. apply Z.div_mul.
    apply Z.pow_nonzero; lia.
Qed.

Lemma fold_add_integers {A} (f : A -> number) (l : list A) (zs : list Z) :
  Forall2 (fun x z => (0 <= z)%Z /\ f x = of_Z z) l zs ->
  forall a, (0 <= a)%Z -> (a + sum_Z zs < 2 ^ 53)%Z ->
  fold_left (fun acc x => add acc (f x)) l (of_Z a) = of_Z (a + sum_Z zs).
Proof.
  induction 1 as [|x z l zs [Hz Hx] Hrest IH]; intros a Ha Hlt; cbn [fold_left].
  - unfold sum_Z. cbn [foldr]. by rewrite Z.add_0_r.
  - assert (Hpos : (0 <= sum_Z zs)%Z).
    { clear -Hrest. unfold sum_Z.
      induction Hrest as [|? ? ? ? [? _] _ IH']; cbn [foldr]; lia. }
    unfold sum_Z in *. cbn [foldr] in Hlt |- *.
    rewrite Hx. unfold add. rewrite add_of_Z by lia.
    rewrite IH by lia. f_equal. lia.
Qed.

Lemma sum_Z_nonneg zs : Forall (fun z => (0 <= z)%Z) zs -> (0 <= sum_Z zs)%Z.
Proof. unfold sum_Z. induction 1; cbn [foldr]; lia. Qed.

Lemma sum_held_Permutation (l1 l2 : list (string * client_stat)) :
  Permutation l1 l2 ->
  sum_Z (map (fun p => entry_total (snd p)) l1)
  = sum_Z (map (fun p => entry_total (snd p)) l2).
Proof. intros H. apply sum_Z_Permutation. by apply Permutation_map. Qed.

Lemma sum_held_insert (m : gmap string client_stat) i x :
  m !! i = None -> sum_held (<[i:=x]> m) = (entry_total x + sum_held m)%Z.
Proof.
  intros Hi. unfold sum_held.
  by rewrite (sum_held_Permutation _ _ (map_to_list_insert m i x Hi)).
Qed.

Lemma sum_held_delete (m : gmap string client_stat) i e :
  m !! i = Some e -> sum_held m = (entry_total e + sum_held (delete i m))%Z.
Proof.
  intros Hi. unfold sum_held.
  by rewrite <- (sum_held_Permutation _ _ (map_to_list_delete m i e Hi)).
Qed.

Lemma sum_held_nonneg (m : gmap string client_stat) :
  integral_totals m -> (0 <= sum_held m)%Z.
Proof.
  intros Hm. unfold sum_held. apply sum_Z_nonneg, Forall_fmap, List.Forall_forall.
  intros [k e] Hin. apply list_elem_of_In, elem_of_map_to_list in Hin.
  by destruct (Hm k e Hin).
Qed.

Lemma integral_totals_delete (m : gmap string client_stat) k :
  integral_totals m -> integral_totals (delete k m).
Proof.
  intros Hm c e Hc. apply lookup_delete_Some in Hc as [_ Hc]. by apply (Hm c).
Qed.

Lemma integral_totals_insert (m : gmap string client_stat) k e :
  integral_totals m ->
  (0 <= entry_total e)%Z -> impressions e = of_Z (entry_total e) ->
  integral_totals (<[k := e]> m).
Proof.
  intros Hm H1 H2 c e'. destruct (decide (k = c)) as [->|Hne].
  - rewrite lookup_insert_eq. by intros [= <-].
  - rewrite lookup_insert_ne by done. apply Hm.
Qed.

Lemma forEach_body_sum m s n :
  integral_totals (own m) ->
  (forall c, inherited c = true -> own m !! c = None) ->
  (0 <= n)%Z -> count_of (total_impressions s) = of_Z n ->
  (sum_held (own m) + n < 2 ^ 53)%Z ->
  inherited (client_id s) = false ->
  integral_totals (own (forEach_body m s)) /\
  sum_held (own (forEach_body m s)) = (sum_held (own m) + n)%Z.
Proof.
  intros Hm Hinh Hn Hs Hlt Hk. unfold forEach_body.
  fold (count_of (total_impressions s)). rewrite Hs.
  pose proof (sum_held_nonneg _ Hm) as Hpos.
  destruct (own m !! client_id s) as [e|] eqn:E; cbn [own].
  - destruct (Hm _ _ E) as [He1 He2].
    pose proof (sum_held_delete _ _ _ E) as Hdel.
    pose proof (sum_held_nonneg _ (integral_totals_delete _ (client_id s) Hm)) as Hpos'.
    assert (Hadd : add (impressions e) (of_Z n) = of_Z (entry_total e + n)).
    { rewrite He2 at 1. unfold add. apply add_of_Z; lia. }
    assert (Hnew : entry_total
                     (mkClientStat (add (impressions e) (of_Z n)) (add (campaigns e) one))
                   = (entry_total e + n)%Z).
    { unfold entry_total at 1. cbn [impressions]. rewrite Hadd. apply to_Z_of_Z. lia. }
    split.
    + apply integral_totals_insert; [done|lia|].
      rewrite Hnew. exact Hadd.
    + rewrite <- insert_delete_eq, sum_held_insert by apply lookup_delete_eq.
      rewrite Hnew. lia.
  - rewrite Hk. cbn [own].
    assert (Hadd : add zero (of_Z n) = of_Z n).
    { change zero with (of_Z 0). unfold add. rewrite add_of_Z by lia. by rewrite Z.add_0_l. }
    assert (Hnew : entry_total (mkClientStat (add zero (of_Z n)) (add zero one)) = n).
    { unfold entry_total. cbn [impressions]. rewrite Hadd. apply to_Z_of_Z. lia. }
    split.
    + apply integral_totals_insert; [done|lia|]. rewrite Hnew. exact Hadd.
    + rewrite sum_held_insert by done. rewrite Hnew. lia.
Qed.

Lemma forEach_body_skip m s :
  (forall c, inherited c = true -> own m !! c = None) ->
  inherited (client_id s) = true ->
  own (forEach_body m s) = own m.
Proof.
  intros Hinh Hk. unfold forEach_body. by rewrite (Hinh _ Hk), Hk.
Qed.

Lemma fold_forEach_body_sum rows : forall m ns,
  integral_totals (own m) ->
  (forall c, inherited c = true -> own m !! c = None) ->
  integer_counts (List.filter (fun s => negb (inherited (client_id s))) rows) ns ->
  (sum_held (own m) + sum_Z ns < 2 ^ 53)%Z ->
  integral_totals (own (fold_left forEach_body rows m)) /\
  sum_held (own (fold_left forEach_body rows m)) = (sum_held (own m) + sum_Z ns)%Z.
Proof.
  induction rows as [|s rows IH]; intros m ns Hm Hinh Hns Hlt; cbn [fold_left].
  - inversion Hns; subst. unfold sum_Z. cbn [foldr]. split; [done|lia].
  - cbn [List.filter] in Hns.
    assert (Hinh' : forall c, inherited c = true -> own (forEach_body m s) !! c = None).
    { intros c Hc. apply forEach_body_own_inherited; auto. }
    destruct (inherited (client_id s)) eqn:Hk; cbn [negb] in Hns.
    + pose proof (forEach_body_skip m s Hinh Hk) as Hskip.
      destruct (IH (forEach_body m s) ns) as [H1 H2]; try done.
      * by rewrite Hskip.
      * by rewrite Hskip.
      * split; [done|]. by rewrite H2, Hskip.
    + inversion Hns as [|s' n rows' ns' [Hn Hs] Hrest]; subst.
      assert (Hpos : (0 <= sum_Z ns')%Z).
      { apply sum_Z_nonneg. clear -Hrest.
        induction Hrest as [|? ? ? ? [? _] _ IH']; by constructor. }
      unfold sum_Z in Hlt, Hpos |- *. cbn [foldr] in Hlt |- *.
      destruct (forEach_body_sum m s n) as [H1 H2]; try done; [lia|].
      destruct (IH (forEach_body m s) ns') as [H3 H4]; try done.
      { rewrite H2. unfold sum_Z. lia. }
      split; [done|]. rewrite H4, H2. unfold sum_Z. lia.
Qed.

Lemma clients_total_impressions_sum (m : gmap string client_stat) values :
  integral_totals m -> (sum_held m < 2 ^ 53)%Z ->
  Permutation values (map snd (map_to_list m)) ->
  clients_total_impressions values = of_Z (sum_held m).
Proof.
  intros Hm Hlt Hperm.
  pose proof (sum_held_nonneg _ Hm) as Hpos.
  assert (Hsum : sum_Z (map entry_total values) = sum_held m).
  { unfold sum_held. rewrite <- (map_map snd entry_total).
    apply sum_Z_Permutation. by apply Permutation_map. }
  assert (Hall : Forall (fun e => (0 <= entry_total e)%Z /\
                                  impressions e = of_Z (entry_total e)) values).
  { eapply Permutation_Forall; [symmetry; exact Hperm|].
    apply Forall_fmap, List.Forall_forall. intros [k e] Hin.
    apply list_elem_of_In, elem_of_map_to_list in Hin. by apply (Hm k). }
  assert (Hbound : Forall (fun e => (entry_total e <= sum_Z (map entry_total values))%Z)
                          values).
  { clear -Hall. unfold sum_Z. induction Hall as [|e l [He _] Hl IH]; [constructor|].
    cbn [map foldr]. constructor.
    - assert (0 <= foldr Z.add 0 (map entry_total l))%Z; [|lia].
      apply (sum_Z_nonneg (map entry_total l)), Forall_fmap.
      eapply List.Forall_impl; [|exact Hl]. by intros ? [? _].
    - eapply List.Forall_impl; [|exact IH]. intros ? ?. simpl in *. lia. }
  unfold clients_total_impressions. change zero with (of_Z 0).
  rewrite (fold_add_integers _ values (map entry_total values)).
  - by rewrite Z.add_0_l, Hsum.
  - rewrite Forall2_fmap_r. apply Forall_Forall2_diag.
    rewrite List.Forall_forall in Hall, Hbound |- *. intros e He.
    destruct (Hall e He) as [H1 H2]. specialize (Hbound e He).
    split; [done|]. rewrite H2. apply or_zero_of_Z. lia.
  - lia.
  - lia.
Qed.

End TotalRevenue.

(** X14.  The Total Revenue card of the clients page is the product of
    0.10 and the sum of the impression totals of the clients' entries.
    For counts that are non-negative integers with a total below 2^53
    this sum is the exact total of the counts of all stat rows whose
    client id is not the name of a member of [Object.prototype],
    whatever the order [Object.values] lists the entries in; the rows
    under such a name are left out of the card. *)
Theorem clients_total_revenue_all_rows
    (data : option (list campaign_stat)) (values : list ClientsPage.client_stat)
    (ns : list Z) :
  let statsMap := ClientsPage.loadData_statsMap data in
  let counted_rows :=
    List.filter (fun s => negb (inherited (client_id s))) (default [] data) in
  Object_values_of statsMap values ->
  integer_counts counted_rows ns ->
  (sum_Z ns < 2 ^ 53)%Z ->
  clients_total_impressions values = of_Z (sum_Z ns) /\
  clients_totalRevenue values = mul (of_Z (sum_Z ns)) lit_0_10.
Proof.
  intros statsMap counted_rows Hvalues Hns Hlt.
  assert (H0 : sum_held (ClientsPage.own ClientsPage.empty_map) = 0%Z).
  { unfold sum_held. cbn. by rewrite map_to_list_empty. }
  destruct (fold_forEach_body_sum (default [] data) ClientsPage.empty_map ns)
    as [Hint Hsum].
  { intros c e. cbn. by rewrite lookup_empty. }
  { intros c _. cbn. apply lookup_empty. }
  { exact Hns. }
  { rewrite H0. lia. }
  rewrite H0, Z.add_0_l in Hsum.
  assert (Ht : clients_total_impressions values = of_Z (sum_Z ns)).
  { rewrite <- Hsum. apply clients_total_impressions_sum; [done| |done].
    unfold ClientsPage.loadData_statsMap in *. by rewrite Hsum. }
  split; [exact Ht|]. unfold clients_totalRevenue. by rewrite Ht.
Qed.

Lemma clients_total_revenue_all_rows_witness :
  clients_total_impressions
    [ClientsPage.mkClientStat (of_Z 7) (of_Z 2); ClientsPage.mkClientStat (of_Z 9) (of_Z 1)]
  = of_Z 16.
Proof.
  refine (proj1 (clients_total_revenue_all_rows
            (Some [mkCampaignStat "c1" "k1" (Number (of_Z 5)) Null;
                   mkCampaignStat "c2" "k2" (Number (of_Z 9)) Null;
                   mkCampaignStat "c3" "constructor" (Number (of_Z 4)) Null;
                   mkCampaignStat "c4" "k1" (Number (of_Z 2)) Null])
            [ClientsPage.mkClientStat (of_Z 7) (of_Z 2);
             ClientsPage.mkClientStat (of_Z 9) (of_Z 1)]
            [5; 9; 2]%Z _ _ _)).
  - unfold Object_values_of. vm_compute. apply Permutation_refl.
  - change (integer_counts
              [mkCampaignStat "c1" "k1" (Number (of_Z 5)) Null;
               mkCampaignStat "c2" "k2" (Number (of_Z 9)) Null;
               mkCampaignStat "c4" "k1" (Number (of_Z 2)) Null] [5; 9; 2]%Z).
    repeat (constructor; [split; [lia|reflexivity]|]). constructor.
  - reflexivity.
Defined.

(** ** Impressions by date *)

Section Trend.

Import AnalyticsCharts.

#[local] Arguments String.append : simpl nomatch.

Lemma split_not_nil c s : split c s <> [].
Proof.
  destruct s as [|d s]; simpl; [done|].
  destruct (Ascii.eqb d c); [done|]. by destruct (split c s).
Qed.

Variable member_text : string -> string.

Lemma impressionsByDate_snoc imps imp :
  impressionsByDate member_text (imps ++ [imp])
  = count_impression member_text (impressionsByDate member_text imps) imp.
Proof. unfold impressionsByDate. by rewrite fold_left_app. Qed.

Lemma on_date_snoc d imps imp :
  on_date d (imps ++ [imp])
  = on_date d imps ++ (if decide (date_of imp = d) then [imp] else []).
Proof.
  unfold on_date. rewrite list.filter_app, filter_cons, filter_nil. done.
Qed.

Lemma count_impression_lookup_ne acc imp d :
  date_of imp <> d -> count_impression member_text acc imp !! d = acc !! d.
Proof.
  intros Hd. unfold count_impression.
  destruct (acc !! date_of imp) as [[n|s]|]; try by rewrite lookup_insert_ne.
  destruct (inherited (date_of imp)); [|by rewrite lookup_insert_ne].
  destruct (String.eqb _ _); [done|by rewrite lookup_insert_ne].
Qed.

Lemma impressionsByDate_lookup imps : forall d,
  inherited d = false ->
  impressionsByDate member_text imps !! d
  = match length (on_date d imps) with
    | O => None
    | S n => Some (count (S n))
    end.
Proof.
  induction imps as [|imp imps IH] using rev_ind; intros d Hd; [done|].
  rewrite impressionsByDate_snoc, on_date_snoc, length_app.
  destruct (decide (date_of imp = d)) as [E|E].
  - unfold count_impression. rewrite E, (IH d Hd), Hd. simpl.
    destruct (length (on_date d imps)); rewrite lookup_insert_eq; do 2 f_equal; lia.
  - rewrite count_impression_lookup_ne by done. rewrite (IH d Hd). simpl.
    by rewrite Nat.add_0_r.
Qed.

Lemma count_sum_Permutation (l1 l2 : list (string * tally)) :
  Permutation l1 l2 ->
  foldr (fun p acc => (counted (snd p) + acc)%nat) 0%nat l1
  = foldr (fun p acc => (counted (snd p) + acc)%nat) 0%nat l2.
Proof. induction 1; simpl; lia. Qed.

Lemma sum_counts_insert_new (m : gmap string tally) k t :
  m !! k = None -> sum_counts (<[k := t]> m) = (counted t + sum_counts m)%nat.
Proof.
  intros E. unfold sum_counts.
  by rewrite (count_sum_Permutation _ _ (map_to_list_insert m k t E)).
Qed.

Lemma sum_counts_insert_old (m : gmap string tally) k t t' :
  m !! k = Some t' ->
  (sum_counts (<[k := t]> m) + counted t' = counted t + sum_counts m)%nat.
Proof.
  intros E. unfold sum_counts. rewrite <- insert_delete_eq.
  rewrite (count_sum_Permutation _ _
             (map_to_list_insert (delete k m) k t (lookup_delete_eq m k))).
  rewrite <- (count_sum_Permutation _ _ (map_to_list_delete m k t' E)).
  simpl. lia.
Qed.

Lemma count_impression_tallies acc imp :
  tallies_by_key acc ->
  tallies_by_key (count_impression member_text acc imp) /\
  sum_counts (count_impression member_text acc imp)
  = (sum_counts acc + if inherited (date_of imp) then 0 else 1)%nat.
Proof.
  intros Hacc. unfold count_impression.
  destruct (acc !! date_of imp) as [[n|s]|] eqn:E.
  - pose proof (Hacc _ _ E) as Hk. simpl in Hk. rewrite Hk. split.
    + intros k t. destruct (decide (date_of imp = k)) as [<-|Hne].
      * rewrite lookup_insert_eq. by intros [= <-].
      * rewrite lookup_insert_ne by done. apply Hacc.
    + pose proof (sum_counts_insert_old acc _ (count (n + 1)) _ E) as H.
      simpl in H. lia.
  - pose proof (Hacc _ _ E) as Hk. simpl in Hk. rewrite Hk. split.
    + intros k t. destruct (decide (date_of imp = k)) as [<-|Hne].
      * rewrite lookup_insert_eq. by intros [= <-].
      * rewrite lookup_insert_ne by done. apply Hacc.
    + pose proof (sum_counts_insert_old acc _ (text (s ++ "1")) _ E) as H.
      simpl in H. lia.
  - destruct (inherited (date_of imp)) eqn:Hk.
    + destruct (String.eqb _ _); [split; [done|lia]|]. split.
      * intros k t. destruct (decide (date_of imp = k)) as [<-|Hne].
        -- rewrite lookup_insert_eq. by intros [= <-].
        -- rewrite lookup_insert_ne by done. apply Hacc.
      * rewrite sum_counts_insert_new by done. simpl. lia.
    + split.
      * intros k t. destruct (decide (date_of imp = k)) as [<-|Hne].
        -- rewrite lookup_insert_eq. by intros [= <-].
        -- rewrite lookup_insert_ne by done. apply Hacc.
      * rewrite sum_counts_insert_new by done. simpl. lia.
Qed.

Lemma filter_not_inherited imps :
  Forall (fun imp => inherited (date_of imp) = false) imps ->
  List.filter (fun imp => negb (inherited (date_of imp))) imps = imps.
Proof. induction 1 as [|imp imps H _ IH]; simpl; [done|]. rewrite H. simpl. by f_equal. Qed.

Lemma sum_counts_impressionsByDate imps :
  tallies_by_key (impressionsByDate member_text imps) /\
  sum_counts (impressionsByDate member_text imps)
  = length (List.filter (fun imp => negb (inherited (date_of imp))) imps).
Proof.
  induction imps as [|imp imps [IH1 IH2]] using rev_ind.
  - split; [intros k t; unfold impressionsByDate; simpl; by rewrite lookup_empty|].
    unfold sum_counts, impressionsByDate. simpl. by rewrite map_to_list_empty.
  - rewrite impressionsByDate_snoc.
    destruct (count_impression_tallies _ imp IH1) as [H1 H2].
    split; [done|]. rewrite H2, IH2, List.filter_app, length_app. simpl.
    destruct (inherited (date_of imp)); simpl; lia.
Qed.

End Trend.

(** X15.  The trend counts every impression exactly once under its
    date, as long as the date is not the name of a member of
    [Object.prototype]: the count kept for such a date is the number of
    impressions that fall on it, a date without impressions has no
    entry, and the counts of all dates add up to the number of
    impressions filed under such dates.  (Under the name of a member the
    entry is a text, or missing, and counts nothing.) *)
Theorem impressions_counted_once_by_date
    (member_text : string -> string)
    (impressions : list AnalyticsCharts.impression) (d : string) :
  let byDate := AnalyticsCharts.impressionsByDate member_text impressions in
  (inherited d = false ->
   byDate !! d
   = match length (on_date d impressions) with
     | O => None
     | S n => Some (AnalyticsCharts.count (S n))
     end) /\
  (inherited d = true -> forall n, byDate !! d <> Some (AnalyticsCharts.count n)) /\
  sum_counts byDate
  = length (List.filter (fun imp => negb (inherited (AnalyticsCharts.date_of imp)))
                        impressions) /\
  (Forall (fun imp => inherited (AnalyticsCharts.date_of imp) = false) impressions ->
   sum_counts byDate = length impressions).
Proof.
  intros byDate.
  destruct (sum_counts_impressionsByDate member_text impressions) as [Hkeys Hsum].
  split; [apply impressionsByDate_lookup|]. split; [|split; [exact Hsum|]].
  - intros Hd n E. apply Hkeys in E. simpl in E. congruence.
  - intros Hall. unfold byDate. rewrite Hsum. f_equal.
    by apply filter_not_inherited.
Qed.

Lemma impressions_counted_once_by_date_witness :
  AnalyticsCharts.impressionsByDate (fun k => k)
    [AnalyticsCharts.mkImpression "i1" (Some "2026-01-05T10:15:00Z");
     AnalyticsCharts.mkImpression "i2" (Some "2026-01-06T08:00:00Z");
     AnalyticsCharts.mkImpression "i3" (Some "2026-01-05T23:59:59Z")]
    !! "2026-01-05"
  = Some (AnalyticsCharts.count 2).
Proof.
  destruct (impressions_counted_once_by_date (fun k => k)
              [AnalyticsCharts.mkImpression "i1" (Some "2026-01-05T10:15:00Z");
               AnalyticsCharts.mkImpression "i2" (Some "2026-01-06T08:00:00Z");
               AnalyticsCharts.mkImpression "i3" (Some "2026-01-05T23:59:59Z")]
              "2026-01-05") as (H & _).
  rewrite H; reflexivity.
Defined.

(** X16.  An impression is filed under the part of [played_at] before
    its first T, so a timestamp made of a date without T, a T and a time
    is filed under the date; an impression without [played_at], or whose
    [played_at] starts with T or is empty, is filed under Unknown. *)
Theorem impression_date_key (id date time : string) :
  includes_char "T"%char date = false ->
  date <> EmptyString ->
  AnalyticsCharts.date_of
    (AnalyticsCharts.mkImpression id (Some (date ++ String "T"%char time)%string))
  = date /\
  AnalyticsCharts.date_of (AnalyticsCharts.mkImpression id (Some date)) = date /\
  AnalyticsCharts.date_of (AnalyticsCharts.mkImpression id None) = "Unknown" /\
  AnalyticsCharts.date_of
    (AnalyticsCharts.mkImpression id (Some (String "T"%char time))) = "Unknown" /\
  AnalyticsCharts.date_of (AnalyticsCharts.mkImpression id (Some EmptyString))
  = "Unknown".
Proof.
  intros HT Hne. unfold AnalyticsCharts.date_of. simpl.
  apply String.eqb_neq in Hne.
  split; [by rewrite split_append, Hne|].
  split; [|done].
  assert (H : split "T"%char date = [date]).
  { clear Hne. induction date as [|c date IH]; [done|]. simpl in *.
    destruct (Ascii.eqb c "T"); [discriminate|]. by rewrite IH. }
  by rewrite H, Hne.
Qed.

Lemma impression_date_key_witness :
  AnalyticsCharts.date_of
    (AnalyticsCharts.mkImpression "i1"
       (Some ("2026-01-05" ++ String "T"%char "10:15:00Z")%string))
  = "2026-01-05".
Proof.
  refine (proj1 (impression_date_key "i1" "2026-01-05" "10:15:00Z" _ _)).
  - reflexivity.
  - discriminate.
Defined.

(** ** The impressions export *)

Section ImpressionsExport.

Import AnalyticsCharts.

#[local] Arguments String.append : simpl nomatch.

Lemma convertToCSV_document fields item items :
  Api.convertToCSV (Some (item :: items)) fields
  = csv_document fields (item :: items).
Proof.
  unfold Api.convertToCSV, csv_document, csv_lines.
  f_equal. f_equal. apply map_ext. intros it.
  f_equal. apply map_ext. intros f. apply cell_quoted_text.
Qed.

Lemma csv_document_not_empty fields item items :
  fields <> [] ->
  Forall (fun f => Api.label f <> EmptyString) fields ->
  csv_document fields (item :: items) <> EmptyString.
Proof.
  intros Hne Hlabels. unfold csv_document, csv_lines.
  rewrite join_cons by done.
  destruct fields as [|f fields]; [done|].
  apply Forall_cons_1 in Hlabels as [Hf _].
  assert (Hj : exists ch rest, join "," (map Api.label (f :: fields)) = String ch rest).
  { destruct (Api.label f) as [|ch rest] eqn:E; [done|].
    destruct fields as [|f' fields]; simpl; rewrite E; simpl; eauto. }
  destruct Hj as (ch & rest & ->). simpl. discriminate.
Qed.

Lemma plain_text_survives s : plain_text s = true -> survives s = true.
Proof.
  unfold plain_text, survives, has_line_break.
  destruct (includes_char comma s), (includes_char dquote s),
    (includes_char LF s), (includes_char CR s); simpl; congruence.
Qed.

Lemma plain_text_cell s :
  plain_text s = true -> Api.element_text (Api.cell (Api.VString s)) = s.
Proof.
  unfold plain_text. simpl.
  destruct (includes_char comma s), (includes_char dquote s); simpl;
    try discriminate; done.
Qed.

(** With labels free of commas as well, the header row read back is the
    list of labels. *)
Lemma export_reads_back_plain_labels fields item items :
  (1 < length fields)%nat ->
  Forall (fun f => plain_text (Api.label f) = true) fields ->
  Forall (fun it =>
            Forall (fun f => value_survives (Api.prop it (Api.key f)) = true) fields)
         (item :: items) ->
  Rfc4180.parse (Api.convertToCSV (Some (item :: items)) fields)
  = Some (map Api.label fields :: map (selected_text fields) (item :: items)).
Proof.
  intros Hfields Hlabels Hvalues.
  set (header := map (fun f => Api.VString (Api.label f)) fields).
  set (ls := map (fun it => map (fun f => Api.prop it (Api.key f)) fields)
                 (item :: items)).
  assert (Hcsv : Api.convertToCSV (Some (item :: items)) fields
                 = join Api.newline
                     (map (fun vs => join "," (map (fun v => Api.element_text (Api.cell v)) vs))
                        (header :: ls))).
  { unfold Api.convertToCSV. cbn [map]. f_equal. f_equal.
    - unfold header. rewrite map_map. f_equal. apply map_ext_in.
      intros f Hf. symmetry. apply plain_text_cell.
      rewrite List.Forall_forall in Hlabels. by apply Hlabels.
    - unfold ls. cbn [map]. f_equal; [by rewrite map_map|].
      rewrite map_map. apply map_ext. intros it. by rewrite map_map. }
  unfold Rfc4180.parse. rewrite Hcsv, lines_read.
  - simpl. f_equal. f_equal.
    + unfold header. rewrite map_map. by apply map_ext.
    + unfold selected_text. f_equal; [by rewrite map_map|].
      rewrite map_map. apply map_ext. intros it. by rewrite map_map.
  - done.
  - constructor.
    + split; [unfold header; destruct fields; [simpl in Hfields; lia|done]|].
      unfold header. apply Forall_fmap. eapply List.Forall_impl; [|exact Hlabels].
      intros f Hf. simpl. by apply plain_text_survives.
    + unfold ls. apply Forall_fmap. eapply List.Forall_impl; [|exact Hvalues].
      intros it Hit. simpl. split; [destruct fields; [simpl in Hfields; lia|done]|].
      by apply Forall_fmap.
  - intros vs Hvs Heq.
    assert (Hlen : length vs = length fields).
    { apply last_Some_elem_of, elem_of_cons in Hvs as [->|Hvs].
      - unfold header. by rewrite length_map.
      - unfold ls in Hvs. apply list_elem_of_fmap in Hvs as (it & -> & _).
        by rewrite length_map. }
    apply (f_equal length) in Heq. rewrite length_map, Hlen in Heq.
    simpl in Heq. lia.
Qed.

End ImpressionsExport.

(** X17.  The impressions export always asks for at most 10000 rows of
    the chosen date range, and for one campaign only when one is
    selected.  It downloads a file exactly when the response holds at
    least one record: the file is then the header line followed by one
    line per record, never empty, named after the date range; in every
    other case (failed request, no data) it shows an error and downloads
    nothing. *)
Theorem export_downloads_only_data
    (start_date end_date selectedCampaign : string)
    (response : option (option (list (gmap string Api.value))))
    (csvContent filename : string) :
  let log :=
    AnalyticsCharts.handleExportCSV start_date end_date selectedCampaign response in
  let params :=
    AnalyticsCharts.exportCSV_params
      (AnalyticsCharts.export_params start_date end_date selectedCampaign) in
  (In (AnalyticsCharts.downloadCSV csvContent filename) log <->
     exists item items,
       response = Some (Some (item :: items)) /\
       csvContent = csv_document AnalyticsCharts.impression_fields (item :: items) /\
       csvContent <> EmptyString /\
       filename = ("impressions_" ++ start_date ++ "_to_" ++ end_date ++ ".csv")%string) /\
  ((exists msg, In (AnalyticsCharts.toast_error msg) log) <->
     ~ exists content name, In (AnalyticsCharts.downloadCSV content name) log) /\
  In (AnalyticsCharts.get_impressions params) log /\
  params !! "limit" = Some (Api.VInt 10000) /\
  params !! "start_date" = Some (Api.VString start_date) /\
  params !! "end_date" = Some (Api.VString end_date) /\
  params !! "campaign_id"
  = (if String.eqb selectedCampaign EmptyString then None
     else Some (Api.VString selectedCampaign)).
Proof.
  intros log params.
  assert (Hne : forall item items,
            csv_document AnalyticsCharts.impression_fields (item :: items)
            <> EmptyString).
  { intros item items. apply csv_document_not_empty; [done|].
    repeat constructor; discriminate. }
  split; [|split; [|split]].
  - unfold log, AnalyticsCharts.handleExportCSV.
    destruct response as [[[|item items]|]|];
      cbn -[Api.convertToCSV csv_document].
    + split; [intuition discriminate|]. by intros (? & ? & [=] & _).
    + rewrite convertToCSV_document. split.
      * intros [[=]|[[=]|[H|[[=]|[]]]]]. injection H as <- <-.
        exists item, items. by repeat split.
      * intros (item' & items' & [= <- <-] & -> & _ & ->). tauto.
    + split; [intuition discriminate|]. by intros (? & ? & [=] & _).
    + split; [intuition discriminate|]. by intros (? & ? & [=] & _).
  - unfold log, AnalyticsCharts.handleExportCSV.
    destruct response as [[[|item items]|]|];
      cbn -[Api.convertToCSV csv_document].
    + split; [|eauto 6]. intros _ (content & name & H). intuition discriminate.
    + split.
      * intros (msg & H). intuition discriminate.
      * intros H. exfalso. apply H. eauto 8.
    + split; [|eauto 6]. intros _ (content & name & H). intuition discriminate.
    + split; [|eauto 6]. intros _ (content & name & H). intuition discriminate.
  - unfold log, AnalyticsCharts.handleExportCSV. simpl. tauto.
  - unfold params, AnalyticsCharts.exportCSV_params, AnalyticsCharts.export_params.
    destruct (String.eqb selectedCampaign EmptyString);
      repeat split; by simplify_map_eq.
Qed.

(** X18.  The file the impressions export downloads reads back as the
    header row Impression ID, Device ID, Ad ID, Played At followed, for
    each record in order, by its id, device_id, ad_id and played_at as
    text, provided every such string value with a line break also holds
    a comma or a quote. *)
Theorem impressions_export_reads_back
    (start_date end_date selectedCampaign : string)
    (item : gmap string Api.value) (items : list (gmap string Api.value)) :
  Forall (fun it =>
            Forall (fun f => value_survives (Api.prop it (Api.key f)) = true)
                   AnalyticsCharts.impression_fields)
         (item :: items) ->
  exists csvContent filename,
    In (AnalyticsCharts.downloadCSV csvContent filename)
       (AnalyticsCharts.handleExportCSV start_date end_date selectedCampaign
          (Some (Some (item :: items)))) /\
    Rfc4180.parse csvContent
    = Some (["Impression ID"; "Device ID"; "Ad ID"; "Played At"]
            :: map (fun it => [ Api.element_text (Api.prop it "id");
                                Api.element_text (Api.prop it "device_id");
                                Api.element_text (Api.prop it "ad_id");
                                Api.element_text (Api.prop it "played_at") ])
                   (item :: items)).
Proof.
  intros Hvalues.
  exists (Api.convertToCSV (Some (item :: items)) AnalyticsCharts.impression_fields),
         ("impressions_" ++ start_date ++ "_to_" ++ end_date ++ ".csv")%string.
  split.
  - unfold AnalyticsCharts.handleExportCSV.
    cbn -[Api.convertToCSV]. tauto.
  - rewrite export_reads_back_plain_labels; [done|simpl; lia| |done].
    repeat constructor.
Qed.

Lemma impressions_export_reads_back_witness :
  exists csvContent filename,
    In (AnalyticsCharts.downloadCSV csvContent filename)
       (AnalyticsCharts.handleExportCSV "2026-01-01" "2026-01-31" EmptyString
          (Some (Some [ <["id" := Api.VInt 41]>
                          (<["device_id" := Api.VString "TAB-7"]>
                             (<["played_at" := Api.VString "2026-01-05T10:15:00Z"]> ∅)) ]))) /\
    Rfc4180.parse csvContent
    = Some (["Impression ID"; "Device ID"; "Ad ID"; "Played At"]
            :: map (fun it => [ Api.element_text (Api.prop it "id");
                                Api.element_text (Api.prop it "device_id");
                                Api.element_text (Api.prop it "ad_id");
                                Api.element_text (Api.prop it "played_at") ])
                   [ <["id" := Api.VInt 41]>
                       (<["device_id" := Api.VString "TAB-7"]>
                          (<["played_at" := Api.VString "2026-01-05T10:15:00Z"]> ∅)) ]).
Proof.
  apply (impressions_export_reads_back "2026-01-01" "2026-01-31" EmptyString
           (<["id" := Api.VInt 41]>
              (<["device_id" := Api.VString "TAB-7"]>
                 (<["played_at" := Api.VString "2026-01-05T10:15:00Z"]> ∅)))
           []).
  repeat (apply List.Forall_cons || apply List.Forall_nil); vm_compute; reflexivity.
Defined.

(** ** Roles other than admin, and signing out *)

(** X19.  Any role other than the string admin, be it customer, an
    unknown role or [null], is treated as a customer: the sidebar shows
    the customer links, no path renders the devices, drivers or clients
    page, and their paths redirect a loaded session to /unauthorized
    with a user and to /login without one. *)
Theorem other_roles_are_customers
    (auth : AuthContext.auth_state) (path : string) (c : App.component) :
  AuthContext.userRole auth <> JString "admin" ->
  AuthContext.loading auth = false ->
  In path ["/devices"; "/drivers"; "/clients"] ->
  In c [App.DevicesPage; App.DriversPage; App.ClientsPage] ->
  DashboardLayout.navItems (AuthContext.userRole auth)
  = DashboardLayout.customerNavItems /\
  (forall p, App.render p auth <> Some (App.page c)) /\
  App.render path auth
  = Some (App.Navigate (match AuthContext.current_user auth with
                        | Some _ => "/unauthorized"
                        | None => "/login"
                        end)).
Proof.
  intros Hrole Hl Hpath Hc.
  assert (Hinc : App.includes ["admin"] (AuthContext.userRole auth) = false).
  { destruct (App.includes ["admin"] (AuthContext.userRole auth)) eqn:E; [|done].
    apply includes_spec in E as (r & Hr & [<-|[]]). contradiction. }
  split; [|split].
  - unfold DashboardLayout.navItems.
    destruct (AuthContext.userRole auth) as [| | |r| |]; try done.
    destruct (String.eqb_spec r "admin") as [->|]; [contradiction|done].
  - intros p Hp.
    destruct (admin_page_rendered auth p c Hc Hp) as (_ & _ & Hadmin).
    contradiction.
  - pose proof (fun ch rr => ProtectedRoute_loaded ch rr auth Hl) as HP.
    simpl in Hpath. unfold App.render.
    destruct Hpath as [<-|[<-|[<-|[]]]]; simpl; rewrite HP, Hinc;
      by destruct (AuthContext.current_user auth).
Qed.

Lemma other_roles_are_customers_witness :
  DashboardLayout.navItems (JString "superuser") = DashboardLayout.customerNavItems /\
  (forall p,
     App.render p
       (AuthContext.mkAuth None (Some (AuthContext.mkUser "u1" "a@b.c")) false
          (JString "superuser"))
     <> Some (App.page App.DriversPage)) /\
  App.render "/drivers"
    (AuthContext.mkAuth None (Some (AuthContext.mkUser "u1" "a@b.c")) false
       (JString "superuser"))
  = Some (App.Navigate "/unauthorized").
Proof.
  apply (other_roles_are_customers
           (AuthContext.mkAuth None (Some (AuthContext.mkUser "u1" "a@b.c")) false
              (JString "superuser"))
           "/drivers" App.DriversPage).
  - discriminate.
  - reflexivity.
  - simpl. tauto.
  - simpl. tauto.
Defined.

(** X20.  Once the mount-time resolution has arrived, an auth state
    change without a session (a sign-out) leaves no user and no role,
    and every protected route, whatever roles it requires, redirects to
    /login. *)
Theorem sign_out_redirects_to_login
    (atob : string -> option string) (JSON_parse : string -> option json)
    (events : list AuthContext.event) (children : App.element)
    (requiredRoles : list string) :
  forallb is_state_change events = false ->
  let final :=
    AuthContext.run atob JSON_parse
      (events ++ [AuthContext.auth_state_changed None]) AuthContext.initial_auth in
  AuthContext.current_user final = None /\
  AuthContext.userRole final = JNull /\
  AuthContext.loading final = false /\
  App.ProtectedRoute children requiredRoles final = App.Navigate "/login".
Proof.
  intros Hres final.
  assert (Hl : AuthContext.loading final = false).
  { unfold final. rewrite run_loading, forallb_app, Hres. reflexivity. }
  assert (Hu : AuthContext.current_user final = None /\
               AuthContext.userRole final = JNull).
  { unfold final. rewrite run_app. simpl. done. }
  destruct Hu as [Hu Hr]. repeat split; try done.
  rewrite ProtectedRoute_loaded by done. by rewrite Hu.
Qed.

Lemma sign_out_redirects_to_login_witness :
  App.ProtectedRoute (App.page App.DashboardPage) []
    (AuthContext.run (fun text => Some text) (fun _ => None)
       ([AuthContext.session_resolved
           (Some (AuthContext.mkSession (Some "head.body.sig")
                    (Some (AuthContext.mkUser "u1" "a@b.c"))))]
        ++ [AuthContext.auth_state_changed None])
       AuthContext.initial_auth)
  = App.Navigate "/login".
Proof.
  refine (proj2 (proj2 (proj2 (sign_out_redirects_to_login
            (fun text => Some text) (fun _ => None)
            [AuthContext.session_resolved
               (Some (AuthContext.mkSession (Some "head.body.sig")
                        (Some (AuthContext.mkUser "u1" "a@b.c"))))]
            (App.page App.DashboardPage) [] _)))).
  reflexivity.
Defined.
